(** * The bulk-import argument pipeline of [omero/plugins/import.py]

    A shallow embedding of [CommandArguments] and of the bulk part of
    [ImportControl] (descriptor loading, [parse_bulk], the row parsers,
    [bulk_import] and [do_import]), followed by the properties of the
    specification that are stated about them.  Further properties cover
    the constructor, [add] as a dictionary update, what a descriptor
    forwards, the log files, [importer] with the search for the jars and
    their download, and the point lists of [omero/util/ROI_utils.py].

    Python values are the YAML scalars and lists of them; dictionaries are
    insertion-ordered association lists with string keys; text is ASCII.
    Everything outside the module (the file system, [os.path], [shlex],
    [csv], the Java process, the CLI context) is a field of [Env]; what
    [importer] sees of the installation, the jars and the network is a
    field of [Jars]. *)

From Stdlib Require Import String Ascii ZArith List Bool Arith Lia.
From Stdlib Require DecimalString HexadecimalString DecimalZ DecimalPos
  HexadecimalPos.
Import ListNotations.
Set Warnings "-register-all".

Local Open Scope string_scope.
Local Open Scope list_scope.

(** ** Text *)

Module Str.

(** [str.isspace] on ASCII: TAB..CR, FS..US and the blank. *)
Definition is_space (c : ascii) : bool :=
  let n := nat_of_ascii c in
  (Nat.leb 9 n && Nat.leb n 13) || (Nat.leb 28 n && Nat.leb n 32).

Fixpoint lstrip (s : string) : string :=
  match s with
  | EmptyString => EmptyString
  | String c t => if is_space c then lstrip t else s
  end.

Definition rev (s : string) : string :=
  string_of_list_ascii (List.rev (list_ascii_of_string s)).

Definition rstrip (s : string) : string := rev (lstrip (rev s)).

(** [str.strip()] *)
Definition strip (s : string) : string := rstrip (lstrip s).

Fixpoint map (f : ascii -> ascii) (s : string) : string :=
  match s with
  | EmptyString => EmptyString
  | String c t => String (f c) (map f t)
  end.

Definition lower_char (c : ascii) : ascii :=
  let n := nat_of_ascii c in
  if Nat.leb 65 n && Nat.leb n 90 then ascii_of_nat (n + 32) else c.

(** [str.lower()] *)
Definition lower : string -> string := map lower_char.

(** [str.replace(a, b)] for one-character [a] and [b]. *)
Definition replace_char (a b : ascii) : string -> string :=
  map (fun c => if Ascii.eqb c a then b else c).

(** [s.endswith(suf)] *)
Definition endswith (s suf : string) : bool := prefix (rev suf) (rev s).

(** [sub in s] for strings. *)
Fixpoint contains (sub s : string) : bool :=
  prefix sub s ||
  match s with
  | EmptyString => false
  | String _ t => contains sub t
  end.

(** [sep.join(l)] *)
Fixpoint join (sep : string) (l : list string) : string :=
  match l with
  | [] => EmptyString
  | [x] => x
  | x :: t => (x ++ sep ++ join sep t)%string
  end.

(** ["%s" % z] and ["%x" % n] for integers. *)
Definition of_Z (z : Z) : string :=
  DecimalString.NilZero.string_of_int (Z.to_int z).

Definition hex_of_nat (n : nat) : string :=
  HexadecimalString.NilZero.string_of_uint (N.to_hex_uint (N.of_nat n)).

Definition chars (s : string) : list string :=
  List.map (fun c => String c EmptyString) (list_ascii_of_string s).

End Str.

(** ** Python values *)

(** [NO_ARG] is the module's sentinel [object()]; the other constructors are
    what [yaml.safe_load] and [argparse] hand over. *)
Inductive pyval : Type :=
| NO_ARG
| PNone
| PBool (b : bool)
| PInt (z : Z)
| PStr (s : string)
| PList (l : list pyval).

(** [bool(v)] *)
Definition truthy (v : pyval) : bool :=
  match v with
  | NO_ARG => true
  | PNone => false
  | PBool b => b
  | PInt z => negb (Z.eqb z 0)
  | PStr s => negb (String.eqb s EmptyString)
  | PList l => match l with [] => false | _ => true end
  end.

(** [val != NO_ARG] *)
Definition is_no_arg (v : pyval) : bool :=
  match v with NO_ARG => true | _ => false end.

(** [v == s] for a string literal [s]. *)
Definition eq_str (s : string) (v : pyval) : bool :=
  match v with PStr s' => String.eqb s s' | _ => false end.

(** ** Dictionaries: insertion-ordered, keys unique *)

Section Dict.
Context {V : Type}.

Definition dict : Type := list (string * V).

Fixpoint dict_get (k : string) (d : dict) : option V :=
  match d with
  | [] => None
  | (k', v) :: t => if String.eqb k k' then Some v else dict_get k t
  end.

Definition dict_has (k : string) (d : dict) : bool :=
  match dict_get k d with Some _ => true | None => false end.

(** [d[k] = v]: an existing key keeps its place, a new one goes last. *)
Fixpoint dict_set (k : string) (v : V) (d : dict) : dict :=
  match d with
  | [] => [(k, v)]
  | (k', v') :: t =>
      if String.eqb k k' then (k', v) :: t else (k', v') :: dict_set k v t
  end.

(** [d.update(data)] *)
Definition dict_update (d data : dict) : dict :=
  fold_left (fun acc kv => dict_set (fst kv) (snd kv) acc) data d.

(** [d.pop(k)], the remaining dictionary. *)
Fixpoint dict_pop (k : string) (d : dict) : dict :=
  match d with
  | [] => []
  | (k', v) :: t => if String.eqb k k' then t else (k', v) :: dict_pop k t
  end.

Definition dict_keys (d : dict) : list string := List.map fst d.

(** [d1 == d2] on dictionaries does not look at the order. *)
Definition dict_equiv (d1 d2 : dict) : Prop :=
  forall k, dict_get k d1 = dict_get k d2.

End Dict.

Arguments dict V : clear implicits.

(** ** The world outside the module *)

Inductive exn : Type :=
| Die (code : Z) (msg : string)      (* raised by [ctx.die] *)
| ImportError
| AttributeError
| IndexError
| TypeError
| ValueError
| IOError
| Diverges                            (* no exception: the loop never ends *)
| Unmodelled.                         (* behaviour outside this embedding *)

Inductive yaml_load : Type :=
| NoFile                              (* [open] raises *)
| NotMapping                          (* [safe_load] gives no dictionary *)
| Mapping (d : dict pyval).

Record Env : Type := {
  (** [str(v)] of a list or of [NO_ARG] *)
  repr_other : pyval -> string;
  (** [os.path.abspath], given the working directory *)
  abspath : string -> string -> string;
  (** [os.path.dirname] *)
  dirname : string -> string;
  (** [open(f, "r")] and [yaml.safe_load], by absolute path *)
  read_yaml : string -> yaml_load;
  (** the lines of [open(f, "r")], each with its line end *)
  read_lines : string -> option (list string);
  (** [shlex.split]; [None] is its [ValueError] *)
  shlex_split : string -> option (list string);
  (** [csv.reader(lines, delimiter=...)] *)
  csv_reader : string -> list string -> list (list string);
  (** whether [os.makedirs] and [open(f, "w"/"a")] succeed *)
  can_write : string -> bool;
  (** [omero.java.popen(...).wait()] of the n-th launch; [None]: no launch *)
  popen : nat -> list pyval -> list string -> option Z;
  (** [ctx.conn(args)]: host, port and session id; [None] when it fails *)
  conn : option (string * string * string);
  (** [sys.argv[0]] *)
  argv0 : string;
  (** [from yaml import safe_load] works *)
  has_yaml : bool
}.

(** [str(v)] *)
Definition py_str (E : Env) (v : pyval) : string :=
  match v with
  | PNone => "None"
  | PBool true => "True"
  | PBool false => "False"
  | PInt z => Str.of_Z z
  | PStr s => s
  | _ => repr_other E v
  end.

(** [iter(v)] as a list; [None] where Python raises [TypeError]. *)
Definition py_iter (v : pyval) : option (list pyval) :=
  match v with
  | PList l => Some l
  | PStr s => Some (List.map PStr (Str.chars s))
  | _ => None
  end.

(** [s in v] for a string literal [s]; [None] is [TypeError]. *)
Definition py_contains (s : string) (v : pyval) : option bool :=
  match v with
  | PList l => Some (existsb (eq_str s) l)
  | PStr t => Some (Str.contains s t)
  | _ => None
  end.

(** ** State, trace and the monad of the embedding *)

(** One [CommandArguments] instance.  [attrs] holds the attributes placed on
    the instance by [setattr] and by plain assignment ([path], [dry_run]). *)
Record CommandArguments : Type := mkCA {
  ca_args : dict pyval;            (* self.__args *)
  ca_accepts : list string;        (* self.__accepts *)
  ca_added : dict nat;             (* self.__added *)
  java_initial : list string;      (* self.__java_initial *)
  java_additional : list string;   (* self.__java_additional *)
  py_initial : list string;        (* self.__py_initial *)
  py_additional : list string;     (* self.__py_additional *)
  attrs : dict pyval
}.

(** What the run does to the outside, in the order it happens. *)
Inductive event : Type :=
| EvChdir (d : string)
| EvOut (s : string)                          (* ctx.out *)
| EvErr (s : string)                          (* ctx.err *)
| EvOpen (h : nat) (file mode : string)
| EvPrint (h : nat) (text : string)           (* print(..., file=o) *)
| EvClose (h : nat)
| EvPopen (command : list pyval) (xargs : list string)
          (out err : option nat) (status : Z).

Record state : Type := mkState {
  cwd : string;                    (* os.getcwd() *)
  rv : Z;                          (* ctx.rv *)
  trace : list event;
  handles : list nat;              (* file handles that are open *)
  next_handle : nat;
  launches : nat;                  (* Java processes started so far *)
  cmd : CommandArguments
}.

Inductive result (A : Type) : Type :=
| Ok (a : A)
| Raise (e : exn).

Arguments Ok {A} a.
Arguments Raise {A} e.

(** A computation runs on the state and ends with a value or with an
    exception; what it did before the exception stays done. *)
Definition M (A : Type) : Type := state -> result A * state.

Definition ret {A} (a : A) : M A := fun s => (Ok a, s).

Definition bind {A B} (m : M A) (k : A -> M B) : M B :=
  fun s =>
    match m s with
    | (Ok a, s1) => k a s1
    | (Raise e, s1) => (Raise e, s1)
    end.

Definition raise {A} (e : exn) : M A := fun s => (Raise e, s).

Notation "x <- c ;; k" := (bind c (fun x => k))
  (at level 61, c at next level, right associativity).
Notation "c ;;; k" := (bind c (fun _ => k))
  (at level 61, right associativity).

(** [try: m finally: f] *)
Definition finally {A} (m : M A) (f : M unit) : M A :=
  fun s =>
    match m s with
    | (r, s1) =>
        match f s1 with
        | (Ok _, s2) => (r, s2)
        | (Raise e, s2) => (Raise e, s2)
        end
    end.

Definition when (b : bool) (m : M unit) : M unit := if b then m else ret tt.

Fixpoint for_each {A} (l : list A) (body : A -> M unit) : M unit :=
  match l with
  | [] => ret tt
  | x :: t => body x ;;; for_each t body
  end.

Definition get : M state := fun s => (Ok s, s).

Definition emit (e : event) : M unit :=
  fun s => (Ok tt, mkState (cwd s) (rv s) (trace s ++ [e]) (handles s)
                           (next_handle s) (launches s) (cmd s)).

Definition set_rv (z : Z) : M unit :=
  fun s => (Ok tt, mkState (cwd s) z (trace s) (handles s)
                           (next_handle s) (launches s) (cmd s)).

(** [os.chdir] *)
Definition chdir (d : string) : M unit :=
  fun s => (Ok tt, mkState d (rv s) (trace s ++ [EvChdir d]) (handles s)
                           (next_handle s) (launches s) (cmd s)).

Definition get_cmd : M CommandArguments := fun s => (Ok (cmd s), s).

Definition put_cmd (c : CommandArguments) : M unit :=
  fun s => (Ok tt, mkState (cwd s) (rv s) (trace s) (handles s)
                           (next_handle s) (launches s) c).

(** Modelled from the spec: [ctx.out] and [ctx.err] of the CLI context, which
    write a line to the orchestrator's own output and error streams. *)
Definition ctx_out (text : string) : M unit := emit (EvOut text).
Definition ctx_err (text : string) : M unit := emit (EvErr text).

(** Modelled from the spec: [ctx.die] of the CLI context: a fatal error
    prints its message and ends the run with its code. *)
Definition die {A} (code : Z) (msg : string) : M A :=
  ctx_err msg ;;; set_rv code ;;; raise (Die code msg).

(** ** [CommandArguments] *)

Definition py_keys : list string :=
  ["javahelp"; "skip"; "file"; "errs"; "logback";
   "port"; "password"; "group"; "create"; "func";
   "bulk"; "prog"; "user"; "key"; "path"; "logprefix";
   "JAVA_DEBUG"; "quiet"; "server"; "depth"; "clientdir";
   "fetch_jars";
   "sudo"].

Definition mem (k : string) (l : list string) : bool :=
  existsb (String.eqb k) l.

(** The four argument lists of an instance, by reference. *)
Inductive arglist : Type :=
| JavaInitial | JavaAdditional | PyInitial | PyAdditional.

Definition get_list (w : arglist) (c : CommandArguments) : list string :=
  match w with
  | JavaInitial => java_initial c
  | JavaAdditional => java_additional c
  | PyInitial => py_initial c
  | PyAdditional => py_additional c
  end.

Definition set_list (w : arglist) (l : list string) (c : CommandArguments)
  : CommandArguments :=
  match w with
  | JavaInitial =>
      mkCA (ca_args c) (ca_accepts c) (ca_added c) l (java_additional c)
           (py_initial c) (py_additional c) (attrs c)
  | JavaAdditional =>
      mkCA (ca_args c) (ca_accepts c) (ca_added c) (java_initial c) l
           (py_initial c) (py_additional c) (attrs c)
  | PyInitial =>
      mkCA (ca_args c) (ca_accepts c) (ca_added c) (java_initial c)
           (java_additional c) l (py_additional c) (attrs c)
  | PyAdditional =>
      mkCA (ca_args c) (ca_accepts c) (ca_added c) (java_initial c)
           (java_additional c) (py_initial c) l (attrs c)
  end.

Definition set_attrs (a : dict pyval) (c : CommandArguments)
  : CommandArguments :=
  mkCA (ca_args c) (ca_accepts c) (ca_added c) (java_initial c)
       (java_additional c) (py_initial c) (py_additional c) a.

Definition set_added (a : dict nat) (c : CommandArguments)
  : CommandArguments :=
  mkCA (ca_args c) (ca_accepts c) a (java_initial c)
       (java_additional c) (py_initial c) (py_additional c) (attrs c).

Definition set_accepts (a : list string) (c : CommandArguments)
  : CommandArguments :=
  mkCA (ca_args c) a (ca_added c) (java_initial c)
       (java_additional c) (py_initial c) (py_additional c) (attrs c).

(** [setattr(self, key, val)] *)
Definition setattr (key : string) (val : pyval) : M unit :=
  c <- get_cmd ;; put_cmd (set_attrs (dict_set key val (attrs c)) c).

(** [getattr(self, key)] *)
Definition getattr (key : string) : M pyval :=
  c <- get_cmd ;;
  match dict_get key (attrs c) with
  | Some v => ret v
  | None => raise AttributeError
  end.

(** [getattr(args, key)] *)
Definition args_attr (args : dict pyval) (key : string) : M pyval :=
  match dict_get key args with
  | Some v => ret v
  | None => raise AttributeError
  end.

Definition build_arg_list (key : string) (val : pyval) : list string :=
  if Nat.eqb (String.length key) 1 then
    [("-" ++ key)%string] ++
    (if negb (is_no_arg val) then
       match val with
       | PStr s => [s]
       | _ => []
       end
     else [])
  else
    let key := Str.replace_char "_" "-" key in
    if is_no_arg val then [("--" ++ key)%string]
    else
      match val with
      | PStr s => [("--" ++ key ++ "=" ++ s)%string]
      | _ => [("--" ++ key)%string]
      end.

Definition append_arg (cmd_list : arglist) (key : string) (val : pyval)
  : M unit :=
  let arg_list := build_arg_list key val in
  c <- get_cmd ;;
  put_cmd (set_list cmd_list (get_list cmd_list c ++ arg_list) c).

(** [l[i:j] = x] *)
Definition slice_assign {A} (l : list A) (i j : nat) (x : list A) : list A :=
  firstn i l ++ x ++ skipn (Nat.max i j) l.

Definition reset_arg (cmd_list : arglist) (idx : nat) (key : string)
  (val : pyval) : M unit :=
  let arg_list := build_arg_list key val in
  c <- get_cmd ;;
  put_cmd (set_list cmd_list
             (slice_assign (get_list cmd_list c) idx
                (idx + List.length arg_list) arg_list) c).

Definition set_path (path : pyval) : M unit :=
  match path with
  | PList _ => setattr "path" path
  | _ => die 202 "Path is not a list"
  end.

Definition extend_with (rv : list pyval) (v : pyval) : M (list pyval) :=
  match py_iter v with
  | Some l => ret (rv ++ l)
  | None => raise TypeError
  end.

Definition java_args (E : Env) : M (list pyval) :=
  c <- get_cmd ;;
  let rv := List.map PStr (java_initial c) in
  let rv := rv ++ List.map PStr (java_additional c) in
  path <- getattr "path" ;;
  rv <- extend_with rv path ;;
  dbg <- getattr "JAVA_DEBUG" ;;
  if truthy dbg then ret (rv ++ [PStr ("--debug=" ++ py_str E dbg)%string])
  else ret rv.

Definition initial_args : M (list pyval) :=
  c <- get_cmd ;;
  ret (List.map PStr (py_initial c) ++ List.map PStr (java_initial c)).

Definition added_args : M (list pyval) :=
  c <- get_cmd ;;
  let rv := List.map PStr (py_additional c) in
  let rv := rv ++ List.map PStr (java_additional c) in
  path <- getattr "path" ;;
  extend_with rv path.

Definition accepts (c : CommandArguments) (key : string) : bool :=
  mem key (ca_accepts c).

Definition add (key : string) (val : pyval) : M unit :=
  c <- get_cmd ;;
  let idx := dict_get key (ca_added c) in
  where_ <-
    (if mem key py_keys then
       setattr key val ;;; ret PyAdditional
     else if negb (accepts c key) then
       die 200 ("Unknown argument: " ++ key)%string
     else ret JavaAdditional) ;;
  match idx with
  | None =>
      c <- get_cmd ;;
      let idx := List.length (get_list where_ c) in
      append_arg where_ key val ;;;
      c <- get_cmd ;;
      put_cmd (set_added (dict_set key idx (ca_added c)) c)
  | Some idx => reset_arg where_ idx key val
  end.

Definition java_initial_append (flag : string) : M unit :=
  c <- get_cmd ;;
  put_cmd (set_list JavaInitial (java_initial c ++ [flag]) c).

Definition set_login_arguments (E : Env) (args : dict pyval) : M unit :=
  javahelp <- args_attr args "javahelp" ;;
  when (truthy javahelp) (java_initial_append "-h") ;;;
  c <- get_cmd ;;
  connection_required <-
    (if negb (mem "-h" (java_initial c)) then
       f <- args_attr args "f" ;;
       if negb (truthy f) then
         advanced_help <- args_attr args "advanced_help" ;;
         ret (negb (truthy advanced_help))
       else ret false
     else ret false) ;;
  if (connection_required : bool) then
    match conn E with
    | Some (host, port, session) =>
        java_initial_append "-s" ;;; java_initial_append host ;;;
        java_initial_append "-p" ;;; java_initial_append port ;;;
        java_initial_append "-k" ;;; java_initial_append session
    | None => raise IOError
    end
  else ret tt.

Definition set_skip_values (skip : pyval) : M unit :=
  let test (name : string) : M bool :=
    match py_contains "all" skip with
    | None => raise TypeError
    | Some true => ret true
    | Some false =>
        match py_contains name skip with
        | None => raise TypeError
        | Some b => ret b
        end
    end in
  b <- test "checksum" ;;
  when b (java_initial_append "--checksum-algorithm=File-Size-64") ;;;
  b <- test "thumbnails" ;;
  when b (java_initial_append "--no-thumbnails") ;;;
  b <- test "minmax" ;;
  when b (java_initial_append "--no-stats-info") ;;;
  b <- test "upgrade" ;;
  when b (java_initial_append "--no-upgrade-check").

Definition set_skip_arguments (args : dict pyval) : M unit :=
  skip <- args_attr args "skip" ;;
  if negb (truthy skip) then ret tt
  else set_skip_values skip.

(** The loop of [__init__] over [vars(args)]. *)
Definition init_key (args : dict pyval) (key : string) : M unit :=
  c <- get_cmd ;;
  put_cmd (set_accepts (ca_accepts c ++ [key]) c) ;;;
  val <- args_attr args key ;;
  if mem key py_keys then
    setattr key val ;;;
    append_arg PyInitial key val
  else if negb (truthy val) then
    ret tt
  else
    append_arg JavaInitial key val.

(** [CommandArguments(ctx, args)] *)
Definition new_CommandArguments (E : Env) (args : dict pyval) : M unit :=
  put_cmd (mkCA args [] [] [] [] [] [] []) ;;;
  set_login_arguments E args ;;;
  set_skip_arguments args ;;;
  for_each (dict_keys args) (init_key args).

(** ** Files *)

(** [open(file, mode)] for writing *)
Definition open_file (E : Env) (file mode : string) : M nat :=
  fun s =>
    if can_write E file then
      let h := next_handle s in
      (Ok h, mkState (cwd s) (rv s) (trace s ++ [EvOpen h file mode])
                     (handles s ++ [h]) (S h) (launches s) (cmd s))
    else (Raise IOError, s).

(** [f.close()] *)
Definition close_file (h : nat) : M unit :=
  fun s =>
    (Ok tt, mkState (cwd s) (rv s) (trace s ++ [EvClose h])
                    (filter (fun h' => negb (Nat.eqb h h')) (handles s))
                    (next_handle s) (launches s) (cmd s)).

Definition print_file (h : nat) (text : string) : M unit :=
  emit (EvPrint h text).

Definition expect_str (v : pyval) : M string :=
  match v with
  | PStr s => ret s
  | _ => raise TypeError
  end.

(** [os.path.sep] is taken to be the slash; [os.makedirs] and [open] are
    one step, [can_write]. *)
Definition open_log (E : Env) (file prefix : pyval) (mode : string)
  : M (option nat) :=
  if negb (truthy file) then ret None
  else
    file <-
      (if truthy prefix then
         prefix <- expect_str prefix ;;
         file <- expect_str file ;;
         ret (prefix ++ "/" ++ file)%string
       else expect_str file) ;;
    s <- get ;;
    let file := abspath E (cwd s) file in
    h <- open_file E file mode ;;
    ret (Some h).

Definition open_files (E : Env) (mode : string)
  : M (option nat * option nat) :=
  c <- get_cmd ;;
  file <- args_attr (ca_args c) "file" ;;
  logprefix <- args_attr (ca_args c) "logprefix" ;;
  out <- open_log E file logprefix mode ;;
  errs <- args_attr (ca_args c) "errs" ;;
  logprefix <- args_attr (ca_args c) "logprefix" ;;
  err <- open_log E errs logprefix mode ;;
  ret (out, err).

(** ** [ImportControl] *)

Definition START_CLASS : string :=
  "ome.formats.importer.cli.CommandLineImporter".

Definition COMMAND : list string := [START_CLASS].

(** [omero.java.popen(...)] followed by [p.wait()] *)
Definition java_popen (E : Env) (command : list pyval) (xargs : list string)
  (out err : option nat) : M Z :=
  fun s =>
    match popen E (launches s) command xargs with
    | Some status =>
        (Ok status,
         mkState (cwd s) (rv s)
                 (trace s ++ [EvPopen command xargs out err status])
                 (handles s) (next_handle s) (S (launches s)) (cmd s))
    | None => (Raise IOError, s)
    end.

Definition close_opt (h : option nat) : M unit :=
  match h with
  | Some h => close_file h
  | None => ret tt
  end.

(** [out] and [err] are bound only once [open_files] has returned: when it
    raises, the [finally] block still sees both as [None]. *)
Definition do_import (E : Env) (xargs : list string) (mode : string)
  : M unit :=
  fun s =>
    match (a <- java_args E ;;
           let import_command := List.map PStr COMMAND ++ a in
           oe <- open_files E mode ;;
           ret (import_command, oe)) s with
    | (Raise e, s1) => (Raise e, s1)
    | (Ok (import_command, (out, err)), s1) =>
        finally
          (status <- java_popen E import_command xargs out err ;;
           set_rv status)
          (close_opt out ;;; close_opt err) s1
    end.

(** One parsed line: the row, or [None] when [shlex.split] raises its
    [ValueError] once the loop reaches the line. *)
Definition row : Type := option (list pyval).

Definition read_file (E : Env) (path : string) : M (list string) :=
  s <- get ;;
  match read_lines E (abspath E (cwd s) path) with
  | Some lines => ret lines
  | None => raise IOError
  end.

Definition parse_text (E : Env) (parse : bool) (path : string)
  : M (list row) :=
  o <- read_file E path ;;
  ret (List.map
         (fun line =>
            let line := Str.strip line in
            if parse then
              match shlex_split E line with
              | Some line => Some [PList (List.map PStr line)]
              | None => None
              end
            else Some [PStr line])
         o).

Definition parse_shlex (E : Env) (path : string) : M (list row) :=
  parse_text E true path.

Definition parse_csv (E : Env) (delimiter : string) (path : string)
  : M (list row) :=
  data <- read_file E path ;;
  ret (List.map (fun line => Some (List.map PStr line))
         (csv_reader E delimiter data)).

Definition parse_tsv (E : Env) (path : string) : M (list row) :=
  parse_csv E (String (ascii_of_nat 9) EmptyString) path.

(** [command_args.add(col, v)] for a column name that came out of YAML: a
    list cannot be a dictionary key, another scalar is not a known key. *)
Definition add_col (E : Env) (col : pyval) (v : pyval) : M unit :=
  match col with
  | PStr key => add key v
  | PList _ => raise TypeError
  | _ => die 200 ("Unknown argument: " ++ py_str E col)%string
  end.

Fixpoint apply_cols (E : Env) (idx : nat) (cols : list pyval)
  (parts : list pyval) : M unit :=
  match cols with
  | [] => ret tt
  | col :: rest =>
      (if eq_str "path" col then
         match nth_error parts idx with
         | Some p => set_path (PList [p])
         | None => raise IndexError
         end
       else
         match nth_error parts idx with
         | Some p => add_col E col p
         | None => raise IndexError
         end) ;;;
      apply_cols E (S idx) rest parts
  end.

(** The part of [parse_bulk] between two [yield]s. *)
Definition apply_row (E : Env) (cols : pyval) (cont : bool) (r : row)
  : M bool :=
  match r with
  | None => raise ValueError
  | Some parts =>
      (if negb (truthy cols) then set_path (PList parts)
       else
         match py_iter cols with
         | Some l => apply_cols E 0 l parts
         | None => raise TypeError
         end) ;;;
      ret cont
  end.

(** The row parser [parse_bulk] picks. *)
Definition select_parser (E : Env) (cols : pyval) (path : pyval)
  : M (string -> M (list row)) :=
  if negb (truthy cols) then ret (parse_text E false)
  else
    match path with
    | PStr p =>
        if Str.endswith p ".tsv" then ret (parse_tsv E)
        else if Str.endswith p ".csv" then ret (parse_csv E ",")
        else ret (parse_shlex E)
    | _ => raise AttributeError
    end.

Definition pop_default (k : string) (bulk : dict pyval) : pyval :=
  match dict_get k bulk with
  | Some v => v
  | None => PNone
  end.

(** The [dry_run] block of [parse_bulk]. *)
Definition bulk_dry_run (E : Env) (bulk : dict pyval) : M (dict pyval) :=
  setattr "dry_run" (PBool false) ;;;
  if dict_has "dry_run" bulk then
    let dry_run := py_str E (pop_default "dry_run" bulk) in
    when (negb (String.eqb (Str.lower dry_run) "false"))
         (setattr "dry_run" (PStr dry_run)) ;;;
    ret (dict_pop "dry_run" bulk)
  else ret bulk.

(** The [continue] block of [parse_bulk]: [cont] and the remaining keys. *)
Definition bulk_continue (bulk : dict pyval) : M (bool * dict pyval) :=
  if dict_has "continue" bulk then
    let c := pop_default "continue" bulk in
    when (truthy c) (add "c" NO_ARG) ;;;
    ret (true, dict_pop "continue" bulk)
  else ret (false, bulk).

(** The [skip] block of [parse_bulk]. *)
Definition bulk_skip (bulk : dict pyval) : M (dict pyval) :=
  if dict_has "skip" bulk then
    set_skip_values (pop_default "skip" bulk) ;;;
    ret (dict_pop "skip" bulk)
  else ret bulk.

(** The rest of [parse_bulk]: the other keys, then the rows.  A generator
    is the list of its resumptions: each applies one row to [command_args]
    and yields [cont]. *)
Definition bulk_rows (E : Env) (cont : bool) (bulk : dict pyval)
  : M (list (M bool)) :=
  bulk <- bulk_skip bulk ;;
  when (negb (dict_has "path" bulk)) (die 107 "No path specified") ;;;
  let path := pop_default "path" bulk in
  let bulk := dict_pop "path" bulk in
  let cols := if dict_has "columns" bulk then pop_default "columns" bulk
              else PNone in
  let bulk := dict_pop "columns" bulk in
  let bulk := dict_pop "include" bulk in
  for_each bulk (fun kv => add (fst kv) (snd kv)) ;;;
  function <- select_parser E cols path ;;
  path <- expect_str path ;;
  rows <- function path ;;
  ret (List.map (apply_row E cols cont) rows).

Definition parse_bulk (E : Env) (bulk : dict pyval) : M (list (M bool)) :=
  bulk <- bulk_dry_run E bulk ;;
  cb <- bulk_continue bulk ;;
  let cont := fst cb in
  bulk_rows E cont (snd cb).

(** ["template" % n] for an integer [n], for templates made of plain text,
    [%%] and the conversions [%s], [%d], [%i] and [%r]. *)
Fixpoint py_format_int (template : string) (n : Z) (used : bool)
  : result string :=
  match template with
  | EmptyString => if used then Ok EmptyString else Raise TypeError
  | String "%" (String c rest) =>
      if Ascii.eqb c "%" then
        match py_format_int rest n used with
        | Ok t => Ok (String "%" t)
        | Raise e => Raise e
        end
      else if Ascii.eqb c "s" || Ascii.eqb c "d" || Ascii.eqb c "i"
              || Ascii.eqb c "r" then
        if used then Raise TypeError
        else
          match py_format_int rest n true with
          | Ok t => Ok (Str.of_Z n ++ t)%string
          | Raise e => Raise e
          end
      else Raise Unmodelled
  | String "%" EmptyString => Raise ValueError
  | String c rest =>
      match py_format_int rest n used with
      | Ok t => Ok (String c t)
      | Raise e => Raise e
      end
  end.

Definition lift_result {A} (r : result A) : M A :=
  match r with
  | Ok a => ret a
  | Raise e => raise e
  end.

(** The local counters of the loop in [bulk_import]. *)
Record counters : Type := mkCounters {
  incr : nat;
  failed : nat;
  total : Z
}.

Definition quote (E : Env) (x : pyval) : string :=
  (String (ascii_of_nat 34) (py_str E x)
   ++ String (ascii_of_nat 34) EmptyString)%string.

(** The text of the row in a dry run: every added argument in quotes. *)
Definition dry_run_text (E : Env) (a : list pyval) : string :=
  Str.join " " (List.map (quote E) a).

(** The body of [if command_args.dry_run:]. *)
Definition row_dry_run (E : Env) (dry_run : pyval) (incr : nat) : M unit :=
  a <- added_args ;;
  let rv := dry_run_text E a in
  d <- match dry_run with
       | PStr d => ret d
       | _ => raise AttributeError
       end ;;
  if String.eqb (Str.lower d) "true" then ctx_out rv
  else
    name <- lift_result (py_format_int d (Z.of_nat incr) false) ;;
    o <- open_file E name "w" ;;
    print_file o (argv0 E ++ " import " ++ rv
                  ++ String (ascii_of_nat 10) EmptyString)%string ;;;
    close_file o.

(** The first half of a turn of the loop in [bulk_import]: the dry run or
    the import of the row. *)
Definition row_action (E : Env) (xargs : list string) (incr : nat)
  : M unit :=
  dry_run <- getattr "dry_run" ;;
  if truthy dry_run then row_dry_run E dry_run incr
  else
    let mode := if Nat.eqb incr 1 then "w" else "a" in
    do_import E xargs mode.

(** The second half: what the loop does with [ctx.rv]. *)
Definition row_account (cont : bool) (l : counters) (incr : nat)
  : M counters :=
  s <- get ;;
  ft <-
    (if negb (Z.eqb (rv s) 0) then
       let failed := S (failed l) in
       let total := (total l + rv s)%Z in
       (if cont then
          ctx_err ("Import failed with error code: " ++ Str.of_Z (rv s)
                   ++ ". Continuing")%string
        else
          die 106 "Import failed. Use -c to continue after errors") ;;;
       ret (failed, total)
     else ret (failed l, total l)) ;;
  set_rv (snd ft) ;;;
  when (negb (Nat.eqb (fst ft) 0))
       (ctx_err (Str.hex_of_nat (fst ft) ++ " failed imports")%string) ;;;
  ret (mkCounters incr (fst ft) (snd ft)).

(** One turn of the loop in [bulk_import], after the generator has yielded
    [cont]. *)
Definition bulk_row (E : Env) (xargs : list string) (cont : bool)
  (l : counters) : M counters :=
  let incr := S (incr l) in
  row_action E xargs incr ;;;
  row_account cont l incr.

Fixpoint bulk_loop (E : Env) (xargs : list string) (gen : list (M bool))
  (l : counters) : M counters :=
  match gen with
  | [] => ret l
  | next :: gen =>
      cont <- next ;;
      l <- bulk_row E xargs cont l ;;
      bulk_loop E xargs gen l
  end.

(** The [while bulkfile:] loop; [fuel] bounds the length of the chain. *)
Fixpoint load_contents (E : Env) (fuel : nat) (bulkfile : pyval)
  (contents : list (string * string * dict pyval))
  : M (list (string * string * dict pyval)) :=
  if negb (truthy bulkfile) then ret contents
  else
    match fuel with
    | O => raise Diverges
    | S fuel =>
        bulkfile <- expect_str bulkfile ;;
        s <- get ;;
        let bulkfile := abspath E (cwd s) bulkfile in
        let parent := dirname E bulkfile in
        match read_yaml E bulkfile with
        | NoFile => raise IOError
        | NotMapping => raise AttributeError
        | Mapping data =>
            let contents := contents ++ [(bulkfile, parent, data)] in
            let bulkfile := pop_default "include" data in
            chdir parent ;;;
            load_contents E fuel bulkfile contents
        end
    end.

(** [bulk = dict()] and the loop over [reversed(contents)] *)
Fixpoint merge_loop (l : list (string * string * dict pyval))
  (bulk : dict pyval) : M (dict pyval) :=
  match l with
  | [] => ret bulk
  | (_, parent, data) :: l =>
      let bulk := dict_update bulk data in
      chdir parent ;;;
      merge_loop l bulk
  end.

Definition merge_contents (contents : list (string * string * dict pyval))
  : M (dict pyval) :=
  merge_loop (List.rev contents) [].

(** The loader: the include chain from [command_args.bulk], merged. *)
Definition load_bulk (E : Env) (fuel : nat) : M (dict pyval) :=
  bulkfile <- getattr "bulk" ;;
  contents <- load_contents E fuel bulkfile [] ;;
  merge_contents contents.

Definition bulk_run (E : Env) (fuel : nat) (xargs : list string)
  : M counters :=
  when (negb (has_yaml E)) (die 105 "ERROR: PyYAML is not installed") ;;;
  s <- get ;;
  let old_pwd := cwd s in
  finally
    (bulk <- load_bulk E fuel ;;
     gen <- parse_bulk E bulk ;;
     bulk_loop E xargs gen (mkCounters 0 0 0%Z))
    (chdir old_pwd).

Definition bulk_import (E : Env) (fuel : nat) (xargs : list string)
  : M unit :=
  bulk_run E fuel xargs ;;; ret tt.

(** ** Notions the specification uses *)

(** The value of [k] in the descriptor of the chain that is closest to the
    root (the chain starts with the root). *)
Fixpoint lookup_chain (k : string)
  (contents : list (string * string * dict pyval)) : option pyval :=
  match contents with
  | [] => None
  | (_, _, data) :: rest =>
      match dict_get k data with
      | Some v => Some v
      | None => lookup_chain k rest
      end
  end.

(** The skip shortcuts and their flags, in the order of the expansion. *)
Definition skip_table : list (string * string) :=
  [("checksum", "--checksum-algorithm=File-Size-64");
   ("thumbnails", "--no-thumbnails");
   ("minmax", "--no-stats-info");
   ("upgrade", "--no-upgrade-check")].

(** One flag for each shortcut that is named or implied by [all]. *)
Definition expand_skip (names : list string) : list string :=
  List.map snd
    (filter (fun e => mem "all" names || mem (fst e) names) skip_table).

(** The argument vectors of the launches of a trace, in order. *)
Fixpoint commands (tr : list event) : list (list pyval) :=
  match tr with
  | [] => []
  | EvPopen command _ _ _ _ :: tr => command :: commands tr
  | _ :: tr => commands tr
  end.



(** Launches and error-stream lines of a trace. *)
Inductive obs : Type :=
| Status (z : Z)
| Logged (text : string).

Fixpoint observe (tr : list event) : list obs :=
  match tr with
  | [] => []
  | EvPopen _ _ _ _ status :: tr => Status status :: observe tr
  | EvErr text :: tr => Logged text :: observe tr
  | _ :: tr => observe tr
  end.

Fixpoint obs_statuses (l : list obs) : list Z :=
  match l with
  | [] => []
  | Status z :: l => z :: obs_statuses l
  | Logged _ :: l => obs_statuses l
  end.

(** The exit statuses of the launches of a trace, in order. *)
Definition statuses (tr : list event) : list Z := obs_statuses (observe tr).

Definition nonzero (z : Z) : bool := negb (Z.eqb z 0).

Definition count_failed (sts : list Z) : nat :=
  List.length (filter nonzero sts).

Definition status_sum (sts : list Z) : Z := fold_right Z.add 0%Z sts.

Definition continuing_msg (z : Z) : string :=
  ("Import failed with error code: " ++ Str.of_Z z ++ ". Continuing")%string.

Definition failed_msg (n : nat) : string :=
  (Str.hex_of_nat n ++ " failed imports")%string.

(** What a continue-on-error run shows for the given statuses, when
    [failed] rows had failed before: every launch, the line for each
    failure, and the count after every row once a row has failed. *)
Fixpoint continue_log (failed : nat) (sts : list Z) : list obs :=
  match sts with
  | [] => []
  | z :: sts =>
      if nonzero z then
        Status z :: Logged (continuing_msg z) :: Logged (failed_msg (S failed))
          :: continue_log (S failed) sts
      else
        Status z ::
          (if Nat.eqb failed 0 then [] else [Logged (failed_msg failed)])
          ++ continue_log failed sts
  end.

(** ** Specifications of computations *)

(** [post] holds of the outcome of [m] run from [s]. *)
Definition satisfies {A} (m : M A) (s : state)
  (post : result A -> state -> Prop) : Prop :=
  post (fst (m s)) (snd (m s)).

(** What a step that only configures the arguments may do, started in [s]:
    it launches nothing, opens nothing, writes at most lines on the error
    stream, keeps the working directory and the [dry_run] attribute; when
    it returns it has written nothing and [ctx.rv] is what it was, and when
    it raises, the exception is not the fatal code 106 of a failed import. *)
Definition config_post (s : state) {A} (r : result A) (s' : state) : Prop :=
  (exists logs, trace s' = trace s ++ List.map EvErr logs) /\
  launches s' = launches s /\
  handles s' = handles s /\
  cwd s' = cwd s /\
  dict_get "dry_run" (attrs (cmd s')) = dict_get "dry_run" (attrs (cmd s)) /\
  match r with
  | Ok _ => trace s' = trace s /\ rv s' = rv s
  | Raise e => forall msg, e <> Die 106 msg
  end.

Definition config {A} (m : M A) : Prop :=
  forall s, satisfies m s (config_post s).

(** What reading the state and handling files may do, started in [s]:
    nothing that [observe] shows, no launch, no change of the arguments, of
    [ctx.rv] or of the working directory, and no [ctx.die]. *)
Definition io_post (s : state) {A} (r : result A) (s' : state) : Prop :=
  cmd s' = cmd s /\
  cwd s' = cwd s /\
  rv s' = rv s /\
  launches s' = launches s /\
  observe (trace s') = observe (trace s) /\
  match r with
  | Ok _ => True
  | Raise e => forall code msg, e <> Die code msg
  end.

Definition io {A} (m : M A) : Prop :=
  forall s, satisfies m s (io_post s).

(** What [do_import] may do, started in [s]: when it returns, exactly one
    process was launched and [ctx.rv] is its exit status; when it raises,
    none was, and the exception is not a [ctx.die]. *)
Definition import_post (s : state) (r : result unit) (s' : state) : Prop :=
  cmd s' = cmd s /\
  cwd s' = cwd s /\
  match r with
  | Ok _ =>
      exists z, observe (trace s') = observe (trace s) ++ [Status z] /\
                rv s' = z /\ launches s' = S (launches s)
  | Raise e =>
      observe (trace s') = observe (trace s) /\
      launches s' = launches s /\
      forall code msg, e <> Die code msg
  end.

(** The run is not a dry run: [command_args.dry_run] is false or empty. *)
Definition dry_run_off (s : state) : Prop :=
  exists v, dict_get "dry_run" (attrs (cmd s)) = Some v /\ truthy v = false.


Definition die_msg : string :=
  "Import failed. Use -c to continue after errors".

(** What [row_account] does with the status [ctx.rv] of the row. *)
Definition account_post (cont : bool) (l : counters) (i : nat) (s : state)
  (r : result counters) (s' : state) : Prop :=
  cmd s' = cmd s /\ launches s' = launches s /\ cwd s' = cwd s /\
  if Z.eqb (rv s) 0 then
    r = Ok (mkCounters i (failed l) (total l)) /\
    rv s' = total l /\
    trace s' = trace s ++
      (if Nat.eqb (failed l) 0 then [] else [EvErr (failed_msg (failed l))])
  else if cont then
    r = Ok (mkCounters i (S (failed l)) (total l + rv s)%Z) /\
    rv s' = (total l + rv s)%Z /\
    trace s' = trace s ++
      [EvErr (continuing_msg (rv s)); EvErr (failed_msg (S (failed l)))]
  else
    r = Raise (Die 106 die_msg) /\
    rv s' = 106%Z /\
    trace s' = trace s ++ [EvErr die_msg].


(** One turn of the loop when [continue] was declared and the run is not a
    dry run. *)
Definition row_continue_post (l : counters) (s : state)
  (r : result counters) (s' : state) : Prop :=
  cmd s' = cmd s /\ cwd s' = cwd s /\
  match r with
  | Ok l' =>
      exists z,
        observe (trace s') =
          observe (trace s) ++ continue_log (failed l) [z] /\
        l' = mkCounters (S (incr l)) (failed l + count_failed [z])
                        (total l + status_sum [z])%Z /\
        rv s' = total l'
  | Raise e =>
      observe (trace s') = observe (trace s) /\
      forall code msg, e <> Die code msg
  end.

(** One turn of the loop when [continue] was not declared, no row has
    failed so far and the run is not a dry run. *)
Definition row_fatal_post (l : counters) (s : state)
  (r : result counters) (s' : state) : Prop :=
  cmd s' = cmd s /\ cwd s' = cwd s /\
  match r with
  | Ok l' =>
      observe (trace s') = observe (trace s) ++ [Status 0%Z] /\
      l' = mkCounters (S (incr l)) 0 (total l) /\
      rv s' = total l
  | Raise e =>
      (observe (trace s') = observe (trace s) /\
       forall code msg, e <> Die code msg) \/
      (exists z,
          z <> 0%Z /\ e = Die 106 die_msg /\ rv s' = 106%Z /\
          observe (trace s') =
            observe (trace s) ++ [Status z; Logged die_msg])
  end.

(** The loop over [n] rows when [continue] was declared, outside a dry run:
    it never ends with the fatal code 106; the launches made and the lines
    logged are those of [continue_log], followed only by the lines of an
    error in a row's configuration; and when it returns, every row was
    launched and the counters hold the number of failures and the sum of
    the statuses. *)
Definition loop_continue_post (n : nat) (l : counters) (s : state)
  (r : result counters) (s' : state) : Prop :=
  (forall msg, r <> Raise (Die 106 msg)) /\
  exists sts logs,
    observe (trace s') =
      observe (trace s) ++ continue_log (failed l) sts
      ++ List.map Logged logs /\
    List.length sts <= n /\
    match r with
    | Ok l' =>
        List.length sts = n /\ logs = [] /\
        l' = mkCounters (incr l + n) (failed l + count_failed sts)
                        (total l + status_sum sts)%Z /\
        (n <> 0 -> rv s' = total l') /\
        (n = 0 -> rv s' = rv s)
    | Raise _ => True
    end.

(** The loop over [n] rows when [continue] was not declared, outside a dry
    run: some rows exit with status 0, and then either the loop is over, or
    a row's configuration raised, or a row exits with another status, which
    is the last thing launched and ends the run with code 106. *)
Definition loop_fatal_post (n : nat) (l : counters) (s : state)
  (r : result counters) (s' : state) : Prop :=
  exists k,
    k <= n /\
    ((exists logs,
         observe (trace s') =
           observe (trace s) ++ List.map Status (repeat 0%Z k)
           ++ List.map Logged logs /\
         (forall msg, r <> Raise (Die 106 msg)) /\
         match r with
         | Ok l' =>
             k = n /\ logs = [] /\
             l' = mkCounters (incr l + n) 0 (total l)
         | Raise _ => True
         end) \/
     (exists z,
         z <> 0%Z /\ k < n /\
         r = Raise (Die 106 die_msg) /\ rv s' = 106%Z /\
         observe (trace s') =
           observe (trace s) ++ List.map Status (repeat 0%Z k)
           ++ [Status z; Logged die_msg])).



(** The value [parse_bulk] gives to [command_args.dry_run]. *)
Definition dry_run_setting (E : Env) (bulk : dict pyval) : pyval :=
  match dict_get "dry_run" bulk with
  | Some v =>
      if String.eqb (Str.lower (py_str E v)) "false" then PBool false
      else PStr (py_str E v)
  | None => PBool false
  end.

(** What [parse_bulk] has done when it hands over its generator: the
    resumptions apply the rows with [cont] true exactly when the descriptor
    has the key [continue], [command_args.dry_run] is set, and nothing was
    launched or written. *)
Definition parse_bulk_post (E : Env) (bulk : dict pyval) (s : state)
  (r : result (list (M bool))) (s' : state) : Prop :=
  match r with
  | Ok gen =>
      (exists cols rows,
          gen = List.map (apply_row E cols (dict_has "continue" bulk)) rows) /\
      dict_get "dry_run" (attrs (cmd s')) = Some (dry_run_setting E bulk) /\
      trace s' = trace s /\ launches s' = launches s /\ rv s' = rv s /\
      cwd s' = cwd s
  | Raise _ => True
  end.

(** The include chain that starts at [bulkfile], seen from the working
    directory [dir]: each file is read from the directory of the one that
    includes it, and the chain ends at a file without an [include]. *)
Inductive include_chain (E : Env)
  : string -> pyval -> list (string * string * dict pyval) -> Prop :=
| chain_end (dir : string) (bulkfile : pyval) :
    truthy bulkfile = false ->
    include_chain E dir bulkfile []
| chain_step (dir f : string) (data : dict pyval)
    (rest : list (string * string * dict pyval)) :
    f <> EmptyString ->
    read_yaml E (abspath E dir f) = Mapping data ->
    include_chain E (dirname E (abspath E dir f))
      (pop_default "include" data) rest ->
    include_chain E dir (PStr f)
      ((abspath E dir f, dirname E (abspath E dir f), data) :: rest).

(** ** Views of an instance *)

(** The tokens the entries of [d] render to, entry after entry. *)
Definition render (d : dict pyval) : list string :=
  flat_map (fun kv => build_arg_list (fst kv) (snd kv)) d.

(** Where the rendition of [k] starts in [render d]. *)
Fixpoint offset (k : string) (d : dict pyval) : option nat :=
  match d with
  | [] => None
  | (k', v) :: t =>
      if String.eqb k k' then Some 0
      else option_map (Nat.add (List.length (build_arg_list k' v)))
                      (offset k t)
  end.

(** [__java_additional] holds the Java options [d], one rendition after the
    other, and [__added] knows where each of them starts. *)
Definition java_view (d : dict pyval) (c : CommandArguments) : Prop :=
  Forall (fun kv => mem (fst kv) py_keys = false) d /\
  java_additional c = render d /\
  forall k, mem k py_keys = false -> dict_get k (ca_added c) = offset k d.

(** What [add] of a Java key leaves alone. *)
Definition java_frame (s s' : state) : Prop :=
  cwd s' = cwd s /\ rv s' = rv s /\ trace s' = trace s /\
  handles s' = handles s /\ next_handle s' = next_handle s /\
  launches s' = launches s /\
  ca_args (cmd s') = ca_args (cmd s) /\
  ca_accepts (cmd s') = ca_accepts (cmd s) /\
  java_initial (cmd s') = java_initial (cmd s) /\
  py_initial (cmd s') = py_initial (cmd s) /\
  py_additional (cmd s') = py_additional (cmd s) /\
  attrs (cmd s') = attrs (cmd s).

(** ** Views of a fresh instance *)

Definition SKIP_CHOICES : list string :=
  ["all"; "checksum"; "minmax"; "thumbnails"; "upgrade"].

(** What the constructor's loop over [vars(args)] appends for one key: a
    Python key goes to [__py_initial], another key to [__java_initial]
    when its value is true. *)
Definition init_java (args : dict pyval) (key : string) : list string :=
  if mem key py_keys then []
  else
    match dict_get key args with
    | Some v => if truthy v then build_arg_list key v else []
    | None => []
    end.

Definition init_py (args : dict pyval) (key : string) : list string :=
  if mem key py_keys then
    match dict_get key args with
    | Some v => build_arg_list key v
    | None => []
    end
  else [].

(** The attributes the loop places on the instance. *)
Definition init_attrs (args : dict pyval) (keys : list string)
  (a : dict pyval) : dict pyval :=
  fold_left
    (fun a key =>
       if mem key py_keys then
         match dict_get key args with
         | Some v => dict_set key v a
         | None => a
         end
       else a)
    keys a.

(** The state outside the [CommandArguments] instance is the same. *)
Definition same_world (s s' : state) : Prop :=
  cwd s' = cwd s /\ rv s' = rv s /\ trace s' = trace s /\
  handles s' = handles s /\ next_handle s' = next_handle s /\
  launches s' = launches s.

(** The connection flags of [set_login_arguments]; [None] when the
    connection is needed and fails. *)
Definition login_flags (E : Env) (javahelp f advanced_help : pyval)
  : option (list string) :=
  if truthy javahelp then Some ["-h"]
  else if truthy f || truthy advanced_help then Some []
  else
    match conn E with
    | Some (host, port, session) =>
        Some ["-s"; host; "-p"; port; "-k"; session]
    | None => None
    end.

(** The flags of [set_skip_arguments]: nothing for a false value, else one
    flag for each shortcut that [skip] holds or that [all] implies, in the
    order of the code; [None] when [skip] is no collection. *)
Definition skip_flags (skip : pyval) : option (list string) :=
  if truthy skip then
    match py_contains "all" skip with
    | Some all =>
        Some (List.map snd
                (filter
                   (fun e =>
                      all || match py_contains (fst e) skip with
                             | Some b => b
                             | None => false
                             end)
                   skip_table))
    | None => None
    end
  else Some [].

(** ** Views of a descriptor *)

(** The keys [parse_bulk] takes out of the descriptor before it hands the
    others to [add]. *)
Definition RESERVED : list string :=
  ["dry_run"; "continue"; "skip"; "path"; "columns"; "include"].

(** The entries [parse_bulk] hands to [add], in the order of the
    descriptor. *)
Definition forwarded (bulk : dict pyval) : dict pyval :=
  filter (fun kv => negb (mem (fst kv) RESERVED)) bulk.

(** The entries that go to [__java_additional]. *)
Definition java_entries (d : dict pyval) : dict pyval :=
  filter (fun kv => negb (mem (fst kv) py_keys)) d.

(** What [continue] adds to the Java options: [-c] when its value is
    true. *)
Definition continue_entry (bulk : dict pyval) : dict pyval :=
  if truthy (pop_default "continue" bulk) then [("c", NO_ARG)] else [].

(** The descriptor after the [pop]s of [parse_bulk]. *)
Definition popped (bulk : dict pyval) : dict pyval :=
  dict_pop "include"
    (dict_pop "columns"
       (dict_pop "path"
          (dict_pop "skip"
             (dict_pop "continue" (dict_pop "dry_run" bulk))))).

(** The end of [parse_bulk]: the parser is chosen and the file of rows is
    read. *)
Definition read_rows (E : Env) (cols path : pyval) (cont : bool)
  : M (list (M bool)) :=
  function <- select_parser E cols path ;;
  path <- expect_str path ;;
  rows <- function path ;;
  ret (List.map (apply_row E cols cont) rows).

(** ** Views of the include chain *)

(** One turn of the [while bulkfile:] loop, on the working directory and
    the name of the next descriptor: the directory and the name the turn
    leaves, or [None] when the loop ends or the turn raises. *)
Definition include_step (E : Env) (c : string * pyval)
  : option (string * pyval) :=
  if negb (truthy (snd c)) then None
  else
    match snd c with
    | PStr f =>
        match read_yaml E (abspath E (fst c) f) with
        | Mapping data =>
            Some (dirname E (abspath E (fst c) f),
                  pop_default "include" data)
        | _ => None
        end
    | _ => None
    end.

Fixpoint include_steps (E : Env) (n : nat) (c : string * pyval)
  : option (string * pyval) :=
  match n with
  | O => Some c
  | S n =>
      match include_step E c with
      | Some c' => include_steps E n c'
      | None => None
      end
  end.

(** ** Views of the log files *)

(** The modes in which a trace opens its files, in order. *)
Fixpoint modes (tr : list event) : list string :=
  match tr with
  | [] => []
  | EvOpen _ _ mode :: tr => mode :: modes tr
  | _ :: tr => modes tr
  end.

(** The modes in which a trace opens its files, each with the number of
    launches of the trace that come before it, counted from [n]. *)
Fixpoint timed_modes (n : nat) (tr : list event) : list (nat * string) :=
  match tr with
  | [] => []
  | EvPopen _ _ _ _ _ :: tr => timed_modes (S n) tr
  | EvOpen _ _ mode :: tr => (n, mode) :: timed_modes n tr
  | _ :: tr => timed_modes n tr
  end.

(** [m] adds events to the trace; it launches nothing, and whatever it
    opens, it opens in the mode [mode]. *)
Definition opens_only (mode : string) {A} (m : M A) : Prop :=
  forall s,
    exists new,
      trace (snd (m s)) = trace s ++ new /\
      commands new = [] /\
      Forall (eq mode) (modes new).

(** ** The jars of the importer *)

Definition OMERO_JAVA_ZIP (version : string) : string :=
  ("https://downloads.openmicroscopy.org/omero/" ++ version
   ++ "/OMERO.java.zip")%string.

(** One member of a zip archive: [filename] and [is_dir()]. *)
Definition zip_entry : Type := (string * bool)%type.

(** What the importer sees of the installation, of the file system and of
    the network.  The file system is a value of [fs]; the operations that
    change it give the new one, or the exception they raise. *)
Record Jars (fs : Type) : Type := {
  (** [self.ctx.dir] *)
  ctx_dir : string;
  (** [get_omero_user_cache_dir()] *)
  user_cache_dir : string;
  (** [a / b] on [path] objects *)
  path_join : string -> string -> string;
  (** [path(v)] *)
  as_path : pyval -> string;
  (** [p.exists()] *)
  path_exists : fs -> string -> bool;
  (** [[f.abspath() for f in p.files("*.jar")]] *)
  jar_files : fs -> string -> list string;
  (** [p.text()] *)
  read_text : fs -> string -> result string;
  (** [p.makedirs_p()] *)
  makedirs_p : fs -> string -> result fs;
  (** [requests.get(url)] and [ZipFile(BytesIO(resp.content)).filelist] *)
  fetch_zip : string -> result (list zip_entry);
  (** [zipfile.extractall(p)] *)
  extractall : fs -> list zip_entry -> string -> result fs;
  (** [p.write_text(text)] *)
  write_text : fs -> string -> string -> result fs;
  (** [str] of a set of strings *)
  show_set : list string -> string
}.

Arguments ctx_dir {fs} _.
Arguments user_cache_dir {fs} _.
Arguments path_join {fs} _ _ _.
Arguments as_path {fs} _ _.
Arguments path_exists {fs} _ _ _.
Arguments jar_files {fs} _ _ _.
Arguments read_text {fs} _ _ _.
Arguments makedirs_p {fs} _ _ _.
Arguments fetch_zip {fs} _ _.
Arguments extractall {fs} _ _ _ _.
Arguments write_text {fs} _ _ _ _.
Arguments show_set {fs} _ _.

(** [_userdir_jars]: the directory of the downloaded jars, if any, and
    the file that names it. *)
Definition userdir_jars {fs} (J : Jars fs) (f : fs) (parentonly : bool)
  : result (option string * string) :=
  let user_jars := path_join J (user_cache_dir J) "jars" in
  let omero_java_txt := path_join J user_jars "OMERO.java.txt" in
  if parentonly then Ok (Some user_jars, omero_java_txt)
  else if path_exists J f omero_java_txt then
    match read_text J f omero_java_txt with
    | Ok t =>
        let omero_java_dir := Str.strip t in
        Ok (Some (path_join J (path_join J user_jars omero_java_dir) "libs"),
            omero_java_txt)
    | Raise e => Raise e
    end
  else Ok (None, omero_java_txt).

(** [bool(client_dir)] for a [path] or [None] *)
Definition path_truthy (p : option string) : bool :=
  match p with
  | Some d => negb (String.eqb d EmptyString)
  | None => false
  end.

(** [_get_classpath_logback].  [omero_java_txt] is bound only when
    [auto_download] is set, and a class path that is not empty comes from a
    [client_dir] that is not [None]: the two [Unmodelled] cases stand for
    combinations that cannot occur. *)
Definition get_classpath_logback {fs} (J : Jars fs) (f : fs)
  (args : dict pyval) : M (list string * string) :=
  let lib_client := path_join J (path_join J (ctx_dir J) "lib") "client" in
  clientdir <- args_attr args "clientdir" ;;
  found <-
    (if truthy clientdir then ret (false, Some (as_path J clientdir), None)
     else if path_exists J f lib_client then
       ret (false, Some lib_client, None)
     else
       u <- lift_result (userdir_jars J f false) ;;
       ret (true, fst u, Some (snd u))) ;;
  let auto_download : bool := fst (fst found) in
  let client_dir : option string := snd (fst found) in
  let omero_java_txt : option string := snd found in
  let etc_dir := path_join J (ctx_dir J) "etc" in
  logback <- args_attr args "logback" ;;
  let xml_file := if truthy logback then as_path J logback
                  else path_join J etc_dir "logback-cli.xml" in
  let classpath :=
    match client_dir with
    | Some d =>
        if path_truthy client_dir && path_exists J f d then jar_files J f d
        else []
    | None => []
    end in
  xml_file <-
    (if auto_download then
       match classpath with
       | [] => ret xml_file
       | _ =>
           match omero_java_txt, client_dir with
           | Some txt, Some d =>
               t <- lift_result (read_text J f txt) ;;
               ctx_err ("Using " ++ t)%string ;;;
               logback <- args_attr args "logback" ;;
               if negb (truthy logback) then
                 ret (path_join J d "logback-cli.xml")
               else ret xml_file
           | _, _ => raise Unmodelled
           end
       end
     else
       match classpath with
       | [] =>
           match client_dir with
           | Some d =>
               die 103 ("No JAR files found under '" ++ d ++ "'")%string
           | None => raise Unmodelled
           end
       | _ => ret xml_file
       end) ;;
  let logback := ("-Dlogback.configurationFile=" ++ xml_file)%string in
  ret (classpath, logback).

(** [\w] on ASCII *)
Definition is_word (c : ascii) : bool :=
  let n := nat_of_ascii c in
  (Nat.leb 48 n && Nat.leb n 57) || (Nat.leb 65 n && Nat.leb n 90)
  || (Nat.leb 97 n && Nat.leb n 122) || Nat.eqb n 95.

Fixpoint skip_word (s : string) : string :=
  match s with
  | EmptyString => EmptyString
  | String c t => if is_word c then skip_word t else s
  end.

(** [re.match("^\w+://", s)] *)
Definition has_scheme (s : string) : bool :=
  match s with
  | EmptyString => false
  | String c _ => is_word c && prefix "://" (skip_word s)
  end.

(** [filename.split(os.path.sep)[0]], with the slash for [os.path.sep] *)
Fixpoint first_component (s : string) : string :=
  match s with
  | EmptyString => EmptyString
  | String c t =>
      if Ascii.eqb c "/" then EmptyString else String c (first_component t)
  end.

(** [os.path.isabs] of [posixpath] *)
Definition isabs (p : string) : bool := prefix "/" p.

(** The set of the first components of the directories of an archive. *)
Definition topdirs (entries : list zip_entry) : list string :=
  nodup string_dec
    (List.map (fun e => first_component (fst e)) (filter snd entries)).

(** [download_omero_java] *)
Definition download_omero_java {fs} (J : Jars fs) (version_or_uri : pyval)
  (f : fs) : M fs :=
  v <- expect_str version_or_uri ;;
  let omero_java_zip := if has_scheme v then v else OMERO_JAVA_ZIP v in
  ctx_err ("Downloading " ++ omero_java_zip)%string ;;;
  u <- lift_result (userdir_jars J f true) ;;
  match u with
  | (Some jars_dir, omero_java_txt) =>
      f <- lift_result (makedirs_p J f jars_dir) ;;
      entries <- lift_result (fetch_zip J omero_java_zip) ;;
      match topdirs entries with
      | [topdir] =>
          when (isabs topdir)
               (die 108 ("Unexpected absolute paths in OMERO.java.zip: "
                         ++ topdir)%string) ;;;
          f <- lift_result (extractall J f entries jars_dir) ;;
          lift_result (write_text J f omero_java_txt topdir)
      | dirs =>
          die 108 ("Expected one top directory in OMERO.java.zip: "
                   ++ show_set J dirs)%string
      end
  | (None, _) => raise AttributeError
  end.

(** [importer]; [os.pathsep] is taken to be the colon. *)
Definition importer {fs} (J : Jars fs) (E : Env) (fuel : nat)
  (args : dict pyval) (f : fs) : M fs :=
  fetch_jars <- args_attr args "fetch_jars" ;;
  if truthy fetch_jars then
    path <- args_attr args "path" ;;
    when (truthy path) (ctx_err "WARNING: Ignoring extra arguments") ;;;
    download_omero_java J fetch_jars f
  else
    cl <- get_classpath_logback J f args ;;
    r <-
      (match fst cl with
       | [] =>
           f <- download_omero_java J (PStr "latest") f ;;
           cl <- get_classpath_logback J f args ;;
           ret (cl, f)
       | _ => ret (cl, f)
       end) ;;
    let classpath := fst (fst r) in
    let logback := snd (fst r) in
    let f := snd r in
    new_CommandArguments E args ;;;
    depth <- args_attr args "depth" ;;
    let xargs :=
      [logback; "-Xmx1024M"; "-cp"; Str.join ":" classpath]
      ++ [("-Domero.import.depth=" ++ py_str E depth)%string] in
    bulk <- args_attr args "bulk" ;;
    (if truthy bulk then
       path <- args_attr args "path" ;;
       if truthy path then die 104 "When using bulk import, omit paths"
       else bulk_import E fuel xargs
     else do_import E xargs "w") ;;;
    ret f.

(** What looking for the jars and downloading them may do, started in
    [s]: write lines on the error stream and set [ctx.rv] by [ctx.die];
    the instance, the working directory, the open files and the launches
    stay as they are. *)
Definition silent_post (s s' : state) : Prop :=
  cmd s' = cmd s /\ cwd s' = cwd s /\ handles s' = handles s /\
  next_handle s' = next_handle s /\ launches s' = launches s /\
  exists logs, trace s' = trace s ++ List.map EvErr logs.

Definition silent {A} (m : M A) : Prop :=
  forall s, silent_post s (snd (m s)).

(** ** The points of polygons and polylines ([omero/util/ROI_utils.py]) *)

(** [s.split(sep)] for a one-character [sep]: [cur] is the piece being
    read. *)
Fixpoint py_split (sep : ascii) (cur s : string) : list string :=
  match s with
  | EmptyString => [cur]
  | String c t =>
      if Ascii.eqb c sep then cur :: py_split sep EmptyString t
      else py_split sep (cur ++ String c EmptyString)%string t
  end.

(** The blanks [int] skips around a number. *)
Definition is_blank (c : ascii) : bool :=
  let n := nat_of_ascii c in
  (Nat.leb 9 n && Nat.leb n 13) || Nat.eqb n 32.

Fixpoint lskip (s : string) : string :=
  match s with
  | EmptyString => EmptyString
  | String c t => if is_blank c then lskip t else s
  end.

Fixpoint rskip (s : string) : string :=
  match s with
  | EmptyString => EmptyString
  | String c t =>
      match rskip t with
      | EmptyString => if is_blank c then EmptyString
                       else String c EmptyString
      | t' => String c t'
      end
  end.

(** [int(s)] for a string: blanks around, a sign, decimal digits; [None]
    is [ValueError]. *)
Definition py_int (s : string) : option Z :=
  match rskip (lskip s) with
  | String "+" digits =>
      option_map Z.of_uint (DecimalString.NilZero.uint_of_string digits)
  | t => option_map Z.of_int (DecimalString.NilZero.int_of_string t)
  end.

(** The loop of [stringToTupleList] over [range(0, numTokens/2)]. *)
Fixpoint tuple_loop (tokens : list string) (range : list nat)
  (elements : list (Z * Z)) : result (list (Z * Z)) :=
  match range with
  | [] => Ok elements
  | tokenPair :: range =>
      match nth_error tokens (tokenPair * 2) with
      | None => Raise IndexError
      | Some a =>
          match py_int a with
          | None => Raise ValueError
          | Some x =>
              match nth_error tokens (tokenPair * 2 + 1) with
              | None => Raise IndexError
              | Some b =>
                  match py_int b with
                  | None => Raise ValueError
                  | Some y =>
                      tuple_loop tokens range (elements ++ [(x, y)])
                  end
              end
          end
      end
  end.

(** [numTokens/2] is written without [from __future__ import division]:
    under Python 2 it is the floor of the quotient; under Python 3
    ([true_division]) it is a [float], which [range] refuses. *)
Definition tuple_list (true_division : bool) (pointString : string)
  : result (list (Z * Z)) :=
  let elements := [] in
  let list := py_split "," EmptyString pointString in
  let numTokens := List.length list in
  if true_division then Raise TypeError
  else tuple_loop list (seq 0 (Nat.div numTokens 2)) elements.

Module PolygonData.

Fixpoint listToString_loop (E : Env) (pointsList : list pyval)
  (string : String.string) (cnt : nat) : String.string :=
  match pointsList with
  | [] => string
  | element :: pointsList =>
      let string := if negb (Nat.eqb cnt 0) then (string ++ ",")%string
                    else string in
      let cnt := cnt + 1 in
      let string := (string ++ py_str E element)%string in
      listToString_loop E pointsList string cnt
  end.

Definition listToString (E : Env) (pointsList : list pyval) : string :=
  listToString_loop E pointsList EmptyString 0.

Definition stringToTupleList := tuple_list.

End PolygonData.

Module PolylineData.

Fixpoint listToString_loop (E : Env) (pointsList : list pyval)
  (string : String.string) (cnt : nat) : String.string :=
  match pointsList with
  | [] => string
  | element :: pointsList =>
      let string := if Nat.ltb 0 cnt then (string ++ ",")%string
                    else string in
      let string := (string ++ py_str E element)%string in
      let cnt := cnt + 1 in
      listToString_loop E pointsList string cnt
  end.

Definition listToString (E : Env) (pointsList : list pyval) : string :=
  listToString_loop E pointsList EmptyString 0.

Definition stringToTupleList := tuple_list.

End PolylineData.

(** The points of a flat list of coordinates; a last coordinate without a
    partner is dropped. *)
Fixpoint pairs (l : list Z) : list (Z * Z) :=
  match l with
  | x :: y :: l => (x, y) :: pairs l
  | _ => []
  end.

(** What follows the first element in the text of a list of points. *)
Fixpoint tail_text (E : Env) (l : list pyval) : string :=
  match l with
  | [] => EmptyString
  | e :: l => ("," ++ py_str E e ++ tail_text E l)%string
  end.

(** The characters of the decimal text of an integer. *)
Definition num_char (c : ascii) : bool :=
  let n := nat_of_ascii c in
  (Nat.leb 48 n && Nat.leb n 57) || Nat.eqb n 45.

Fixpoint num_text (s : string) : bool :=
  match s with
  | EmptyString => true
  | String c t => num_char c && num_text t
  end.

(** ** A small concrete world, used to run the model *)

Module Demo.

Definition starts_with_slash (p : string) : bool := prefix "/" p.

Definition join_cwd (cwd p : string) : string :=
  if starts_with_slash p then p else (cwd ++ "/" ++ p)%string.

(** Drops the last component of a path. *)
Fixpoint dirname_aux (acc seen : string) (p : string) : string :=
  match p with
  | EmptyString => acc
  | String c t =>
      if Ascii.eqb c "/" then dirname_aux seen (seen ++ "/")%string t
      else dirname_aux acc (seen ++ String c EmptyString)%string t
  end.

Definition parent_of (p : string) : string := dirname_aux EmptyString EmptyString p.

(** Splits at every occurrence of [d]; no quoting. *)
Fixpoint split_on (d : ascii) (cur : string) (s : string) : list string :=
  match s with
  | EmptyString => [cur]
  | String c t =>
      if Ascii.eqb c d then cur :: split_on d EmptyString t
      else split_on d (cur ++ String c EmptyString)%string t
  end.

Definition nl : string := String (ascii_of_nat 10) EmptyString.

Definition chomp (line : string) : string :=
  Str.rev (match Str.rev line with
           | String c t => if Ascii.eqb c (ascii_of_nat 10) then t
                           else String c t
           | EmptyString => EmptyString
           end).

Definition split_lines (delimiter : string) (lines : list string)
  : list (list string) :=
  match delimiter with
  | String d EmptyString =>
      List.map (fun l => split_on d EmptyString (chomp l)) lines
  | _ => []
  end.

Definition split_blank (line : string) : option (list string) :=
  Some (filter (fun t => negb (String.eqb t EmptyString))
               (split_on " " EmptyString line)).

(** A world with the given YAML files, row files, unwritable files and
    exit statuses of the successive launches. *)
Definition env (yamls : dict (dict pyval)) (texts : dict (list string))
  (unwritable : list string) (statuses : list Z) : Env :=
  {| repr_other := fun _ => "<object>";
     abspath := join_cwd;
     dirname := parent_of;
     read_yaml := fun f => match dict_get f yamls with
                           | Some d => Mapping d
                           | None => NoFile
                           end;
     read_lines := fun f => dict_get f texts;
     shlex_split := split_blank;
     csv_reader := split_lines;
     can_write := fun f => negb (mem f unwritable);
     popen := fun n _ _ => Some (nth n statuses 0%Z);
     conn := Some ("localhost", "4064", "session-uuid");
     argv0 := "omero";
     has_yaml := true |}.

(** What [argparse] hands over for [omero import --bulk bulk.yml]. *)
Definition namespace (bulk : pyval) : dict pyval :=
  [("javahelp", PBool false); ("bulk", bulk); ("logprefix", PNone);
   ("file", PNone); ("errs", PNone); ("clientdir", PNone);
   ("logback", PNone); ("fetch_jars", PNone);
   ("name", PNone); ("description", PNone);
   ("f", PBool false); ("c", PBool false); ("d", PNone); ("r", PNone);
   ("target", PNone); ("JAVA_DEBUG", PNone); ("output", PNone);
   ("advanced_help", PBool false); ("transfer", PNone);
   ("depth", PInt 4); ("skip", PNone); ("path", PList [])].

Definition start (cwd : string) : state :=
  mkState cwd 0%Z [] [] 0 0 (mkCA [] [] [] [] [] [] [] []).

(** [importer] for a bulk run: build the arguments, then [bulk_import]. *)
Definition run (E : Env) (args : dict pyval) (cwd : string)
  : result counters * state :=
  (new_CommandArguments E args ;;; bulk_run E 8 ["-Xmx1024M"])
    (start cwd).

(** Two descriptors chained by [include]. *)
Definition yaml_A : dict pyval := [("x", PInt 1); ("include", PStr "B.yml")].
Definition yaml_B : dict pyval := [("x", PInt 2); ("y", PInt 3)].

Definition env_AB : Env :=
  env [("/w/A.yml", yaml_A); ("/w/B.yml", yaml_B)] [] [] [].

(** A chain of three: R includes M, M includes D, all three give [x]. *)
Definition yaml_R : dict pyval := [("x", PInt 1); ("include", PStr "M.yml")].
Definition yaml_M : dict pyval := [("x", PInt 2); ("include", PStr "D.yml")].
Definition yaml_D : dict pyval := [("x", PInt 3)].

Definition env_RMD : Env :=
  env [("/w/R.yml", yaml_R); ("/w/M.yml", yaml_M); ("/w/D.yml", yaml_D)]
      [] [] [].

Definition after_init (E : Env) (args : dict pyval) : state :=
  snd (new_CommandArguments E args (start "/w")).

(** A numeric default for [-d], a name, and a [d] column.  *)
Definition yaml_d : dict pyval :=
  [("path", PStr "rows.tsv");
   ("columns", PList [PStr "d"; PStr "path"]);
   ("d", PInt 51);
   ("name", PStr "x")].

Definition tab : string := String (ascii_of_nat 9) EmptyString.

Definition env_d : Env :=
  env [("/w/bulk.yml", yaml_d)]
      [("/w/rows.tsv", [("7" ++ tab ++ "img.tif" ++ nl)%string])] [] [].

(** [omero import --debug ALL ...] *)
Definition namespace_debug : dict pyval :=
  dict_set "JAVA_DEBUG" (PStr "ALL") (namespace PNone).

(** Three rows; the second import exits with status 7. *)
Definition three_rows : list string :=
  [("a.tif" ++ nl)%string; ("b.tif" ++ nl)%string; ("c.tif" ++ nl)%string].

Definition env_rows (yaml : dict pyval) : Env :=
  env [("/w/bulk.yml", yaml)] [("/w/rows.txt", three_rows)] []
      [0%Z; 7%Z; 0%Z].

Definition yaml_continue (v : pyval) : dict pyval :=
  [("path", PStr "rows.txt"); ("continue", v)].

Definition yaml_plain : dict pyval := [("path", PStr "rows.txt")].

Definition yaml_dry_run (v : pyval) : dict pyval :=
  [("path", PStr "rows.txt"); ("dry_run", v)].

Definition bulk_args : dict pyval := namespace (PStr "bulk.yml").

(** The state in which [parse_bulk] starts, and what it hands over. *)
Definition before_parse (E : Env) : state := after_init E bulk_args.

Definition generator (E : Env) (bulk : dict pyval) : list (M bool) :=
  match fst (parse_bulk E bulk (before_parse E)) with
  | Ok gen => gen
  | Raise _ => []
  end.

Definition after_parse (E : Env) (bulk : dict pyval) : state :=
  snd (parse_bulk E bulk (before_parse E)).


(** A row file whose line has blanks on both sides. *)
Definition padded_line : string := ("  img.tif " ++ nl)%string.

Definition env_padded : Env :=
  env [] [("/w/rows.txt", [padded_line])] [] [].

(** [omero import --file out.log --errs err.log img.tif], where err.log
    cannot be opened. *)
Definition namespace_logs : dict pyval :=
  dict_set "file" (PStr "out.log")
    (dict_set "errs" (PStr "err.log")
       (dict_set "path" (PList [PStr "img.tif"]) (namespace PNone))).

Definition env_logs : Env := env [] [] ["/w/err.log"] [].

(** [importer] for a plain import. *)
Definition import_run (E : Env) (args : dict pyval) (cwd : string)
  : result unit * state :=
  (new_CommandArguments E args ;;; do_import E ["-Xmx1024M"] "w")
    (start cwd).

(** A descriptor that includes itself. *)
Definition yaml_self : dict pyval :=
  [("path", PStr "rows.txt"); ("include", PStr "A.yml")].

Definition env_self : Env := env [("/w/A.yml", yaml_self)] [] [] [].

(** An installation with its jars under [lib/client]; nothing is ever
    downloaded into it. *)
Definition jars_installed : Jars unit :=
  {| ctx_dir := "/opt/omero";
     user_cache_dir := "/home/u/.cache/omero";
     path_join := fun a b => (a ++ "/" ++ b)%string;
     as_path := fun v => match v with PStr p => p | _ => "None" end;
     path_exists := fun _ p => String.eqb p "/opt/omero/lib/client";
     jar_files := fun _ p =>
       if String.eqb p "/opt/omero/lib/client"
       then ["/opt/omero/lib/client/blitz.jar"] else [];
     read_text := fun _ _ => Raise IOError;
     makedirs_p := fun f _ => Ok f;
     fetch_zip := fun _ =>
       Ok [("OMERO.java-5.6.0/", true);
           ("OMERO.java-5.6.0/libs/", true);
           ("OMERO.java-5.6.0/libs/blitz.jar", false)];
     extractall := fun f _ _ => Ok f;
     write_text := fun f _ _ => Ok f;
     show_set := fun l => ("{" ++ Str.join ", " l ++ "}")%string |}.

End Demo.

(** * Properties *)

(** Unfolds the operations of the monad. *)
Ltac unfold_m :=
  cbv beta iota zeta delta
    [bind ret raise get emit set_rv chdir get_cmd put_cmd ctx_out ctx_err
     die when getattr setattr args_attr extend_with expect_str
     lift_result].

(** ** Dictionaries *)

Section DictFacts.
Context {V : Type}.
Implicit Types (d data : dict V) (k : string) (v : V).

Lemma dict_get_set_same k v d : dict_get k (dict_set k v d) = Some v.
Proof.
  induction d as [|[k' v'] t IH]; simpl.
  - now rewrite String.eqb_refl.
  - destruct (String.eqb k k') eqn:Hk; simpl; rewrite Hk; auto.
Qed.

Lemma dict_get_set_other k k' v d :
  k <> k' -> dict_get k (dict_set k' v d) = dict_get k d.
Proof.
  intros Hne. induction d as [|[k1 v1] t IH]; simpl.
  - destruct (String.eqb_spec k k'); congruence.
  - destruct (String.eqb_spec k' k1) as [->|Hk1]; simpl.
    + destruct (String.eqb_spec k k1); congruence.
    + now rewrite IH.
Qed.

Lemma dict_get_not_key k d :
  ~ In k (dict_keys d) -> dict_get k d = None.
Proof.
  induction d as [|[k1 v1] t IH]; simpl; intros Hn; auto.
  destruct (String.eqb_spec k k1) as [->|Hk]; [tauto|].
  apply IH. tauto.
Qed.

Lemma dict_get_update k d data :
  NoDup (dict_keys data) ->
  dict_get k (dict_update d data) =
  match dict_get k data with
  | Some v => Some v
  | None => dict_get k d
  end.
Proof.
  unfold dict_update. revert d.
  induction data as [|[k1 v1] t IH]; simpl; intros d Hnd; auto.
  inversion Hnd as [|? ? Hnotin Hnd']; subst.
  rewrite IH by assumption.
  destruct (String.eqb_spec k k1) as [->|Hk].
  - rewrite (dict_get_not_key k1 t Hnotin). apply dict_get_set_same.
  - destruct (dict_get k t); auto. now apply dict_get_set_other.
Qed.

End DictFacts.

(** ** The rendering rule *)

Lemma replace_char_get (a b : ascii) (s : string) (i : nat) :
  String.get i (Str.replace_char a b s) =
  option_map (fun c => if Ascii.eqb c a then b else c) (String.get i s).
Proof.
  revert i. induction s as [|c t IH]; intros i; simpl; auto.
  destruct i; simpl; auto.
Qed.

Lemma replace_char_length (a b : ascii) (s : string) :
  String.length (Str.replace_char a b s) = String.length s.
Proof. induction s; simpl; auto. Qed.

(** C3. A one-character key renders as [-k] followed by the value when the
    value is a string, and as the bare [-k] for [NO_ARG] and for every other
    value; a longer key has each underscore replaced by a hyphen and
    renders as [--k=v] for a string value and as the bare [--k] otherwise. *)
Theorem build_arg_list_rule :
  forall (c c' : ascii) (rest : string) (val : pyval),
    let k := String c EmptyString in
    let key := String c (String c' rest) in
    let key' := Str.replace_char "_" "-" key in
    (build_arg_list k val =
       match val with
       | PStr v => [("-" ++ k)%string; v]
       | _ => [("-" ++ k)%string]
       end) /\
    build_arg_list k NO_ARG = [("-" ++ k)%string] /\
    (build_arg_list key val =
       match val with
       | PStr v => [("--" ++ key' ++ "=" ++ v)%string]
       | _ => [("--" ++ key')%string]
       end) /\
    String.length key' = String.length key /\
    (forall i, String.get i key' =
               option_map (fun x => if Ascii.eqb x "_" then "-"%char else x)
                          (String.get i key)) /\
    build_arg_list "foo_bar" (PStr "v") = ["--foo-bar=v"] /\
    build_arg_list "foo_bar" NO_ARG = ["--foo-bar"].
Proof.
  intros c c' rest val k key key'.
  repeat split.
  - destruct val; reflexivity.
  - unfold build_arg_list, key. simpl String.length.
    destruct rest; destruct val; reflexivity.
  - apply replace_char_length.
  - intros i. apply replace_char_get.
Qed.

(** ** Skip shortcuts *)

Lemma mem_In (k : string) (l : list string) : mem k l = true <-> In k l.
Proof.
  unfold mem. rewrite existsb_exists. split.
  - intros (x & Hin & Heq). apply String.eqb_eq in Heq. now subst.
  - intros Hin. exists k. split; auto. apply String.eqb_refl.
Qed.

Lemma mem_ext (l l' : list string) :
  (forall n, In n l <-> In n l') -> forall k, mem k l = mem k l'.
Proof.
  intros H k. destruct (mem k l) eqn:Hl, (mem k l') eqn:Hl'; auto.
  - apply mem_In, H, mem_In in Hl. congruence.
  - apply mem_In, H, mem_In in Hl'. congruence.
Qed.

Lemma existsb_eq_str (n : string) (names : list string) :
  existsb (eq_str n) (List.map PStr names) = mem n names.
Proof.
  unfold mem. induction names as [|x t IH]; simpl; auto. now rewrite IH.
Qed.

(** C7. For a list of shortcut names, [set_skip_values] appends to the
    initial Java arguments the flags of [expand_skip]: one fixed flag per
    shortcut that is named or implied by [all], in the order checksum,
    thumbnails, minmax, upgrade; the result depends on which names occur,
    not on their order, and [all] gives what the four names give. *)
Theorem set_skip_values_expands :
  forall (names : list string) (s : state),
    (exists s',
        set_skip_values (PList (List.map PStr names)) s = (Ok tt, s') /\
        java_initial (cmd s') = java_initial (cmd s) ++ expand_skip names /\
        java_additional (cmd s') = java_additional (cmd s) /\
        py_initial (cmd s') = py_initial (cmd s) /\
        py_additional (cmd s') = py_additional (cmd s) /\
        trace s' = trace s) /\
    (forall names',
        (forall n, In n names <-> In n names') ->
        expand_skip names' = expand_skip names) /\
    expand_skip ["all"] =
      expand_skip ["checksum"; "thumbnails"; "minmax"; "upgrade"] /\
    expand_skip ["all"] =
      ["--checksum-algorithm=File-Size-64"; "--no-thumbnails";
       "--no-stats-info"; "--no-upgrade-check"].
Proof.
  intros names s. split; [|split; [|split; reflexivity]].
  - unfold set_skip_values, py_contains, expand_skip, skip_table.
    rewrite !existsb_eq_str. simpl filter.
    destruct s as [w r t h n l c]. destruct c. simpl.
    destruct (mem "all" names), (mem "checksum" names),
      (mem "thumbnails" names), (mem "minmax" names),
      (mem "upgrade" names);
      eexists; cbn; rewrite <- ?app_assoc; cbn;
      repeat split; rewrite ?app_nil_r; reflexivity.
  - intros names' H. unfold expand_skip.
    apply f_equal. apply filter_ext. intros e.
    now rewrite !(mem_ext names names' H).
Qed.

Lemma set_skip_values_expands_witness :
  expand_skip ["upgrade"; "all"; "checksum"] =
  expand_skip ["checksum"; "upgrade"; "all"].
Proof.
  apply (proj1 (proj2 (set_skip_values_expands
                         ["checksum"; "upgrade"; "all"]
                         (Demo.start "/w")))).
  intros n. simpl. tauto.
Defined.

(** ** The include chain *)

Lemma lookup_chain_app (k : string)
  (l1 l2 : list (string * string * dict pyval)) :
  lookup_chain k (l1 ++ l2) =
  match lookup_chain k l1 with
  | Some v => Some v
  | None => lookup_chain k l2
  end.
Proof.
  induction l1 as [|[[f p] d] t IH]; simpl; auto.
  destruct (dict_get k d); auto.
Qed.

Lemma merge_loop_spec (l : list (string * string * dict pyval)) :
  Forall (fun c => NoDup (dict_keys (snd c))) l ->
  forall (bulk : dict pyval) (s : state),
  exists s',
    merge_loop l bulk s =
      (Ok (fold_left dict_update (List.map snd l) bulk), s') /\
    forall k,
      dict_get k (fold_left dict_update (List.map snd l) bulk) =
      match lookup_chain k (List.rev l) with
      | Some v => Some v
      | None => dict_get k bulk
      end.
Proof.
  induction 1 as [|[[f p] d] t Hd Ht IH]; intros bulk s.
  - exists s. split; reflexivity.
  - simpl in Hd.
    destruct (IH (dict_update bulk d)
                 (mkState p (rv s) (trace s ++ [EvChdir p]) (handles s)
                    (next_handle s) (launches s) (cmd s))) as (s' & Hrun & Hget).
    exists s'. split.
    + simpl. unfold bind, chdir. exact Hrun.
    + intros k. simpl. rewrite Hget, lookup_chain_app. simpl.
      destruct (lookup_chain k (List.rev t)); auto.
      rewrite dict_get_update by assumption.
      destruct (dict_get k d); auto.
Qed.

Lemma load_contents_chain (E : Env) (dir : string) (bulkfile : pyval)
  (contents : list (string * string * dict pyval)) :
  include_chain E dir bulkfile contents ->
  forall (fuel : nat) (acc : list (string * string * dict pyval))
         (s : state),
    cwd s = dir ->
    List.length contents <= fuel ->
    exists s',
      load_contents E fuel bulkfile acc s = (Ok (acc ++ contents), s') /\
      cmd s' = cmd s /\ rv s' = rv s /\ launches s' = launches s.
Proof.
  induction 1 as [dir v Hv|dir f data rest Hf Hread Hchain IH];
    intros fuel acc s Hcwd Hfuel.
  - exists s. rewrite app_nil_r.
    destruct fuel; simpl; rewrite Hv; auto.
  - destruct fuel as [|fuel]; [simpl in Hfuel; lia|].
    cbn [load_contents truthy].
    destruct (String.eqb_spec f EmptyString) as [|_]; [contradiction|].
    cbn [negb expect_str]. unfold bind at 1. cbn [ret].
    unfold bind at 1. cbn [get]. rewrite Hcwd, Hread.
    unfold bind at 1. cbn [chdir].
    match goal with
    | |- context [load_contents E fuel _ _ ?s1] =>
        destruct (IH fuel
                    (acc ++ [(abspath E dir f, dirname E (abspath E dir f),
                              data)]) s1 eq_refl)
          as (s' & Hrun & Hc & Hr & Hl); [simpl in Hfuel; lia|]
    end.
    exists s'. rewrite Hrun, <- app_assoc. auto.
Qed.

(** C1, as the code has it.  The merged configuration is the chain's
    mappings applied from the deepest ancestor to the root, so a key holds
    the value of the descriptor closest to the root that has it, and every
    key of the root holds the root's value; the loader returns it for every
    include chain the file system holds, given fuel for its length.  Root
    A = {x: 1, include: B} with B = {x: 2, y: 3} gives
    {x: 1, y: 3, include: B}: the merge keeps the [include] key, which
    [parse_bulk] removes afterwards. *)
Theorem bulk_merge_root_wins :
  forall (contents : list (string * string * dict pyval)) (s : state),
    Forall (fun c => NoDup (dict_keys (snd c))) contents ->
    (exists s',
        merge_contents contents s =
          (Ok (fold_left dict_update (List.map snd (List.rev contents)) []),
           s') /\
        (forall k,
            dict_get k
              (fold_left dict_update (List.map snd (List.rev contents)) []) =
            lookup_chain k contents) /\
        (forall file parent root rest k v,
            contents = (file, parent, root) :: rest ->
            dict_get k root = Some v ->
            dict_get k
              (fold_left dict_update (List.map snd (List.rev contents)) []) =
            Some v)) /\
    (forall E fuel bulkfile,
        dict_get "bulk" (attrs (cmd s)) = Some bulkfile ->
        include_chain E (cwd s) bulkfile contents ->
        List.length contents <= fuel ->
        exists s',
          load_bulk E fuel s =
            (Ok (fold_left dict_update
                   (List.map snd (List.rev contents)) []), s')) /\
    fst ((setattr "bulk" (PStr "A.yml") ;;; load_bulk Demo.env_AB 8)
           (Demo.start "/w")) =
      Ok [("x", PInt 1); ("y", PInt 3); ("include", PStr "B.yml")].
Proof.
  intros contents s Hwf. split; [|split; [|reflexivity]].
  2: { intros E fuel bulkfile Hbulk Hchain Hfuel.
       destruct (load_contents_chain E (cwd s) bulkfile contents Hchain
                   fuel [] s eq_refl Hfuel) as (s1 & Hload & _).
       assert (Hrev : Forall (fun c => NoDup (dict_keys (snd c)))
                        (List.rev contents)).
       { apply Forall_forall. intros c Hc. apply in_rev in Hc.
         revert c Hc. now apply Forall_forall. }
       destruct (merge_loop_spec (List.rev contents) Hrev [] s1)
         as (s' & Hrun & _).
       exists s'. unfold load_bulk. unfold_m. rewrite Hbulk.
       simpl in Hload. rewrite Hload. exact Hrun. }
  assert (Hrev : Forall (fun c => NoDup (dict_keys (snd c)))
                        (List.rev contents)).
  { apply Forall_forall. intros c Hc. apply in_rev in Hc.
    revert c Hc. now apply Forall_forall. }
  destruct (merge_loop_spec (List.rev contents) Hrev [] s)
    as (s' & Hrun & Hget).
  exists s'. split; [exact Hrun|].
  assert (Hall : forall k,
             dict_get k
               (fold_left dict_update (List.map snd (List.rev contents)) []) =
             lookup_chain k contents).
  { intros k. rewrite Hget, rev_involutive.
    destruct (lookup_chain k contents); reflexivity. }
  split; [exact Hall|].
  intros file parent root rest k v -> Hk.
  rewrite Hall. simpl. now rewrite Hk.
Qed.

Lemma bulk_merge_root_wins_witness :
  dict_get "x"
    (fold_left dict_update
       (List.map snd
          (List.rev [("/w/A.yml", "/w", Demo.yaml_A);
                     ("/w/B.yml", "/w", Demo.yaml_B)])) []) =
  Some (PInt 1).
Proof.
  assert (Hwf : Forall (fun c : string * string * dict pyval =>
                          NoDup (dict_keys (snd c)))
                  [("/w/A.yml", "/w", Demo.yaml_A);
                   ("/w/B.yml", "/w", Demo.yaml_B)]).
  { repeat constructor; simpl; intuition discriminate. }
  destruct (bulk_merge_root_wins
              [("/w/A.yml", "/w", Demo.yaml_A);
               ("/w/B.yml", "/w", Demo.yaml_B)]
              (Demo.start "/w") Hwf) as ((s' & _ & _ & Hroot) & _ & _).
  apply (Hroot "/w/A.yml" "/w" Demo.yaml_A
               [("/w/B.yml", "/w", Demo.yaml_B)] "x" (PInt 1));
    reflexivity.
Defined.

(** The merged configuration of the example is not {x: 1, y: 3}: it also
    maps [include] to B.  And in the chain R, M, D, where all three give
    [x], the key is in the ancestor D and in its descendant M, but the
    merged value is that of R, not that of M. *)
Lemma bulk_merge_example_keeps_include :
  (exists bulk,
      fst ((setattr "bulk" (PStr "A.yml") ;;; load_bulk Demo.env_AB 8)
             (Demo.start "/w")) = Ok bulk /\
      dict_get "include" bulk = Some (PStr "B.yml") /\
      ~ dict_equiv bulk [("x", PInt 1); ("y", PInt 3)]) /\
  (exists bulk,
      fst ((setattr "bulk" (PStr "R.yml") ;;; load_bulk Demo.env_RMD 8)
             (Demo.start "/w")) = Ok bulk /\
      dict_get "x" Demo.yaml_D = Some (PInt 3) /\
      dict_get "x" Demo.yaml_M = Some (PInt 2) /\
      dict_get "x" bulk = Some (PInt 1)).
Proof.
  split.
  - exists [("x", PInt 1); ("y", PInt 3); ("include", PStr "B.yml")].
    split; [reflexivity|]. split; [reflexivity|].
    intros H. specialize (H "include"). discriminate H.
  - exists [("x", PInt 1); ("include", PStr "M.yml")].
    repeat split.
Qed.

(** ** Adding a key again *)

(** Where [reset_arg] does replace a rendition: the new rendition has as
    many tokens as the one it overwrites. *)
Lemma slice_assign_same_width {A} (before old new after : list A) :
  List.length old = List.length new ->
  slice_assign (before ++ old ++ after) (List.length before)
    (List.length before + List.length new) new =
  before ++ new ++ after.
Proof.
  intros Hlen. unfold slice_assign.
  rewrite Nat.max_r by lia.
  rewrite firstn_app, firstn_all, Nat.sub_diag, firstn_O, app_nil_r.
  f_equal. f_equal.
  rewrite <- Hlen, app_assoc, <- length_app.
  rewrite skipn_app, skipn_all, Nat.sub_diag. reflexivity.
Qed.

(** Adding an accepted Java key again does replace its rendition in place
    when the new rendition has as many tokens as the old one. *)
Lemma add_again_same_width (key : string) (val : pyval) (s : state)
  (before old after : list string) :
  mem key py_keys = false ->
  accepts (cmd s) key = true ->
  dict_get key (ca_added (cmd s)) = Some (List.length before) ->
  java_additional (cmd s) = before ++ old ++ after ->
  List.length old = List.length (build_arg_list key val) ->
  exists s',
    add key val s = (Ok tt, s') /\
    java_additional (cmd s') = before ++ build_arg_list key val ++ after /\
    ca_added (cmd s') = ca_added (cmd s).
Proof.
  intros Hpy Hacc Hidx Hlist Hlen.
  unfold add, reset_arg. unfold_m. rewrite Hpy, Hacc, Hidx. simpl.
  eexists. split; [reflexivity|]. simpl. split; [|reflexivity].
  rewrite Hlist. now apply slice_assign_same_width.
Qed.

(** C2 fails on the code when the two renditions of a one-character key
    differ in length.  [add("d", 51)] renders the bare [-d];
    [add("name", "x")] follows; [add("d", "7")] then writes two tokens over
    the slot of [-d] and overwrites [--name=x].  In the other direction,
    [add("d", "7")] followed by [add("d", 51)] keeps the stale ["7"].  The
    same happens in a bulk run whose descriptor gives [d: 51] and
    [name: x] and whose rows carry a [d] column. *)
Theorem add_again_other_width :
  let s0 := Demo.after_init (Demo.env [] [] [] []) (Demo.namespace PNone) in
  (exists s,
      (add "d" (PInt 51) ;;; add "name" (PStr "x") ;;; add "d" (PStr "7")) s0
        = (Ok tt, s) /\
      java_additional (cmd s) = ["-d"; "7"]) /\
  (exists s,
      (add "d" (PStr "7") ;;; add "name" (PStr "x") ;;; add "d" (PInt 51)) s0
        = (Ok tt, s) /\
      java_additional (cmd s) = ["-d"; "7"; "--name=x"]) /\
  commands (trace (snd (Demo.run Demo.env_d (Demo.namespace (PStr "bulk.yml"))
                          "/w"))) =
    [List.map PStr
       [START_CLASS; "-s"; "localhost"; "-p"; "4064"; "-k"; "session-uuid";
        "-d"; "7"; "img.tif"]].
Proof.
  intros s0. split; [|split].
  - eexists. split; [vm_compute; reflexivity|reflexivity].
  - eexists. split; [vm_compute; reflexivity|reflexivity].
  - reflexivity.
Qed.

(** ** Orchestrator keys *)

(** [java_args] reads the two Java lists and the attributes [path] and
    [JAVA_DEBUG], nothing else. *)
Lemma java_args_reads (E : Env) (s1 s2 : state) :
  java_initial (cmd s1) = java_initial (cmd s2) ->
  java_additional (cmd s1) = java_additional (cmd s2) ->
  dict_get "path" (attrs (cmd s1)) = dict_get "path" (attrs (cmd s2)) ->
  dict_get "JAVA_DEBUG" (attrs (cmd s1)) =
    dict_get "JAVA_DEBUG" (attrs (cmd s2)) ->
  fst (java_args E s1) = fst (java_args E s2).
Proof.
  intros Hi Ha Hp Hd.
  unfold java_args. unfold_m. rewrite Hi, Ha, Hp.
  destruct (dict_get "path" (attrs (cmd s2))) as [p|]; [|reflexivity].
  destruct (py_iter p); [|reflexivity].
  rewrite Hd.
  destruct (dict_get "JAVA_DEBUG" (attrs (cmd s2))) as [d|]; [|reflexivity].
  destruct (truthy d); reflexivity.
Qed.

Lemma java_args_value (E : Env) (s : state) (l : list pyval) (v : pyval) :
  dict_get "path" (attrs (cmd s)) = Some (PList l) ->
  dict_get "JAVA_DEBUG" (attrs (cmd s)) = Some v ->
  java_args E s =
    (Ok (List.map PStr (java_initial (cmd s))
         ++ List.map PStr (java_additional (cmd s))
         ++ l
         ++ (if truthy v then [PStr ("--debug=" ++ py_str E v)%string]
             else [])), s).
Proof.
  intros Hp Hd.
  unfold java_args. unfold_m. rewrite Hp. simpl. rewrite Hd.
  destruct (truthy v); rewrite <- ?app_assoc, ?app_nil_r; reflexivity.
Qed.

Lemma add_py_key (key : string) (val : pyval) (s : state) :
  mem key py_keys = true ->
  exists s',
    add key val s = (Ok tt, s') /\
    attrs (cmd s') = dict_set key val (attrs (cmd s)) /\
    java_initial (cmd s') = java_initial (cmd s) /\
    java_additional (cmd s') = java_additional (cmd s) /\
    py_initial (cmd s') = py_initial (cmd s) /\
    (dict_get key (ca_added (cmd s)) = None ->
     py_additional (cmd s') = py_additional (cmd s) ++ build_arg_list key val) /\
    trace s' = trace s /\ rv s' = rv s /\ cwd s' = cwd s /\
    handles s' = handles s /\ launches s' = launches s.
Proof.
  intros Hpy. unfold add, append_arg, reset_arg. unfold_m. rewrite Hpy.
  destruct (dict_get key (ca_added (cmd s))) as [idx|] eqn:Hidx;
    eexists; (split; [reflexivity|]); simpl; repeat split; auto; discriminate.
Qed.

Lemma init_key_py_key (args : dict pyval) (key : string) (val : pyval)
  (s : state) :
  mem key py_keys = true ->
  dict_get key args = Some val ->
  exists s',
    init_key args key s = (Ok tt, s') /\
    attrs (cmd s') = dict_set key val (attrs (cmd s)) /\
    java_initial (cmd s') = java_initial (cmd s) /\
    java_additional (cmd s') = java_additional (cmd s) /\
    py_initial (cmd s') = py_initial (cmd s) ++ build_arg_list key val.
Proof.
  intros Hpy Hval. unfold init_key, append_arg. unfold_m.
  rewrite Hval, Hpy.
  eexists. split; [reflexivity|]. simpl. repeat split; auto.
Qed.

(** C8, as the code has it.  An orchestrator key set by [add] or by the loop
    of the constructor becomes an attribute of the instance that reads back
    the value, and its rendition goes to the Python-side list: the two Java
    lists stay as they are.  [java_args] is the Java lists, then the elements
    of the attribute [path], then [--debug=<JAVA_DEBUG>] when that attribute
    is set: so [add] of any orchestrator key but [path] and [JAVA_DEBUG]
    leaves the external vector unchanged, and those two reach it in these
    two forms. *)
Theorem orchestrator_key_is_attribute :
  forall (E : Env) (key : string) (val : pyval) (s : state),
    mem key py_keys = true ->
    (exists s',
        add key val s = (Ok tt, s') /\
        dict_get key (attrs (cmd s')) = Some val /\
        java_initial (cmd s') = java_initial (cmd s) /\
        java_additional (cmd s') = java_additional (cmd s) /\
        (dict_get key (ca_added (cmd s)) = None ->
         py_additional (cmd s') =
           py_additional (cmd s) ++ build_arg_list key val) /\
        (key <> "path" -> key <> "JAVA_DEBUG" ->
         fst (java_args E s') = fst (java_args E s))) /\
    (forall args,
        dict_get key args = Some val ->
        exists s',
          init_key args key s = (Ok tt, s') /\
          dict_get key (attrs (cmd s')) = Some val /\
          java_initial (cmd s') = java_initial (cmd s) /\
          java_additional (cmd s') = java_additional (cmd s) /\
          py_initial (cmd s') = py_initial (cmd s) ++ build_arg_list key val) /\
    (forall l v,
        dict_get "path" (attrs (cmd s)) = Some (PList l) ->
        dict_get "JAVA_DEBUG" (attrs (cmd s)) = Some v ->
        fst (java_args E s) =
          Ok (List.map PStr (java_initial (cmd s))
              ++ List.map PStr (java_additional (cmd s))
              ++ l
              ++ (if truthy v then [PStr ("--debug=" ++ py_str E v)%string]
                  else []))).
Proof.
  intros E key val s Hpy. split; [|split].
  - destruct (add_py_key key val s Hpy)
      as (s' & Hrun & Hattrs & Hji & Hja & _ & Hpa & _).
    exists s'. repeat split; auto.
    + rewrite Hattrs. apply dict_get_set_same.
    + intros Hpath Hdebug. apply java_args_reads; auto;
        rewrite Hattrs; apply dict_get_set_other; congruence.
  - intros args Hval.
    destruct (init_key_py_key args key val s Hpy Hval)
      as (s' & Hrun & Hattrs & Hji & Hja & Hpi).
    exists s'. repeat split; auto.
    rewrite Hattrs. apply dict_get_set_same.
  - intros l v Hp Hd. now rewrite (java_args_value E s l v Hp Hd).
Qed.

Lemma orchestrator_key_is_attribute_witness :
  exists s',
    add "file" (PStr "out.log") (Demo.after_init (Demo.env [] [] [] [])
                                   (Demo.namespace PNone)) = (Ok tt, s') /\
    dict_get "file" (attrs (cmd s')) = Some (PStr "out.log") /\
    fst (java_args (Demo.env [] [] [] []) s') =
      Ok (List.map PStr ["-s"; "localhost"; "-p"; "4064"; "-k"; "session-uuid"]).
Proof.
  destruct (orchestrator_key_is_attribute (Demo.env [] [] [] []) "file"
              (PStr "out.log")
              (Demo.after_init (Demo.env [] [] [] []) (Demo.namespace PNone))
              eq_refl) as ((s' & Hrun & Hattr & _ & _ & _ & Hsame) & _).
  exists s'. split; [exact Hrun|]. split; [exact Hattr|].
  rewrite Hsame by discriminate. reflexivity.
Defined.

(** The orchestrator key [JAVA_DEBUG], set at construction, is rendered into
    the external argument vector as [--debug=ALL]. *)
Lemma orchestrator_key_debug_is_forwarded :
  mem "JAVA_DEBUG" py_keys = true /\
  dict_get "JAVA_DEBUG"
    (attrs (cmd (Demo.after_init (Demo.env [] [] [] [])
                   Demo.namespace_debug))) = Some (PStr "ALL") /\
  fst (java_args (Demo.env [] [] [] [])
         (Demo.after_init (Demo.env [] [] [] []) Demo.namespace_debug)) =
    Ok (List.map PStr
          ["-s"; "localhost"; "-p"; "4064"; "-k"; "session-uuid";
           "--debug=ALL"]) /\
  fst (java_args (Demo.env [] [] [] [])
         (Demo.after_init (Demo.env [] [] [] []) (Demo.namespace PNone))) =
    Ok (List.map PStr
          ["-s"; "localhost"; "-p"; "4064"; "-k"; "session-uuid"]).
Proof. repeat split. Qed.

(** ** Traces *)

Lemma observe_app (a b : list event) :
  observe (a ++ b) = observe a ++ observe b.
Proof.
  induction a as [|e a IH]; simpl; auto.
  destruct e; simpl; rewrite ?IH; reflexivity.
Qed.


Lemma observe_logs (logs : list string) :
  observe (List.map EvErr logs) = List.map Logged logs.
Proof. induction logs; simpl; congruence. Qed.




(** ** Steps that only configure the arguments *)

Lemma config_post_refl {A} (s : state) (a : A) : config_post s (Ok a) s.
Proof.
  unfold config_post. repeat split; auto.
  exists []. simpl. now rewrite app_nil_r.
Qed.

Lemma config_ret {A} (a : A) : config (ret a).
Proof. intros s. apply config_post_refl. Qed.

Lemma config_bind {A B} (m : M A) (k : A -> M B) :
  config m -> (forall a, config (k a)) -> config (bind m k).
Proof.
  intros Hm Hk s. specialize (Hm s).
  unfold satisfies, bind in *.
  destruct (m s) as [[a|e] s1]; simpl in *.
  - specialize (Hk a s1). unfold satisfies in Hk.
    destruct (k a s1) as [r s2]; simpl in *.
    destruct Hm as ((l1 & Ht1) & Hl1 & Hh1 & Hc1 & Hd1 & Hok1 & Hrv1).
    destruct Hk as ((l2 & Ht2) & Hl2 & Hh2 & Hc2 & Hd2 & Hr).
    unfold config_post. repeat split; try congruence.
    + exists l2. congruence.
    + destruct r; [|exact Hr]. destruct Hr. split; congruence.
  - exact Hm.
Qed.

Lemma config_raise {A} (e : exn) :
  (forall msg, e <> Die 106 msg) -> config (@raise A e).
Proof.
  intros He s. unfold satisfies, raise, config_post; simpl.
  repeat split; auto. exists []. simpl. now rewrite app_nil_r.
Qed.

Lemma config_die {A} (code : Z) (msg : string) :
  code <> 106%Z -> config (@die A code msg).
Proof.
  intros Hc s. unfold satisfies, config_post. unfold_m. simpl.
  repeat split; auto.
  - exists [msg]. reflexivity.
  - intros m H. injection H as H _. contradiction.
Qed.

(** Replacing the [CommandArguments] by one with the same [dry_run]. *)
Lemma config_put_cmd (f : CommandArguments -> CommandArguments) :
  (forall c, dict_get "dry_run" (attrs (f c)) = dict_get "dry_run" (attrs c)) ->
  config (c <- get_cmd ;; put_cmd (f c)).
Proof.
  intros Hf s. unfold satisfies, config_post. unfold_m. simpl.
  repeat split; auto. exists []. simpl. now rewrite app_nil_r.
Qed.

Lemma config_setattr (key : string) (val : pyval) :
  key <> "dry_run" -> config (setattr key val).
Proof.
  intros Hk. unfold setattr. apply config_put_cmd.
  intros c. simpl. apply dict_get_set_other. congruence.
Qed.

Lemma config_set_path (path : pyval) : config (set_path path).
Proof.
  destruct path; simpl;
    try (apply config_die; discriminate).
  apply config_setattr. discriminate.
Qed.

Lemma py_key_not_dry_run (key : string) :
  mem key py_keys = true -> key <> "dry_run".
Proof. intros H ->. discriminate H. Qed.

Lemma config_append_arg (w : arglist) (key : string) (val : pyval) :
  config (append_arg w key val).
Proof.
  unfold append_arg. apply config_put_cmd. intros c. destruct w; reflexivity.
Qed.

Lemma config_reset_arg (w : arglist) (idx : nat) (key : string)
  (val : pyval) : config (reset_arg w idx key val).
Proof.
  unfold reset_arg. apply config_put_cmd. intros c. destruct w; reflexivity.
Qed.

Lemma config_get_cmd : config get_cmd.
Proof. intros s. apply config_post_refl. Qed.

Lemma config_add (key : string) (val : pyval) : config (add key val).
Proof.
  unfold add. apply config_bind; [apply config_get_cmd|]. intros c.
  apply config_bind.
  - destruct (mem key py_keys) eqn:Hpy.
    + apply config_bind; [|intros; apply config_ret].
      apply config_setattr. now apply py_key_not_dry_run.
    + destruct (negb (accepts c key)).
      * apply config_die. discriminate.
      * apply config_ret.
  - intros w. destruct (dict_get key (ca_added c)).
    + apply config_reset_arg.
    + apply config_bind; [apply config_get_cmd|]. intros c1.
      apply config_bind; [apply config_append_arg|]. intros _.
      apply config_put_cmd. reflexivity.
Qed.

Lemma config_add_col (E : Env) (col v : pyval) : config (add_col E col v).
Proof.
  destruct col; simpl;
    try (apply config_die; discriminate);
    try (apply config_raise; discriminate).
  apply config_add.
Qed.

Lemma config_apply_cols (E : Env) (cols parts : list pyval) :
  forall idx, config (apply_cols E idx cols parts).
Proof.
  induction cols as [|col rest IH]; intros idx; cbn [apply_cols].
  - apply config_ret.
  - apply config_bind; [|intros; apply IH].
    destruct (eq_str "path" col), (nth_error parts idx);
      try (apply config_raise; discriminate).
    + apply config_set_path.
    + apply config_add_col.
Qed.

Lemma config_apply_row (E : Env) (cols : pyval) (cont : bool) (r : row) :
  config (apply_row E cols cont r).
Proof.
  destruct r as [parts|]; cbn [apply_row].
  - apply config_bind; [|intros; apply config_ret].
    destruct (negb (truthy cols)).
    + apply config_set_path.
    + destruct (py_iter cols).
      * apply config_apply_cols.
      * apply config_raise. discriminate.
  - apply config_raise. discriminate.
Qed.

Lemma config_for_each {A} (l : list A) (body : A -> M unit) :
  (forall x, config (body x)) -> config (for_each l body).
Proof.
  intros Hb. induction l as [|x t IH]; simpl.
  - apply config_ret.
  - apply config_bind; auto.
Qed.

Lemma config_when (b : bool) (m : M unit) : config m -> config (when b m).
Proof. destruct b; simpl; auto. intros _. apply config_ret. Qed.

Lemma config_java_initial_append (flag : string) :
  config (java_initial_append flag).
Proof. unfold java_initial_append. apply config_put_cmd. reflexivity. Qed.

Lemma config_set_skip_values (skip : pyval) : config (set_skip_values skip).
Proof.
  assert (Ht : forall name,
             config
               (match py_contains "all" skip with
                | None => raise TypeError
                | Some true => ret true
                | Some false =>
                    match py_contains name skip with
                    | None => raise TypeError
                    | Some b => ret b
                    end
                end)).
  { intros name. destruct (py_contains "all" skip) as [[|]|].
    - apply config_ret.
    - destruct (py_contains name skip).
      + apply config_ret.
      + apply config_raise. discriminate.
    - apply config_raise. discriminate. }
  unfold set_skip_values. cbv zeta.
  repeat (apply config_bind;
          [first [apply Ht
                 |apply config_when; apply config_java_initial_append]
          |intros ?]).
  all: apply config_when; apply config_java_initial_append.
Qed.

(** ** Reading the state and handling files *)

Lemma io_post_refl {A} (s : state) (a : A) : io_post s (Ok a) s.
Proof. unfold io_post. repeat split; auto. Qed.

Lemma io_ret {A} (a : A) : io (ret a).
Proof. intros s. apply io_post_refl. Qed.

Lemma io_raise {A} (e : exn) :
  (forall code msg, e <> Die code msg) -> io (@raise A e).
Proof. intros He s. unfold satisfies, io_post; simpl. repeat split; auto. Qed.

Lemma io_bind {A B} (m : M A) (k : A -> M B) :
  io m -> (forall a, io (k a)) -> io (bind m k).
Proof.
  intros Hm Hk s. specialize (Hm s).
  unfold satisfies, bind in *.
  destruct (m s) as [[a|e] s1]; simpl in *; [|exact Hm].
  specialize (Hk a s1). unfold satisfies in Hk.
  destruct (k a s1) as [r s2]; simpl in *.
  destruct Hm as (H1 & H2 & H3 & H4 & H5 & _).
  destruct Hk as (K1 & K2 & K3 & K4 & K5 & K6).
  unfold io_post. repeat split; try congruence; exact K6.
Qed.

Lemma io_get : io get.
Proof. intros s. apply io_post_refl. Qed.

Lemma io_get_cmd : io get_cmd.
Proof. intros s. apply io_post_refl. Qed.

Lemma io_getattr (key : string) : io (getattr key).
Proof.
  unfold getattr. apply io_bind; [apply io_get_cmd|]. intros c.
  destruct (dict_get key (attrs c)); [apply io_ret|].
  apply io_raise. discriminate.
Qed.

Lemma io_args_attr (args : dict pyval) (key : string) :
  io (args_attr args key).
Proof.
  unfold args_attr. destruct (dict_get key args); [apply io_ret|].
  apply io_raise. discriminate.
Qed.

Lemma io_expect_str (v : pyval) : io (expect_str v).
Proof.
  destruct v; simpl; try (apply io_raise; discriminate). apply io_ret.
Qed.

Lemma io_extend_with (l : list pyval) (v : pyval) : io (extend_with l v).
Proof.
  unfold extend_with. destruct (py_iter v); [apply io_ret|].
  apply io_raise. discriminate.
Qed.

Lemma io_open_file (E : Env) (file mode : string) :
  io (open_file E file mode).
Proof.
  intros s. unfold satisfies, open_file, io_post.
  destruct (can_write E file); simpl; repeat split; auto; try discriminate.
  rewrite observe_app. simpl. apply app_nil_r.
Qed.

Lemma io_open_log (E : Env) (file prefix : pyval) (mode : string) :
  io (open_log E file prefix mode).
Proof.
  unfold open_log. destruct (negb (truthy file)); [apply io_ret|].
  apply io_bind.
  - destruct (truthy prefix); [|apply io_expect_str].
    apply io_bind; [apply io_expect_str|]. intros p.
    apply io_bind; [apply io_expect_str|]. intros f. apply io_ret.
  - intros f. apply io_bind; [apply io_get|]. intros s.
    apply io_bind; [apply io_open_file|]. intros h. apply io_ret.
Qed.

Lemma io_open_files (E : Env) (mode : string) : io (open_files E mode).
Proof.
  unfold open_files.
  repeat (apply io_bind;
          [first [apply io_get_cmd | apply io_args_attr | apply io_open_log]
          |intros ?]).
  apply io_ret.
Qed.

Lemma io_java_args (E : Env) : io (java_args E).
Proof.
  unfold java_args.
  apply io_bind; [apply io_get_cmd|]. intros c.
  apply io_bind; [apply io_getattr|]. intros p.
  apply io_bind; [apply io_extend_with|]. intros l.
  apply io_bind; [apply io_getattr|]. intros d.
  destruct (truthy d); apply io_ret.
Qed.

(** [do_import] launches one process and stores its status, or raises
    without having launched any. *)
Lemma do_import_spec (E : Env) (xargs : list string) (mode : string)
  (s : state) :
  satisfies (do_import E xargs mode) s (import_post s).
Proof.
  unfold satisfies, do_import.
  pose proof (io_bind _ _ (io_java_args E)
                (fun a => io_bind _ _ (io_open_files E mode)
                            (fun oe => io_ret (List.map PStr COMMAND ++ a, oe)))
                s) as Hio.
  unfold satisfies in Hio. unfold import_post.
  match goal with
  | |- context [match ?m with _ => _ end] =>
      destruct m as [[[c [o e]]|ex] s1] eqn:H1
  end; simpl in Hio; destruct Hio as (Hc & Hw & Hr & Hl & Ho & He).
  - unfold finally, java_popen. unfold_m.
    destruct (popen E (launches s1) c xargs) as [z|];
      destruct o, e; simpl;
      rewrite ?observe_app; simpl; rewrite ?app_nil_r;
      repeat split; auto; try discriminate;
      exists z; rewrite Ho, Hl; auto.
  - simpl. repeat split; auto.
Qed.

(** ** One turn of the loop *)

Lemma row_account_spec (cont : bool) (l : counters) (i : nat) (s : state) :
  satisfies (row_account cont l i) s (account_post cont l i s).
Proof.
  unfold satisfies, row_account, account_post. unfold_m.
  destruct (Z.eqb (rv s) 0); simpl.
  - destruct (Nat.eqb (failed l) 0); simpl; repeat split; auto.
    now rewrite app_nil_r.
  - destruct cont; simpl; repeat split; auto.
    now rewrite <- app_assoc.
Qed.

Lemma added_args_state (s : state) : snd (added_args s) = s.
Proof.
  unfold added_args. unfold_m.
  destruct (dict_get "path" (attrs (cmd s))) as [p|]; [|reflexivity].
  destruct (py_iter p); reflexivity.
Qed.


Lemma row_action_off (E : Env) (xargs : list string) (i : nat) (s : state) :
  dry_run_off s ->
  row_action E xargs i s =
  do_import E xargs (if Nat.eqb i 1 then "w" else "a") s.
Proof.
  intros (v & Hv & Ht). unfold row_action. unfold_m. now rewrite Hv, Ht.
Qed.


Lemma bulk_row_continue (E : Env) (xargs : list string) (l : counters)
  (s : state) :
  dry_run_off s ->
  satisfies (bulk_row E xargs true l) s (row_continue_post l s).
Proof.
  intros Hoff. unfold satisfies, bulk_row, bind.
  rewrite (row_action_off E xargs _ s Hoff).
  pose proof (do_import_spec E xargs
                (if Nat.eqb (S (incr l)) 1 then "w" else "a") s) as Himp.
  unfold satisfies in Himp.
  destruct (do_import E xargs _ s) as [[[]|e] s1]; simpl in Himp;
    destruct Himp as (Hc & Hw & Himp).
  - destruct Himp as (z & Ho & Hrv & Hl).
    pose proof (row_account_spec true l (S (incr l)) s1) as Hacc.
    unfold satisfies, account_post in Hacc.
    destruct (row_account true l (S (incr l)) s1) as [r s2]; simpl in *.
    destruct Hacc as (Hc2 & Hl2 & Hw2 & Hacc).
    unfold row_continue_post. split; [congruence|]. split; [congruence|].
    rewrite Hrv in Hacc.
    destruct (Z.eqb z 0) eqn:Hz; simpl in Hacc;
      destruct Hacc as (-> & Hrv2 & Htr); exists z;
      rewrite Htr, observe_app, Ho, <- app_assoc;
      unfold count_failed, status_sum; cbn [continue_log filter fold_right];
      unfold nonzero; rewrite Hz; simpl.
    + apply Z.eqb_eq in Hz. subst z. repeat split.
      * destruct (Nat.eqb (failed l) 0); simpl; now rewrite ?app_nil_r.
      * f_equal; lia.
      * rewrite Hrv2. lia.
    + repeat split.
      * f_equal; lia.
      * rewrite Hrv2. lia.
  - unfold row_continue_post. simpl. destruct Himp as (Ho & _ & He).
    repeat split; auto.
Qed.

Lemma bulk_row_fatal (E : Env) (xargs : list string) (l : counters)
  (s : state) :
  dry_run_off s ->
  failed l = 0 ->
  satisfies (bulk_row E xargs false l) s (row_fatal_post l s).
Proof.
  intros Hoff Hf. unfold satisfies, bulk_row, bind.
  rewrite (row_action_off E xargs _ s Hoff).
  pose proof (do_import_spec E xargs
                (if Nat.eqb (S (incr l)) 1 then "w" else "a") s) as Himp.
  unfold satisfies in Himp.
  destruct (do_import E xargs _ s) as [[[]|e] s1]; simpl in Himp;
    destruct Himp as (Hc & Hw & Himp).
  - destruct Himp as (z & Ho & Hrv & Hl).
    pose proof (row_account_spec false l (S (incr l)) s1) as Hacc.
    unfold satisfies, account_post in Hacc.
    destruct (row_account false l (S (incr l)) s1) as [r s2]; simpl in *.
    destruct Hacc as (Hc2 & Hl2 & Hw2 & Hacc).
    unfold row_fatal_post. split; [congruence|]. split; [congruence|].
    rewrite Hrv, Hf in Hacc.
    destruct (Z.eqb_spec z 0) as [->|Hz]; simpl in *;
      destruct Hacc as (-> & Hrv2 & Htr).
    + rewrite Htr, app_nil_r, Ho. auto.
    + right. exists z. repeat split; auto.
      rewrite Htr, observe_app, Ho, <- app_assoc. reflexivity.
  - unfold row_fatal_post. simpl. destruct Himp as (Ho & _ & He).
    repeat split; auto.
Qed.

(** ** The loop over the rows *)

Lemma apply_row_yields (E : Env) (cols : pyval) (cont : bool) (r : row)
  (s : state) :
  forall b, fst (apply_row E cols cont r s) = Ok b -> b = cont.
Proof.
  intros b. destruct r as [parts|]; cbn [apply_row]; unfold bind.
  - match goal with
    | |- context [match ?m with _ => _ end] => destruct m as [[[]|e] s1]
    end; simpl; congruence.
  - simpl. discriminate.
Qed.

Lemma continue_log_cons (f : nat) (z : Z) (sts : list Z) :
  continue_log f (z :: sts) =
  continue_log f [z] ++ continue_log (f + count_failed [z]) sts.
Proof.
  unfold count_failed. cbn [continue_log filter].
  destruct (nonzero z); cbn [List.length].
  - rewrite Nat.add_1_r. reflexivity.
  - rewrite Nat.add_0_r, app_nil_r. reflexivity.
Qed.

Lemma count_failed_cons (z : Z) (sts : list Z) :
  count_failed (z :: sts) = count_failed [z] + count_failed sts.
Proof.
  unfold count_failed. simpl. destruct (nonzero z); reflexivity.
Qed.

(** Once a row has failed, the log ends with the count of the failures. *)
Lemma continue_log_last (sts : list Z) :
  forall f,
    sts <> [] ->
    f + count_failed sts <> 0 ->
    exists pre,
      continue_log f sts =
      pre ++ [Logged (failed_msg (f + count_failed sts))].
Proof.
  induction sts as [|z rest IH]; intros f Hne Hnz; [contradiction|].
  destruct rest as [|z' rest'].
  - unfold count_failed in *. cbn [continue_log filter] in *.
    destruct (nonzero z); cbn [List.length] in *.
    + exists [Status z; Logged (continuing_msg z)].
      rewrite Nat.add_1_r. reflexivity.
    + rewrite Nat.add_0_r in *.
      destruct (Nat.eqb_spec f 0); [contradiction|].
      exists [Status z]. reflexivity.
  - rewrite (continue_log_cons f z (z' :: rest')),
      (count_failed_cons z (z' :: rest')).
    destruct (IH (f + count_failed [z])) as (pre & Hpre);
      [discriminate
      |rewrite (count_failed_cons z (z' :: rest')) in Hnz; lia|].
    exists (continue_log f [z] ++ pre).
    rewrite Hpre, Nat.add_assoc, app_assoc. reflexivity.
Qed.

Lemma status_sum_cons (z : Z) (sts : list Z) :
  status_sum (z :: sts) = (status_sum [z] + status_sum sts)%Z.
Proof. unfold status_sum. simpl. lia. Qed.

Lemma dry_run_off_same (s s' : state) :
  dict_get "dry_run" (attrs (cmd s')) = dict_get "dry_run" (attrs (cmd s)) ->
  dry_run_off s -> dry_run_off s'.
Proof. unfold dry_run_off. intros ->. auto. Qed.

Lemma bulk_loop_continue (E : Env) (xargs : list string) (cols : pyval)
  (rows : list row) :
  forall (l : counters) (s : state),
    dry_run_off s ->
    satisfies
      (bulk_loop E xargs (List.map (apply_row E cols true) rows) l) s
      (loop_continue_post (List.length rows) l s).
Proof.
  induction rows as [|rw rows IH]; intros l s Hoff.
  - unfold satisfies, loop_continue_post. simpl.
    split; [discriminate|]. exists [], []. simpl. rewrite app_nil_r.
    repeat split; auto; try lia.
    destruct l; simpl. f_equal; unfold count_failed, status_sum; simpl; lia.
  - unfold satisfies. cbn [List.map bulk_loop List.length]. unfold bind.
    pose proof (config_apply_row E cols true rw s) as Hcfg.
    pose proof (apply_row_yields E cols true rw s) as Hb.
    unfold satisfies in Hcfg.
    destruct (apply_row E cols true rw s) as [[b|e] s1]; simpl in *.
    + rewrite (Hb b eq_refl). clear Hb.
      destruct Hcfg as (_ & _ & _ & _ & Hd & Htr & _).
      pose proof (dry_run_off_same s s1 Hd Hoff) as Hoff1.
      pose proof (bulk_row_continue E xargs l s1 Hoff1) as Hrow.
      unfold satisfies in Hrow.
      destruct (bulk_row E xargs true l s1) as [[l1|e] s2]; simpl in *.
      * destruct Hrow as (Hc & _ & z & Ho & Hl1 & Hrv).
        assert (Hoff2 : dry_run_off s2).
        { apply (dry_run_off_same s1); auto. now rewrite Hc. }
        specialize (IH l1 s2 Hoff2). unfold satisfies in IH.
        destruct (bulk_loop E xargs (List.map (apply_row E cols true) rows)
                    l1 s2) as [r s3]; simpl in *.
        destruct IH as (Hno & sts & logs & Ho3 & Hlen & Hr).
        subst l1. cbn [incr failed total] in *.
        split; [exact Hno|]. exists (z :: sts), logs.
        split; [|split; [simpl; lia|]].
        -- rewrite Ho3, Ho, Htr, (continue_log_cons (failed l) z sts),
             <- !app_assoc.
           reflexivity.
        -- destruct r as [l'|e]; [|exact I].
           destruct Hr as (Hn & Hlogs & Hl' & Hrv3 & Hrv0).
           rewrite (count_failed_cons z sts), (status_sum_cons z sts).
           split; [simpl; lia|]. split; [exact Hlogs|].
           split; [|split; [|discriminate]].
           ++ rewrite Hl'. unfold status_sum. cbn [fold_right]. f_equal; lia.
           ++ intros _. rewrite Hl'. cbn [total].
              destruct (List.length rows) as [|n] eqn:Hrows.
              ** rewrite (Hrv0 eq_refl), Hrv.
                 destruct sts; [|discriminate Hn].
                 unfold status_sum. simpl. lia.
              ** rewrite Hrv3 by discriminate.
                 rewrite Hl'. unfold status_sum. cbn [total fold_right]. lia.
      * destruct Hrow as (_ & _ & Ho & He).
        split; [intros msg H; injection H as H; exact (He _ _ H)|].
        exists [], []. simpl. rewrite app_nil_r, Ho, Htr.
        repeat split; auto; lia.
    + destruct Hcfg as ((logs & Htr) & _ & _ & _ & _ & He).
      split; [intros msg H; injection H as H; exact (He _ H)|].
      exists [], logs. simpl. rewrite Htr, observe_app, observe_logs.
      repeat split; auto; lia.
Qed.

Lemma bulk_loop_fatal (E : Env) (xargs : list string) (cols : pyval)
  (rows : list row) :
  forall (l : counters) (s : state),
    dry_run_off s ->
    failed l = 0 ->
    satisfies
      (bulk_loop E xargs (List.map (apply_row E cols false) rows) l) s
      (loop_fatal_post (List.length rows) l s).
Proof.
  induction rows as [|rw rows IH]; intros l s Hoff Hf.
  - unfold satisfies, loop_fatal_post. simpl.
    exists 0. split; [lia|]. left. exists []. simpl. rewrite app_nil_r.
    repeat split; auto; try discriminate.
    destruct l; simpl in *. subst. f_equal; lia.
  - unfold satisfies. cbn [List.map bulk_loop List.length]. unfold bind.
    pose proof (config_apply_row E cols false rw s) as Hcfg.
    pose proof (apply_row_yields E cols false rw s) as Hb.
    unfold satisfies in Hcfg.
    destruct (apply_row E cols false rw s) as [[b|e] s1]; simpl in *.
    + rewrite (Hb b eq_refl). clear Hb.
      destruct Hcfg as (_ & _ & _ & _ & Hd & Htr & _).
      pose proof (dry_run_off_same s s1 Hd Hoff) as Hoff1.
      pose proof (bulk_row_fatal E xargs l s1 Hoff1 Hf) as Hrow.
      unfold satisfies in Hrow.
      destruct (bulk_row E xargs false l s1) as [[l1|e] s2]; simpl in *.
      * destruct Hrow as (Hc & _ & Ho & Hl1 & Hrv).
        assert (Hoff2 : dry_run_off s2).
        { apply (dry_run_off_same s1); auto. now rewrite Hc. }
        assert (Hf1 : failed l1 = 0) by now subst l1.
        specialize (IH l1 s2 Hoff2 Hf1). unfold satisfies in IH.
        destruct (bulk_loop E xargs (List.map (apply_row E cols false) rows)
                    l1 s2) as [r s3]; simpl in *.
        destruct IH as (k & Hk & [(logs & Ho3 & Hno & Hr)
                                 |(z & Hz & Hlt & Hr & Hrv3 & Ho3)]).
        -- exists (S k). split; [lia|]. left. exists logs.
           split; [|split; [exact Hno|]].
           ++ rewrite Ho3, Ho, Htr, <- app_assoc. reflexivity.
           ++ destruct r as [l'|e]; [|exact I].
              destruct Hr as (-> & Hlogs & Hl').
              repeat split; auto. rewrite Hl', Hl1. cbn [incr total].
              f_equal; lia.
        -- exists (S k). split; [lia|]. right. exists z.
           repeat split; auto; try lia.
           rewrite Ho3, Ho, Htr, <- app_assoc. reflexivity.
      * exists 0. split; [lia|].
        destruct Hrow as (_ & _ & [(Ho & He)|(z & Hz & -> & Hrv & Ho)]).
        -- left. exists []. simpl. rewrite app_nil_r, Ho, Htr.
           repeat split; auto.
           intros msg H; injection H as H; exact (He _ _ H).
        -- right. exists z. repeat split; auto; try lia.
           rewrite Ho, Htr. reflexivity.
    + destruct Hcfg as ((logs & Htr) & _ & _ & _ & _ & He).
      exists 0. split; [lia|]. left. exists logs. simpl.
      rewrite Htr, observe_app, observe_logs.
      repeat split; auto.
      intros msg H; injection H as H; exact (He _ H).
Qed.

(** ** The loop of a dry run *)






(** ** [parse_bulk] up to its first [yield] *)

Lemma dict_get_pop_other {V} (k k' : string) (d : dict V) :
  k <> k' -> dict_get k (dict_pop k' d) = dict_get k d.
Proof.
  intros Hne. induction d as [|[k1 v1] t IH]; simpl; auto.
  destruct (String.eqb_spec k' k1) as [->|Hk1]; simpl.
  - destruct (String.eqb_spec k k1); congruence.
  - now rewrite IH.
Qed.

Lemma dict_pop_absent {V} (k : string) (d : dict V) :
  dict_get k d = None -> dict_pop k d = d.
Proof.
  induction d as [|[k1 v1] t IH]; simpl; auto.
  destruct (String.eqb k k1); [discriminate|].
  intros H. now rewrite IH.
Qed.

Lemma bulk_dry_run_spec (E : Env) (bulk : dict pyval) (s : state) :
  exists s0,
    bulk_dry_run E bulk s = (Ok (dict_pop "dry_run" bulk), s0) /\
    dict_get "dry_run" (attrs (cmd s0)) = Some (dry_run_setting E bulk) /\
    trace s0 = trace s /\ launches s0 = launches s /\ rv s0 = rv s /\
    cwd s0 = cwd s.
Proof.
  unfold bulk_dry_run, dry_run_setting, dict_has, pop_default. unfold_m.
  destruct (dict_get "dry_run" bulk) as [v|] eqn:Hv.
  - destruct (String.eqb (Str.lower (py_str E v)) "false"); simpl;
      eexists; (split; [reflexivity|]); simpl;
      rewrite ?dict_get_set_same; auto.
  - rewrite (dict_pop_absent _ _ Hv). eexists. split; [reflexivity|].
    simpl. rewrite dict_get_set_same. auto.
Qed.

Lemma config_bulk_continue (bulk : dict pyval) : config (bulk_continue bulk).
Proof.
  unfold bulk_continue. destruct (dict_has "continue" bulk).
  - apply config_bind; [|intros; apply config_ret].
    apply config_when. apply config_add.
  - apply config_ret.
Qed.

Lemma bulk_continue_cont (bulk : dict pyval) (s : state) :
  forall cb, fst (bulk_continue bulk s) = Ok cb ->
             fst cb = dict_has "continue" bulk.
Proof.
  intros cb. unfold bulk_continue.
  destruct (dict_has "continue" bulk); unfold bind.
  - match goal with
    | |- context [match ?m with _ => _ end] => destruct m as [[[]|e] s1]
    end; simpl; intros H; inversion H; reflexivity.
  - simpl. intros H; inversion H; reflexivity.
Qed.

Lemma config_bulk_skip (bulk : dict pyval) : config (bulk_skip bulk).
Proof.
  unfold bulk_skip. destruct (dict_has "skip" bulk).
  - apply config_bind; [|intros; apply config_ret].
    apply config_set_skip_values.
  - apply config_ret.
Qed.

Lemma config_expect_str (v : pyval) : config (expect_str v).
Proof.
  destruct v; simpl; try (apply config_raise; discriminate).
  apply config_ret.
Qed.

Lemma config_read_file (E : Env) (path : string) : config (read_file E path).
Proof.
  unfold read_file. apply config_bind.
  - intros s. apply config_post_refl.
  - intros s. destruct (read_lines E _); [apply config_ret|].
    apply config_raise. discriminate.
Qed.

Lemma config_parse_text (E : Env) (parse : bool) (path : string) :
  config (parse_text E parse path).
Proof.
  unfold parse_text. apply config_bind; [apply config_read_file|].
  intros. apply config_ret.
Qed.

Lemma config_parse_csv (E : Env) (delimiter path : string) :
  config (parse_csv E delimiter path).
Proof.
  unfold parse_csv. apply config_bind; [apply config_read_file|].
  intros. apply config_ret.
Qed.

Lemma config_ret_bind {A B} (a : A) (k : A -> M B) :
  config (k a) -> config (bind (ret a) k).
Proof. intros H s. exact (H s). Qed.

Lemma config_raise_bind {A B} (e : exn) (k : A -> M B) :
  (forall msg, e <> Die 106 msg) -> config (bind (raise e) k).
Proof. intros He s. exact (config_raise (A := B) e He s). Qed.

(** Choosing the parser and reading the rows. *)
Lemma config_rows (E : Env) (cols path : pyval) {B}
  (k : list row -> M B) :
  (forall rows, config (k rows)) ->
  config (function <- select_parser E cols path ;;
          path <- expect_str path ;;
          rows <- function path ;;
          k rows).
Proof.
  intros Hk.
  assert (Hf : forall f : string -> M (list row),
             (forall p, config (f p)) ->
             config (path <- expect_str path ;; rows <- f path ;; k rows)).
  { intros f Hfp. apply config_bind; [apply config_expect_str|].
    intros p. apply config_bind; auto. }
  unfold select_parser.
  destruct (negb (truthy cols)).
  - apply config_ret_bind. apply Hf. apply config_parse_text.
  - destruct path as [| | | |p|];
      try (apply config_raise_bind; discriminate).
    destruct (Str.endswith p ".tsv"); [|destruct (Str.endswith p ".csv")];
      apply config_ret_bind; apply Hf; intros q.
    + apply config_parse_csv.
    + apply config_parse_csv.
    + apply config_parse_text.
Qed.

Lemma rows_shape (E : Env) (cols path : pyval) (cont : bool) (s : state) :
  satisfies
    (function <- select_parser E cols path ;;
     path <- expect_str path ;;
     rows <- function path ;;
     ret (List.map (apply_row E cols cont) rows)) s
    (fun r _ =>
       match r with
       | Ok gen => exists rows, gen = List.map (apply_row E cols cont) rows
       | Raise _ => True
       end).
Proof.
  unfold satisfies, bind.
  destruct (select_parser E cols path s) as [[f|e] s1]; simpl; auto.
  destruct (expect_str path s1) as [[p|e] s2]; simpl; auto.
  destruct (f p s2) as [[rows|e] s3]; simpl; auto.
  now exists rows.
Qed.

Lemma result_bind {A B} (m : M A) (k : A -> M B) (s : state)
  (P : result B -> Prop) :
  (forall e, P (Raise e)) ->
  (forall a s', satisfies (k a) s' (fun r _ => P r)) ->
  satisfies (bind m k) s (fun r _ => P r).
Proof.
  intros He Hk. unfold satisfies, bind.
  destruct (m s) as [[a|e] s1]; simpl; auto.
  specialize (Hk a s1). unfold satisfies in Hk.
  now destruct (k a s1).
Qed.

Lemma config_bulk_rows (E : Env) (cont : bool) (bulk : dict pyval) :
  config (bulk_rows E cont bulk).
Proof.
  unfold bulk_rows.
  apply config_bind; [apply config_bulk_skip|]. intros b.
  apply config_bind;
    [apply config_when; apply config_die; discriminate|]. intros _.
  apply config_bind;
    [apply config_for_each; intros; apply config_add|]. intros _.
  apply config_rows. intros. apply config_ret.
Qed.

Lemma bulk_rows_shape (E : Env) (cont : bool) (bulk : dict pyval)
  (s : state) :
  satisfies (bulk_rows E cont bulk) s
    (fun r _ =>
       match r with
       | Ok gen =>
           exists cols rows, gen = List.map (apply_row E cols cont) rows
       | Raise _ => True
       end).
Proof.
  unfold bulk_rows.
  apply result_bind; [auto|]. intros b s2.
  apply result_bind; [auto|]. intros _ s3.
  apply result_bind; [auto|]. intros _ s4.
  match goal with
  | |- context [select_parser E ?cols ?path] =>
      pose proof (rows_shape E cols path cont s4) as Hsh
  end.
  unfold satisfies in *.
  match goal with
  | |- match fst ?x with _ => _ end =>
      destruct x as [[gen|e] s5]; simpl in *; auto
  end.
  destruct Hsh as (rows & ->). eauto.
Qed.

Lemma parse_bulk_spec (E : Env) (bulk : dict pyval) (s : state) :
  satisfies (parse_bulk E bulk) s (parse_bulk_post E bulk s).
Proof.
  destruct (bulk_dry_run_spec E bulk s)
    as (s0 & Hrun & Hattr & Htr & Hl & Hrv & Hw).
  unfold parse_bulk, satisfies, bind. rewrite Hrun.
  pose proof (config_bulk_continue (dict_pop "dry_run" bulk) s0) as Hcfg.
  pose proof (bulk_continue_cont (dict_pop "dry_run" bulk) s0) as Hcont.
  unfold satisfies in Hcfg.
  destruct (bulk_continue (dict_pop "dry_run" bulk) s0) as [[cb|e] s1];
    simpl in Hcfg, Hcont; [|exact I].
  specialize (Hcont cb eq_refl).
  assert (Hhas : fst cb = dict_has "continue" bulk).
  { rewrite Hcont. unfold dict_has.
    now rewrite dict_get_pop_other by discriminate. }
  destruct Hcfg as (_ & Hl1 & _ & Hw1 & Hd1 & Htr1 & Hrv1).
  pose proof (config_bulk_rows E (fst cb) (snd cb) s1) as Hc.
  pose proof (bulk_rows_shape E (fst cb) (snd cb) s1) as Hs.
  unfold satisfies in Hc, Hs.
  destruct (bulk_rows E (fst cb) (snd cb) s1) as [[gen|e] s5];
    simpl in *; [|exact I].
  destruct Hc as (_ & Hl5 & _ & Hw5 & Hd5 & Htr5 & Hrv5).
  rewrite <- Hhas. repeat split; try congruence; exact Hs.
Qed.

(** ** The descriptor and the policy of the run *)

Lemma parse_bulk_inv (E : Env) (bulk : dict pyval) (s s1 : state)
  (gen : list (M bool)) :
  parse_bulk E bulk s = (Ok gen, s1) ->
  (exists cols rows,
      gen = List.map (apply_row E cols (dict_has "continue" bulk)) rows) /\
  dict_get "dry_run" (attrs (cmd s1)) = Some (dry_run_setting E bulk) /\
  trace s1 = trace s /\ launches s1 = launches s /\ rv s1 = rv s /\
  cwd s1 = cwd s.
Proof.
  intros H. pose proof (parse_bulk_spec E bulk s) as Hs.
  unfold satisfies in Hs. rewrite H in Hs. exact Hs.
Qed.

Lemma continue_run (E : Env) (xargs : list string) (bulk : dict pyval)
  (s s1 : state) (gen : list (M bool)) (r : result counters) (s' : state) :
  parse_bulk E bulk s = (Ok gen, s1) ->
  truthy (dry_run_setting E bulk) = false ->
  dict_has "continue" bulk = true ->
  bulk_loop E xargs gen (mkCounters 0 0 0%Z) s1 = (r, s') ->
  (forall msg, r <> Raise (Die 106 msg)) /\
  exists sts logs,
    observe (trace s') =
      observe (trace s1) ++ continue_log 0 sts ++ List.map Logged logs /\
    List.length sts <= List.length gen /\
    forall l',
      r = Ok l' ->
      List.length sts = List.length gen /\ logs = [] /\
      incr l' = List.length gen /\
      failed l' = count_failed sts /\
      total l' = status_sum sts /\
      (rv s = 0%Z -> rv s' = status_sum sts).
Proof.
  intros Hparse Hdry Hcont Hloop.
  destruct (parse_bulk_inv E bulk s s1 gen Hparse)
    as ((cols & rows & ->) & Hattr & _ & _ & Hrv1 & _).
  rewrite Hcont in Hloop.
  assert (Hoff : dry_run_off s1) by (eexists; eauto).
  pose proof (bulk_loop_continue E xargs cols rows (mkCounters 0 0 0%Z) s1
                Hoff) as Hpost.
  unfold satisfies in Hpost. rewrite Hloop in Hpost. simpl in Hpost.
  destruct Hpost as (Hno & sts & logs & Ho & Hlen & Hr).
  rewrite length_map. split; [exact Hno|].
  exists sts, logs. split; [exact Ho|]. split; [exact Hlen|].
  intros l' ->. destruct Hr as (Hn & Hlogs & -> & Hrvn & Hrv0).
  cbn [incr failed total] in *.
  repeat split; auto; try lia.
  intros Hrv.
  destruct (List.length rows) as [|n] eqn:Hrows.
  - rewrite (Hrv0 eq_refl), Hrv1, Hrv.
    destruct sts; [reflexivity|discriminate Hn].
  - rewrite Hrvn by discriminate. lia.
Qed.

(** The two lines of the report, character for character: the count is
    written with [%x], the status with [%s]. *)
Lemma failed_msg_text (n : nat) :
  exists digits,
    failed_msg n = (digits ++ " failed imports")%string /\
    HexadecimalString.NilZero.uint_of_string digits =
      Some (N.to_hex_uint (N.of_nat n)).
Proof.
  exists (Str.hex_of_nat n). split; [reflexivity|].
  unfold Str.hex_of_nat. apply HexadecimalString.NilZero.usu.
  destruct (N.of_nat n); simpl; [discriminate|].
  apply HexadecimalPos.Unsigned.to_uint_nonnil.
Qed.

Lemma continuing_msg_text (z : Z) :
  exists digits,
    continuing_msg z =
      ("Import failed with error code: " ++ digits ++ ". Continuing")%string /\
    DecimalString.NilZero.int_of_string digits = Some (Z.to_int z).
Proof.
  exists (Str.of_Z z). split; [reflexivity|].
  unfold Str.of_Z. apply DecimalString.NilZero.isi.
  - destruct z; simpl; try discriminate.
    intros [= H]. now apply DecimalPos.Unsigned.to_uint_nonnil in H.
  - destruct z; simpl; try discriminate.
    intros [= H]. now apply DecimalPos.Unsigned.to_uint_nonnil in H.
Qed.

(** C4.  Outside a dry run and with [ctx.rv] at 0 when the run starts:
    when the descriptor declared [continue: true], no exit status ends the
    run with the fatal code 106; every non-zero status is logged with its
    code and the next row is launched; the loop counts the failed rows and
    adds up their statuses.  The report is made inside the loop: at the end
    of every turn [ctx.rv] is set to the running sum and, once a row has
    failed, the line with the count is written again.  When the loop is
    over every row was launched, the count is the number of non-zero
    statuses, the last line logged reports it, and [ctx.rv], the aggregate
    status, is the sum of the statuses.  When the descriptor did not
    declare [continue], the rows before the first non-zero status exit
    with 0 and that status is the last launch: the run ends at once with
    [ctx.die(106, ...)].  With three rows of which the second exits with 7,
    the continuing run launches all three and ends with count 1 and status
    7, having written the count after the second and after the third row;
    the other run launches two.  The lines are the texts of the code: the
    status in decimal, the count as [%x] writes it. *)
Theorem continue_on_error_policy :
  forall (E : Env) (xargs : list string) (bulk : dict pyval) (s s1 : state)
         (gen : list (M bool)) (r : result counters) (s' : state),
    parse_bulk E bulk s = (Ok gen, s1) ->
    truthy (dry_run_setting E bulk) = false ->
    rv s = 0%Z ->
    bulk_loop E xargs gen (mkCounters 0 0 0%Z) s1 = (r, s') ->
    (dict_get "continue" bulk = Some (PBool true) ->
     (forall msg, r <> Raise (Die 106 msg)) /\
     exists sts logs,
       observe (trace s') =
         observe (trace s1) ++ continue_log 0 sts ++ List.map Logged logs /\
       List.length sts <= List.length gen /\
       forall l',
         r = Ok l' ->
         List.length sts = List.length gen /\ logs = [] /\
         incr l' = List.length gen /\
         failed l' = count_failed sts /\
         total l' = status_sum sts /\
         rv s' = status_sum sts /\
         (failed l' <> 0 ->
          exists pre,
            observe (trace s') = pre ++ [Logged (failed_msg (failed l'))])) /\
    (dict_has "continue" bulk = false ->
     exists k,
       k <= List.length gen /\
       ((exists logs,
            observe (trace s') =
              observe (trace s1) ++ List.map Status (repeat 0%Z k)
              ++ List.map Logged logs /\
            (forall msg, r <> Raise (Die 106 msg)) /\
            forall l', r = Ok l' -> k = List.length gen /\ failed l' = 0) \/
        (exists z,
            z <> 0%Z /\ k < List.length gen /\
            r = Raise (Die 106 die_msg) /\ rv s' = 106%Z /\
            observe (trace s') =
              observe (trace s1) ++ List.map Status (repeat 0%Z k)
              ++ [Status z; Logged die_msg]))) /\
    (fst (Demo.run (Demo.env_rows (Demo.yaml_continue (PBool true)))
            Demo.bulk_args "/w") = Ok (mkCounters 3 1 7%Z) /\
     rv (snd (Demo.run (Demo.env_rows (Demo.yaml_continue (PBool true)))
                Demo.bulk_args "/w")) = 7%Z /\
     observe (trace (snd (Demo.run
                            (Demo.env_rows (Demo.yaml_continue (PBool true)))
                            Demo.bulk_args "/w"))) =
       [Status 0%Z; Status 7%Z;
        Logged "Import failed with error code: 7. Continuing";
        Logged "1 failed imports"; Status 0%Z; Logged "1 failed imports"]) /\
    (fst (Demo.run (Demo.env_rows Demo.yaml_plain) Demo.bulk_args "/w") =
       Raise (Die 106 "Import failed. Use -c to continue after errors") /\
     observe (trace (snd (Demo.run (Demo.env_rows Demo.yaml_plain)
                            Demo.bulk_args "/w"))) =
       [Status 0%Z; Status 7%Z;
        Logged "Import failed. Use -c to continue after errors"]) /\
    ((forall n,
         exists digits,
           failed_msg n = (digits ++ " failed imports")%string /\
           HexadecimalString.NilZero.uint_of_string digits =
             Some (N.to_hex_uint (N.of_nat n))) /\
     (forall z,
         exists digits,
           continuing_msg z =
             ("Import failed with error code: " ++ digits
              ++ ". Continuing")%string /\
           DecimalString.NilZero.int_of_string digits = Some (Z.to_int z)) /\
     die_msg = "Import failed. Use -c to continue after errors" /\
     failed_msg 1 = "1 failed imports" /\
     failed_msg 10 = "a failed imports" /\
     failed_msg 16 = "10 failed imports").
Proof.
  intros E xargs bulk s s1 gen r s' Hparse Hdry Hrv Hloop.
  split; [|split; [|split; [repeat split|split; [repeat split|]]]];
    [| |split; [exact failed_msg_text|
                split; [exact continuing_msg_text|repeat split]]].
  - intros Hc.
    assert (Hhas : dict_has "continue" bulk = true)
      by (unfold dict_has; now rewrite Hc).
    destruct (continue_run E xargs bulk s s1 gen r s' Hparse Hdry Hhas
                Hloop) as (Hno & sts & logs & Ho & Hlen & Hr).
    split; [exact Hno|]. exists sts, logs.
    split; [exact Ho|]. split; [exact Hlen|].
    intros l' Hl'.
    destruct (Hr l' Hl') as (Hn & Hlogs & Hi & Hf & Ht & Hrv').
    repeat split; auto.
    intros Hnz. rewrite Hf in *.
    destruct (continue_log_last sts 0) as (pre & Hpre); auto.
    { intros ->. apply Hnz. reflexivity. }
    exists (observe (trace s1) ++ pre).
    rewrite Ho, Hlogs, Hpre. simpl. now rewrite app_nil_r, app_assoc.
  - intros Hc.
    destruct (parse_bulk_inv E bulk s s1 gen Hparse)
      as ((cols & rows & ->) & Hattr & _).
    rewrite Hc in Hloop.
    assert (Hoff : dry_run_off s1) by (eexists; eauto).
    pose proof (bulk_loop_fatal E xargs cols rows (mkCounters 0 0 0%Z) s1
                  Hoff eq_refl) as Hpost.
    unfold satisfies in Hpost. rewrite Hloop in Hpost. simpl in Hpost.
    destruct Hpost as (k & Hk & [(logs & Ho & Hno & Hr)|Hfatal]).
    + exists k. rewrite length_map. split; [exact Hk|]. left.
      exists logs. split; [exact Ho|]. split; [exact Hno|].
      intros l' ->. destruct Hr as (-> & _ & ->). auto.
    + exists k. rewrite length_map. split; [exact Hk|]. right.
      exact Hfatal.
Qed.

Lemma continue_on_error_policy_witness :
  fst (bulk_loop (Demo.env_rows (Demo.yaml_continue (PBool true)))
         ["-Xmx1024M"]
         (Demo.generator (Demo.env_rows (Demo.yaml_continue (PBool true)))
            (Demo.yaml_continue (PBool true)))
         (mkCounters 0 0 0%Z)
         (Demo.after_parse (Demo.env_rows (Demo.yaml_continue (PBool true)))
            (Demo.yaml_continue (PBool true)))) <>
  Raise (Die 106 die_msg).
Proof.
  assert (Hparse :
            parse_bulk (Demo.env_rows (Demo.yaml_continue (PBool true)))
              (Demo.yaml_continue (PBool true))
              (Demo.before_parse
                 (Demo.env_rows (Demo.yaml_continue (PBool true)))) =
            (Ok (Demo.generator
                   (Demo.env_rows (Demo.yaml_continue (PBool true)))
                   (Demo.yaml_continue (PBool true))),
             Demo.after_parse
               (Demo.env_rows (Demo.yaml_continue (PBool true)))
               (Demo.yaml_continue (PBool true))))
    by (vm_compute; reflexivity).
  exact (proj1 (proj1 (continue_on_error_policy
                   (Demo.env_rows (Demo.yaml_continue (PBool true)))
                   ["-Xmx1024M"] (Demo.yaml_continue (PBool true))
                   (Demo.before_parse
                      (Demo.env_rows (Demo.yaml_continue (PBool true))))
                   _ _ _ _ Hparse eq_refl eq_refl
                   (surjective_pairing _)) eq_refl) die_msg).
Defined.

(** The count is not reported after the loop: with three rows of which
    the second exits with 7, the line with the count is written at the end
    of the second turn, and the third row is launched after it. *)
Lemma continue_report_inside_loop :
  observe (trace (snd (Demo.run (Demo.env_rows
                                   (Demo.yaml_continue (PBool true)))
                         Demo.bulk_args "/w"))) =
    [Status 0%Z; Status 7%Z;
     Logged "Import failed with error code: 7. Continuing";
     Logged "1 failed imports"; Status 0%Z; Logged "1 failed imports"] /\
  ~ (forall pre post,
        observe (trace (snd (Demo.run (Demo.env_rows
                                         (Demo.yaml_continue (PBool true)))
                               Demo.bulk_args "/w"))) =
          pre ++ Logged (failed_msg 1) :: post ->
        obs_statuses post = []).
Proof.
  assert (H : observe (trace (snd (Demo.run (Demo.env_rows
                                   (Demo.yaml_continue (PBool true)))
                         Demo.bulk_args "/w"))) =
    [Status 0%Z; Status 7%Z;
     Logged "Import failed with error code: 7. Continuing";
     Logged "1 failed imports"; Status 0%Z; Logged "1 failed imports"])
    by (vm_compute; reflexivity).
  split; [exact H|].
  intros Hall.
  specialize (Hall [Status 0%Z; Status 7%Z;
                    Logged "Import failed with error code: 7. Continuing"]
                   [Status 0%Z; Logged "1 failed imports"]).
  rewrite H in Hall. specialize (Hall eq_refl). discriminate Hall.
Qed.




(** ** Dry runs *)




(** ** Row sources *)

(** C6, as the code has it.  The parser depends only on whether [columns]
    is declared with a non-empty value and on the suffix of the file name.
    Without columns every line, stripped of white space on both sides,
    becomes a one-element row holding the stripped line.  With columns, a
    [.tsv] file is read as tab-delimited records, a [.csv] file as
    comma-delimited records, and any other file goes to [parse_shlex]. *)
Theorem row_source_strategy :
  forall (E : Env) (cols path : pyval) (s : state),
    (truthy cols = false ->
     select_parser E cols path s = (Ok (parse_text E false), s)) /\
    (truthy cols = true ->
     forall p,
       path = PStr p ->
       select_parser E cols path s =
       (Ok (if Str.endswith p ".tsv" then parse_tsv E
            else if Str.endswith p ".csv" then parse_csv E ","
            else parse_shlex E), s)) /\
    (forall p lines,
        read_lines E (abspath E (cwd s) p) = Some lines ->
        parse_text E false p s =
          (Ok (List.map (fun line => Some [PStr (Str.strip line)]) lines),
           s) /\
        parse_tsv E p s =
          (Ok (List.map (fun r => Some (List.map PStr r))
                 (csv_reader E (String (ascii_of_nat 9) EmptyString) lines)),
           s) /\
        parse_csv E "," p s =
          (Ok (List.map (fun r => Some (List.map PStr r))
                 (csv_reader E "," lines)), s)) /\
    Str.strip Demo.padded_line = "img.tif" /\
    fst (parse_text Demo.env_padded false "rows.txt" (Demo.start "/w")) =
      Ok [Some [PStr "img.tif"]].
Proof.
  intros E cols path s. split; [|split; [|split; [|split; reflexivity]]].
  - intros Hc. unfold select_parser. now rewrite Hc.
  - intros Hc p ->. unfold select_parser. rewrite Hc. simpl.
    destruct (Str.endswith p ".tsv"); [reflexivity|].
    destruct (Str.endswith p ".csv"); reflexivity.
  - intros p lines Hlines.
    unfold parse_tsv, parse_csv, parse_text, read_file. unfold_m.
    rewrite Hlines. repeat split.
Qed.

Lemma row_source_strategy_witness :
  select_parser Demo.env_padded (PList [PStr "name"; PStr "path"])
    (PStr "rows.csv") (Demo.start "/w") =
  (Ok (parse_csv Demo.env_padded ","), Demo.start "/w").
Proof.
  exact (proj1 (proj2 (row_source_strategy Demo.env_padded
                         (PList [PStr "name"; PStr "path"])
                         (PStr "rows.csv") (Demo.start "/w")))
           eq_refl "rows.csv" eq_refl).
Defined.

(** Without columns the row of a line with leading blanks is not the
    right-trimmed line: the leading blanks are gone too. *)
Lemma row_source_line_not_right_trimmed :
  Str.rstrip Demo.padded_line = "  img.tif" /\
  fst (parse_text Demo.env_padded false "rows.txt" (Demo.start "/w")) =
    Ok [Some [PStr "img.tif"]] /\
  fst (parse_text Demo.env_padded false "rows.txt" (Demo.start "/w")) <>
    Ok [Some [PStr (Str.rstrip Demo.padded_line)]].
Proof.
  split; [reflexivity|]. split; [reflexivity|].
  vm_compute. discriminate.
Qed.

(** What [parse_shlex] hands over for a line: one element, the list of the
    tokens. *)
Lemma parse_shlex_row (E : Env) (p : string) (s : state)
  (lines : list string) :
  read_lines E (abspath E (cwd s) p) = Some lines ->
  parse_shlex E p s =
  (Ok (List.map
         (fun line =>
            match shlex_split E (Str.strip line) with
            | Some tokens => Some [PList (List.map PStr tokens)]
            | None => None
            end) lines), s).
Proof.
  intros Hlines. unfold parse_shlex, parse_text, read_file. unfold_m.
  now rewrite Hlines.
Qed.

(** ** Working directory and file handles *)

Lemma bulk_run_restores_cwd (E : Env) (fuel : nat) (xargs : list string)
  (s : state) :
  cwd (snd (bulk_run E fuel xargs s)) = cwd s.
Proof.
  unfold bulk_run, finally. unfold_m.
  destruct (negb (has_yaml E)); simpl; [reflexivity|].
  match goal with
  | |- context [match ?m with _ => _ end] => destruct m as [r s1]
  end.
  reflexivity.
Qed.

Lemma java_args_state (E : Env) (s : state) : snd (java_args E s) = s.
Proof.
  unfold java_args. unfold_m.
  destruct (dict_get "path" (attrs (cmd s))) as [p|]; [|reflexivity].
  destruct (py_iter p); [|reflexivity].
  destruct (dict_get "JAVA_DEBUG" (attrs (cmd s))) as [d|]; [|reflexivity].
  destruct (truthy d); reflexivity.
Qed.

Lemma do_import_closes (E : Env) (xargs : list string) (mode : string)
  (s s2 : state) (a : list pyval) (out err : option nat) :
  fst (java_args E s) = Ok a ->
  open_files E mode s = (Ok (out, err), s2) ->
  forall h, out = Some h \/ err = Some h ->
            ~ In h (handles (snd (do_import E xargs mode s))).
Proof.
  intros Ha Hopen h Hh.
  pose proof (java_args_state E s) as Hst.
  unfold do_import, bind.
  destruct (java_args E s) as [r s1]. simpl in Ha, Hst. subst r s1.
  rewrite Hopen. unfold finally, java_popen. unfold_m.
  destruct (popen E (launches s2) _ xargs) as [z|];
    destruct out as [o|], err as [e|]; simpl;
    destruct Hh as [Hh|Hh]; try discriminate Hh;
    injection Hh as ->; intros Hin;
    repeat match goal with
      | H : In _ (filter _ _) |- _ =>
          apply filter_In in H; destruct H as (H & ?)
      end;
    repeat match goal with
      | H : negb (Nat.eqb ?x ?x) = true |- _ =>
          rewrite Nat.eqb_refl in H; discriminate H
      end.
Qed.

(** C9 on the code.  [bulk_run] ends in the working directory it started
    in, whatever happens, and [do_import] closes the handles that
    [open_files] returned, whether the launch succeeds or raises.  But when
    the output file opens and the error file does not, [open_files] raises
    before [out] is bound: the [finally] block closes nothing and the
    handle of the output file stays open. *)
Theorem output_handle_left_open :
  (forall E fuel xargs s, cwd (snd (bulk_run E fuel xargs s)) = cwd s) /\
  (forall E xargs mode s s2 a out err h,
      fst (java_args E s) = Ok a ->
      open_files E mode s = (Ok (out, err), s2) ->
      out = Some h \/ err = Some h ->
      ~ In h (handles (snd (do_import E xargs mode s)))) /\
  fst (Demo.import_run Demo.env_logs Demo.namespace_logs "/w") =
    Raise IOError /\
  trace (snd (Demo.import_run Demo.env_logs Demo.namespace_logs "/w")) =
    [EvOpen 0 "/w/out.log" "w"] /\
  handles (snd (Demo.import_run Demo.env_logs Demo.namespace_logs "/w")) =
    [0].
Proof.
  split; [exact bulk_run_restores_cwd|].
  split; [|repeat split].
  intros E xargs mode s s2 a out err h Ha Hopen Hh.
  exact (do_import_closes E xargs mode s s2 a out err Ha Hopen h Hh).
Qed.

Lemma output_handle_left_open_witness :
  ~ In 0
      (handles
         (snd (do_import (Demo.env [] [] [] []) ["-Xmx1024M"] "w"
                 (Demo.after_init (Demo.env [] [] [] [])
                    Demo.namespace_logs)))).
Proof.
  refine (proj1 (proj2 output_handle_left_open)
            (Demo.env [] [] [] []) ["-Xmx1024M"] "w"
            (Demo.after_init (Demo.env [] [] [] []) Demo.namespace_logs)
            _ _ (Some 0) (Some 1) 0 _ _ _).
  - vm_compute. reflexivity.
  - vm_compute. reflexivity.
  - left. reflexivity.
Defined.

(** ** [add] as an update of an ordered dictionary *)

Lemma offset_none (k : string) (d : dict pyval) :
  dict_get k d = None -> offset k d = None.
Proof.
  induction d as [|[k' v] t IH]; simpl; [reflexivity|].
  destruct (String.eqb k k'); [discriminate|].
  intros H. now rewrite IH.
Qed.

Lemma dict_set_new {V} (k : string) (v : V) (d : dict V) :
  dict_get k d = None -> dict_set k v d = d ++ [(k, v)].
Proof.
  induction d as [|[k' v'] t IH]; simpl; [reflexivity|].
  destruct (String.eqb k k'); [discriminate|].
  intros H. now rewrite IH.
Qed.

Lemma render_app (d1 d2 : dict pyval) :
  render (d1 ++ d2) = render d1 ++ render d2.
Proof. unfold render. apply flat_map_app. Qed.

Lemma offset_app_new (k key : string) (val : pyval) (d : dict pyval) :
  dict_get key d = None ->
  offset k (d ++ [(key, val)]) =
    if String.eqb k key then Some (List.length (render d)) else offset k d.
Proof.
  induction d as [|[k' v] t IH]; simpl.
  - intros _. destruct (String.eqb k key); reflexivity.
  - destruct (String.eqb key k') eqn:Hk; [discriminate|].
    intros H. rewrite (IH H).
    destruct (String.eqb k k') eqn:Hkk.
    + apply String.eqb_eq in Hkk. subst k'.
      now rewrite String.eqb_sym, Hk.
    + destruct (String.eqb k key); simpl; [|reflexivity].
      now rewrite length_app.
Qed.

Lemma slice_assign_app {A} (a l : list A) (i j : nat) (x : list A) :
  slice_assign (a ++ l) (List.length a + i) (List.length a + j) x =
  a ++ slice_assign l i j x.
Proof.
  unfold slice_assign.
  rewrite firstn_app, firstn_all2 by lia.
  replace (List.length a + i - List.length a) with i by lia.
  replace (Nat.max (List.length a + i) (List.length a + j))
    with (List.length a + Nat.max i j) by lia.
  rewrite skipn_app, skipn_all2 by lia.
  replace (List.length a + Nat.max i j - List.length a) with (Nat.max i j)
    by lia.
  now rewrite <- app_assoc.
Qed.

(** Replacing the value of a key of [d] by one whose rendition is as wide:
    the slice [reset_arg] assigns is the rendition of the key, and no
    rendition moves. *)
Lemma render_set_old (key : string) (val old : pyval) (d : dict pyval) :
  dict_get key d = Some old ->
  List.length (build_arg_list key old) =
    List.length (build_arg_list key val) ->
  exists i,
    offset key d = Some i /\
    slice_assign (render d) i (i + List.length (build_arg_list key val))
      (build_arg_list key val) = render (dict_set key val d) /\
    forall k, offset k (dict_set key val d) = offset k d.
Proof.
  intros Hget Hlen. induction d as [|[k' v] t IH]; simpl in *; [discriminate|].
  destruct (String.eqb key k') eqn:Hk.
  - apply String.eqb_eq in Hk. subst k'. injection Hget as ->.
    exists 0. split; [reflexivity|]. split.
    + unfold render. simpl. unfold slice_assign. simpl.
      rewrite <- Hlen, skipn_app, skipn_all, Nat.sub_diag. reflexivity.
    + intros k. simpl. destruct (String.eqb k key); [reflexivity|].
      now rewrite Hlen.
  - destruct (IH Hget) as (i & Hoff & Hslice & Hsame).
    exists (List.length (build_arg_list k' v) + i). rewrite Hoff. simpl.
    split; [reflexivity|]. split.
    + unfold render in *. simpl. rewrite <- Hslice, <- Nat.add_assoc.
      apply slice_assign_app.
    + intros k. simpl. now rewrite Hsame.
Qed.

Lemma Forall_dict_set {V} (P : string * V -> Prop) (k : string) (v : V)
  (d : dict V) :
  (forall v', P (k, v') -> P (k, v)) -> P (k, v) \/ dict_get k d <> None ->
  Forall P d -> Forall P (dict_set k v d).
Proof.
  intros Hsame Hnew Hall. induction Hall as [|[k' v'] t Hx Ht IH]; simpl.
  - constructor; [|constructor]. destruct Hnew as [H|H]; [exact H|].
    now elim H.
  - destruct (String.eqb k k') eqn:Hk.
    + apply String.eqb_eq in Hk. subst k'. constructor; [|exact Ht].
      now apply (Hsame v').
    + constructor; [exact Hx|]. apply IH. destruct Hnew as [H|H]; [now left|].
      right. simpl in H. now rewrite Hk in H.
Qed.

(** One [add] of an accepted Java key, seen through [java_view]. *)
Lemma add_java_step (key : string) (val : pyval) (s : state)
  (d : dict pyval) :
  java_view d (cmd s) ->
  mem key py_keys = false ->
  accepts (cmd s) key = true ->
  (forall old, dict_get key d = Some old ->
     List.length (build_arg_list key old) =
       List.length (build_arg_list key val)) ->
  exists s',
    add key val s = (Ok tt, s') /\
    java_view (dict_set key val d) (cmd s') /\
    java_frame s s'.
Proof.
  intros (Hkeys & Hlist & Hidx) Hpy Hacc Hwidth.
  assert (Hall : Forall (fun kv : string * pyval => mem (fst kv) py_keys = false)
                   (dict_set key val d)).
  { apply Forall_dict_set; [intros; exact Hpy|now left|exact Hkeys]. }
  unfold add, reset_arg, append_arg. unfold_m.
  rewrite Hpy, Hacc, (Hidx key Hpy). simpl.
  destruct (dict_get key d) as [old|] eqn:Hget.
  - destruct (render_set_old key val old d Hget (Hwidth old eq_refl))
      as (i & Hoff & Hslice & Hsame).
    rewrite Hoff. eexists. split; [reflexivity|]. simpl.
    split; [|repeat split; reflexivity].
    split; [exact Hall|]. simpl. split.
    + now rewrite Hlist.
    + intros k Hk. rewrite Hsame. now apply Hidx.
  - rewrite (offset_none _ _ Hget). eexists. split; [reflexivity|]. simpl.
    split; [|repeat split; reflexivity].
    split; [exact Hall|]. simpl. rewrite (dict_set_new _ _ _ Hget). split.
    + rewrite render_app, Hlist. unfold render at 2. simpl.
      now rewrite app_nil_r.
    + intros k Hk. rewrite (offset_app_new _ _ _ _ Hget), Hlist.
      destruct (String.eqb k key) eqn:Hkk.
      * apply String.eqb_eq in Hkk. subst k. apply dict_get_set_same.
      * rewrite dict_get_set_other; [now apply Hidx|].
        intros ->. now rewrite String.eqb_refl in Hkk.
Qed.

Lemma build_arg_list_long (key : string) (val : pyval) :
  String.length key <> 1 -> List.length (build_arg_list key val) = 1.
Proof.
  intros H. unfold build_arg_list.
  destruct (Nat.eqb (String.length key) 1) eqn:Hk.
  - now apply Nat.eqb_eq in Hk.
  - destruct (is_no_arg val); [reflexivity|]. now destruct val.
Qed.

Lemma java_frame_refl (s : state) : java_frame s s.
Proof. repeat split. Qed.

Lemma java_frame_trans (s1 s2 s3 : state) :
  java_frame s1 s2 -> java_frame s2 s3 -> java_frame s1 s3.
Proof.
  unfold java_frame. intros H1 H2.
  decompose [and] H1. decompose [and] H2.
  repeat split; congruence.
Qed.

(** X1.  For an accepted Java option, [add] is the update of an
    insertion-ordered dictionary, as long as a key that is added again gets
    a rendition with as many tokens as the one it had: when
    [__java_additional] holds the renditions of the entries of [d] and
    [__added] their positions, [add(key, val)] returns, and the two then
    hold those of [d] with [d[key] = val]: a new key goes last, a known key
    keeps its place and shows its new value.  Nothing else changes, and
    the arguments of the next import are the initial ones, the renditions
    of the updated dictionary, the paths and the debug flag. *)
Theorem add_updates_java_view (E : Env) (key : string) (val : pyval)
  (s : state) (d : dict pyval) (paths : list pyval) (debug : pyval) :
  java_view d (cmd s) ->
  mem key py_keys = false ->
  accepts (cmd s) key = true ->
  (forall old, dict_get key d = Some old ->
     List.length (build_arg_list key old) =
       List.length (build_arg_list key val)) ->
  dict_get "path" (attrs (cmd s)) = Some (PList paths) ->
  dict_get "JAVA_DEBUG" (attrs (cmd s)) = Some debug ->
  exists s',
    add key val s = (Ok tt, s') /\
    java_view (dict_set key val d) (cmd s') /\
    java_frame s s' /\
    java_args E s' =
      (Ok (List.map PStr (java_initial (cmd s))
           ++ List.map PStr (render (dict_set key val d))
           ++ paths
           ++ (if truthy debug
               then [PStr ("--debug=" ++ py_str E debug)%string]
               else [])), s').
Proof.
  intros Hview Hpy Hacc Hwidth Hpath Hdebug.
  destruct (add_java_step key val s d Hview Hpy Hacc Hwidth)
    as (s' & Hadd & Hview' & Hframe).
  exists s'. split; [exact Hadd|]. split; [exact Hview'|].
  split; [exact Hframe|].
  assert (Hattrs : attrs (cmd s') = attrs (cmd s)) by apply Hframe.
  assert (Hinit : java_initial (cmd s') = java_initial (cmd s))
    by apply Hframe.
  destruct Hview' as (_ & Hlist & _).
  rewrite (java_args_value E s' paths debug)
    by (rewrite Hattrs; assumption).
  now rewrite Hinit, Hlist.
Qed.

Lemma add_updates_java_view_witness :
  let E := Demo.env [] [] [] [] in
  let s0 := Demo.after_init E (Demo.namespace PNone) in
  let s1 := snd (add "d" (PStr "7") s0) in
  exists s',
    add "d" (PStr "8") s1 = (Ok tt, s') /\
    java_view (dict_set "d" (PStr "8") [("d", PStr "7")]) (cmd s') /\
    java_frame s1 s' /\
    java_args E s' =
      (Ok (List.map PStr (java_initial (cmd s1))
           ++ List.map PStr (render (dict_set "d" (PStr "8") [("d", PStr "7")]))
           ++ []
           ++ (if truthy PNone
               then [PStr ("--debug=" ++ py_str E PNone)%string]
               else [])), s').
Proof.
  intros E s0 s1.
  apply (add_updates_java_view E "d" (PStr "8") s1 [("d", PStr "7")]
           [] PNone).
  - split; [repeat constructor|]. split; [vm_compute; reflexivity|].
    intros k _.
    assert (Hadded : ca_added (cmd s1) = [("d", 0)])
      by (vm_compute; reflexivity).
    rewrite Hadded. simpl. destruct (String.eqb k "d"); reflexivity.
  - reflexivity.
  - vm_compute. reflexivity.
  - intros old H. simpl in H. injection H as <-. reflexivity.
  - vm_compute. reflexivity.
  - vm_compute. reflexivity.
Defined.

Lemma add_sequence_aux (acc : list string) (kvs : list (string * pyval)) :
  Forall (fun kv => mem (fst kv) py_keys = false /\
                    mem (fst kv) acc = true /\
                    String.length (fst kv) <> 1) kvs ->
  forall (s : state) (d : dict pyval),
    ca_accepts (cmd s) = acc ->
    java_view d (cmd s) ->
    exists s',
      for_each kvs (fun kv => add (fst kv) (snd kv)) s = (Ok tt, s') /\
      java_view (dict_update d kvs) (cmd s') /\
      java_frame s s'.
Proof.
  induction 1 as [|[key val] kvs (Hpy & Hacc & Hlong) Hrest IH];
    intros s d Hsame Hview.
  - exists s. repeat split; try reflexivity; apply Hview.
  - simpl in Hpy, Hacc, Hlong.
    destruct (add_java_step key val s d Hview Hpy) as (s1 & Hadd & Hv1 & Hf1).
    { unfold accepts. now rewrite Hsame. }
    { intros old _. now rewrite !build_arg_list_long. }
    assert (Hacc1 : ca_accepts (cmd s1) = ca_accepts (cmd s)) by apply Hf1.
    destruct (IH s1 (dict_set key val d) (eq_trans Hacc1 Hsame) Hv1)
      as (s2 & Hloop & Hv2 & Hf2).
    exists s2. split; [|split].
    + simpl. unfold bind. rewrite Hadd. exact Hloop.
    + exact Hv2.
    + now apply java_frame_trans with s1.
Qed.

(** X2.  Any sequence of [add]s of accepted Java options with names of
    more than one character returns and acts as [dict.update]:
    [__java_additional] ends up with one token for each distinct key, in
    the order in which the keys were first added, and the token shows the
    last value given for the key. *)
Theorem add_sequence_is_update (kvs : list (string * pyval)) (s : state)
  (d : dict pyval) :
  java_view d (cmd s) ->
  Forall (fun kv => mem (fst kv) py_keys = false /\
                    accepts (cmd s) (fst kv) = true /\
                    String.length (fst kv) <> 1) kvs ->
  exists s',
    for_each kvs (fun kv => add (fst kv) (snd kv)) s = (Ok tt, s') /\
    java_view (dict_update d kvs) (cmd s') /\
    java_frame s s'.
Proof.
  intros Hview Hall.
  now apply (add_sequence_aux (ca_accepts (cmd s)) kvs Hall s d).
Qed.

Lemma add_sequence_is_update_witness :
  let s0 := Demo.after_init (Demo.env [] [] [] []) (Demo.namespace PNone) in
  let kvs := [("name", PStr "a"); ("target", PStr "t"); ("name", PStr "b")] in
  exists s',
    for_each kvs (fun kv => add (fst kv) (snd kv)) s0 = (Ok tt, s') /\
    java_view [("name", PStr "b"); ("target", PStr "t")] (cmd s') /\
    java_frame s0 s'.
Proof.
  intros s0 kvs.
  apply (add_sequence_is_update kvs s0 []).
  - split; [constructor|]. split; [vm_compute; reflexivity|].
    intros k _.
    assert (Hadded : ca_added (cmd s0) = []) by (vm_compute; reflexivity).
    now rewrite Hadded.
  - repeat (constructor;
            [split; [reflexivity|split; [vm_compute; reflexivity|simpl; lia]]|]).
    constructor.
Defined.

(** ** The constructor *)

Ltac solve_tokens :=
  first [ exists (@nil string); simpl; rewrite ?app_nil_r; reflexivity
        | eexists; simpl; rewrite <- ?app_assoc; reflexivity ].

(** Runs a computation on a state given by its fields. *)
Ltac run_m :=
  cbv beta iota zeta delta
    [bind ret raise get emit set_rv chdir get_cmd put_cmd ctx_out ctx_err
     die when getattr setattr args_attr extend_with expect_str lift_result
     java_initial_append set_list get_list set_attrs set_added set_accepts
     cwd rv trace handles next_handle launches cmd
     ca_args ca_accepts ca_added java_initial java_additional
     py_initial py_additional attrs fst snd negb same_world].

Ltac solve_exn :=
  first [ exact I | now left | now right | now (right; left)
        | now (right; right) ].

(** [set_login_arguments] only extends [__java_initial]. *)
Lemma login_frame (E : Env) (args : dict pyval) (s : state) :
  same_world s (snd (set_login_arguments E args s)) /\
  (exists toks,
      cmd (snd (set_login_arguments E args s)) =
        set_list JavaInitial (java_initial (cmd s) ++ toks) (cmd s)) /\
  match fst (set_login_arguments E args s) with
  | Ok _ => True
  | Raise e => e = AttributeError \/ e = IOError
  end.
Proof.
  destruct s as [w r t h n l c]. destruct c as [a ac ad ji ja pi pa at_].
  unfold set_login_arguments. run_m.
  repeat match goal with
         | |- context [dict_get ?k args] => destruct (dict_get k args); run_m
         | |- context [truthy ?v] => destruct (truthy v); run_m
         | |- context [mem ?k ?l] => destruct (mem k l); run_m
         | |- context [conn E] =>
             destruct (conn E) as [[[? ?] ?]|]; run_m
         end;
    (split; [repeat split|split; [solve_tokens|solve_exn]]).
Qed.

(** [set_skip_arguments] only extends [__java_initial]. *)
Lemma skip_frame (args : dict pyval) (s : state) :
  same_world s (snd (set_skip_arguments args s)) /\
  (exists toks,
      cmd (snd (set_skip_arguments args s)) =
        set_list JavaInitial (java_initial (cmd s) ++ toks) (cmd s)) /\
  match fst (set_skip_arguments args s) with
  | Ok _ => True
  | Raise e => e = AttributeError \/ e = TypeError
  end.
Proof.
  destruct s as [w r t h n l c]. destruct c as [a ac ad ji ja pi pa at_].
  unfold set_skip_arguments, set_skip_values. run_m.
  repeat match goal with
         | |- context [dict_get ?k args] => destruct (dict_get k args); run_m
         | |- context [truthy ?v] => destruct (truthy v); run_m
         | |- context [py_contains ?k ?v] =>
             destruct (py_contains k v) as [[|]|]; run_m
         end;
    (split; [repeat split|split; [solve_tokens|solve_exn]]).
Qed.

Lemma dict_get_key {V} (k : string) (d : dict V) :
  In k (dict_keys d) -> dict_get k d <> None.
Proof.
  induction d as [|[k' v] t IH]; simpl; [tauto|].
  intros [->|Hin]; [now rewrite String.eqb_refl|].
  destruct (String.eqb k k'); [discriminate|auto].
Qed.

(** The loop of the constructor over keys that [args] has: it never
    raises. *)
Lemma init_loop (args : dict pyval) (keys : list string) :
  (forall k, In k keys -> dict_get k args <> None) ->
  forall s,
  exists s',
    for_each keys (init_key args) s = (Ok tt, s') /\
    same_world s s' /\
    cmd s' =
      mkCA (ca_args (cmd s)) (ca_accepts (cmd s) ++ keys) (ca_added (cmd s))
           (java_initial (cmd s) ++ flat_map (init_java args) keys)
           (java_additional (cmd s))
           (py_initial (cmd s) ++ flat_map (init_py args) keys)
           (py_additional (cmd s))
           (init_attrs args keys (attrs (cmd s))).
Proof.
  induction keys as [|key keys IH]; intros Hkeys s.
  - exists s. split; [reflexivity|]. split; [repeat split|].
    destruct s as [w r t h n l c]. destruct c. simpl.
    now rewrite !app_nil_r.
  - destruct (dict_get key args) as [v|] eqn:Hget;
      [|now elim (Hkeys key (or_introl eq_refl))].
    assert (Hstep : exists s1,
               init_key args key s = (Ok tt, s1) /\ same_world s s1 /\
               cmd s1 =
                 mkCA (ca_args (cmd s)) (ca_accepts (cmd s) ++ [key])
                      (ca_added (cmd s))
                      (java_initial (cmd s) ++ init_java args key)
                      (java_additional (cmd s))
                      (py_initial (cmd s) ++ init_py args key)
                      (py_additional (cmd s))
                      (init_attrs args [key] (attrs (cmd s)))).
    { destruct s as [w r t h n l c]. destruct c.
      unfold init_key, append_arg, init_java, init_py, init_attrs.
      cbn [fold_left]. unfold_m. rewrite !Hget.
      destruct (mem key py_keys); simpl.
      - eexists. split; [reflexivity|]. split; [repeat split|]. simpl.
        now rewrite app_nil_r.
      - destruct (truthy v); simpl;
          (eexists; split; [reflexivity|]; split; [repeat split|]; simpl;
           now rewrite ?app_nil_r). }
    destruct Hstep as (s1 & Hs1 & Hw1 & Hc1).
    destruct (IH (fun k H => Hkeys k (or_intror H)) s1)
      as (s2 & Hs2 & Hw2 & Hc2).
    exists s2. split; [|split].
    + simpl. unfold bind. now rewrite Hs1.
    + unfold same_world in *. decompose [and] Hw1. decompose [and] Hw2.
      repeat split; congruence.
    + rewrite Hc2, Hc1. simpl. rewrite <- !app_assoc. reflexivity.
Qed.

Lemma same_world_refl (s : state) : same_world s s.
Proof. repeat split. Qed.

Lemma same_world_trans (s1 s2 s3 : state) :
  same_world s1 s2 -> same_world s2 s3 -> same_world s1 s3.
Proof.
  unfold same_world. intros H1 H2.
  decompose [and] H1. decompose [and] H2. repeat split; congruence.
Qed.

(** The constructor: it fails only while it logs in or expands [skip], and
    otherwise builds the instance from the namespace. *)
Lemma new_CommandArguments_spec (E : Env) (args : dict pyval) (s : state) :
  same_world s (snd (new_CommandArguments E args s)) /\
  match fst (new_CommandArguments E args s) with
  | Ok _ =>
      exists flags,
        cmd (snd (new_CommandArguments E args s)) =
          mkCA args (dict_keys args) []
               (flags ++ flat_map (init_java args) (dict_keys args)) []
               (flat_map (init_py args) (dict_keys args)) []
               (init_attrs args (dict_keys args) [])
  | Raise e => e = AttributeError \/ e = IOError \/ e = TypeError
  end.
Proof.
  set (s0 := snd (put_cmd (mkCA args [] [] [] [] [] [] []) s)).
  assert (Hrun :
            new_CommandArguments E args s =
            match set_login_arguments E args s0 with
            | (Ok _, s1) =>
                match set_skip_arguments args s1 with
                | (Ok _, s2) => for_each (dict_keys args) (init_key args) s2
                | (Raise e, s2) => (Raise e, s2)
                end
            | (Raise e, s1) => (Raise e, s1)
            end) by reflexivity.
  rewrite Hrun. clear Hrun.
  assert (Hw0 : same_world s s0) by (repeat split).
  destruct (login_frame E args s0) as (Hw1 & (t1 & Hc1) & He1).
  destruct (set_login_arguments E args s0) as [[[]|e1] s1]; simpl in *.
  2:{ split; [now apply same_world_trans with s0|]. tauto. }
  destruct (skip_frame args s1) as (Hw2 & (t2 & Hc2) & He2).
  destruct (set_skip_arguments args s1) as [[[]|e2] s2]; simpl in *.
  2:{ split; [apply same_world_trans with s1;
              [now apply same_world_trans with s0|exact Hw2]|]. tauto. }
  destruct (init_loop args (dict_keys args)
              (fun k H => dict_get_key k args H) s2)
    as (s3 & Hs3 & Hw3 & Hc3).
  rewrite Hs3. simpl. split.
  - apply same_world_trans with s2; [|exact Hw3].
    apply same_world_trans with s1; [|exact Hw2].
    now apply same_world_trans with s0.
  - exists (t1 ++ t2). rewrite Hc3, Hc2, Hc1. simpl.
    now rewrite <- !app_assoc.
Qed.

(** [set_login_arguments] on an instance whose [__java_initial] is still
    empty. *)
Lemma set_login_arguments_fresh (E : Env) (args : dict pyval) (s : state)
  (javahelp f advanced_help : pyval) :
  dict_get "javahelp" args = Some javahelp ->
  dict_get "f" args = Some f ->
  dict_get "advanced_help" args = Some advanced_help ->
  java_initial (cmd s) = [] ->
  set_login_arguments E args s =
    match login_flags E javahelp f advanced_help with
    | Some flags =>
        (Ok tt, snd (put_cmd (set_list JavaInitial flags (cmd s)) s))
    | None => (Raise IOError, s)
    end.
Proof.
  intros Hjh Hf Hah Hji.
  destruct s as [w r t h n l c]. destruct c as [a ac ad ji ja pi pa at_].
  simpl in Hji. subst ji.
  unfold set_login_arguments, login_flags. run_m.
  rewrite Hjh. destruct (truthy javahelp); run_m; [reflexivity|].
  rewrite Hf. run_m. destruct (truthy f); run_m; [reflexivity|].
  rewrite Hah. run_m. destruct (truthy advanced_help); run_m; [reflexivity|].
  destruct (conn E) as [[[host port] session]|]; run_m; reflexivity.
Qed.

(** [set_skip_arguments] appends the flags of the shortcuts [skip] names,
    or raises before it changes anything. *)
Lemma set_skip_arguments_flags (args : dict pyval) (s : state)
  (skip : pyval) :
  dict_get "skip" args = Some skip ->
  set_skip_arguments args s =
    match skip_flags skip with
    | Some flags =>
        (Ok tt,
         snd (put_cmd (set_list JavaInitial
                         (java_initial (cmd s) ++ flags) (cmd s)) s))
    | None => (Raise TypeError, s)
    end.
Proof.
  intros Hsk.
  destruct s as [w r t h n l c]. destruct c as [a ac ad ji ja pi pa at_].
  unfold set_skip_arguments, skip_flags. run_m. rewrite Hsk. run_m.
  destruct (truthy skip) eqn:Htr; run_m;
    [|now rewrite app_nil_r].
  unfold set_skip_values, skip_table.
  destruct skip as [| |b|z|t0|l0]; try reflexivity;
    unfold py_contains; cbn [filter fst snd List.map].
  - destruct (Str.contains "all" t0); run_m;
      [now rewrite <- !app_assoc|].
    destruct (Str.contains "checksum" t0), (Str.contains "thumbnails" t0),
      (Str.contains "minmax" t0), (Str.contains "upgrade" t0); run_m;
      cbn [orb List.map filter fst snd];
      rewrite <- ?app_assoc, ?app_nil_r; reflexivity.
  - destruct (existsb (eq_str "all") l0); run_m;
      [now rewrite <- !app_assoc|].
    destruct (existsb (eq_str "checksum") l0),
      (existsb (eq_str "thumbnails") l0),
      (existsb (eq_str "minmax") l0), (existsb (eq_str "upgrade") l0); run_m;
      cbn [orb List.map filter fst snd];
      rewrite <- ?app_assoc, ?app_nil_r; reflexivity.
Qed.

(** X3.  What [CommandArguments(ctx, args)] builds.  It can only fail while
    it logs in or expands [skip] (a missing attribute, a failed connection,
    a [skip] that is no collection); the loop over the namespace never
    raises.  When it returns, [accepts] holds exactly the attributes of the
    namespace, nothing is recorded as added, [__java_initial] holds the
    login and skip flags followed by the renditions of the options that are
    not Python keys and have a true value, [__py_initial] the renditions of
    the Python keys, and the Python keys are attributes of the instance.
    The rest of the state is untouched in both cases.  For a namespace that
    has [javahelp], [f], [advanced_help] and [skip], the result is
    determined: [IOError] when the connection is needed and fails, else
    [TypeError] when [skip] is true and no collection, else the instance
    whose [__java_initial] starts with [-h] or [-s host -p port -k session]
    or nothing, continues with one flag for each shortcut [skip] names or
    [all] implies, and ends with the renditions of the options. *)
Theorem constructor_result (E : Env) (args : dict pyval) (s : state) :
  same_world s (snd (new_CommandArguments E args s)) /\
  match fst (new_CommandArguments E args s) with
  | Ok _ =>
      (exists flags,
          cmd (snd (new_CommandArguments E args s)) =
            mkCA args (dict_keys args) []
                 (flags ++ flat_map (init_java args) (dict_keys args)) []
                 (flat_map (init_py args) (dict_keys args)) []
                 (init_attrs args (dict_keys args) [])) /\
      (forall k, accepts (cmd (snd (new_CommandArguments E args s))) k =
                 mem k (dict_keys args))
  | Raise e => e = AttributeError \/ e = IOError \/ e = TypeError
  end /\
  (forall javahelp f advanced_help skip : pyval,
      dict_get "javahelp" args = Some javahelp ->
      dict_get "f" args = Some f ->
      dict_get "advanced_help" args = Some advanced_help ->
      dict_get "skip" args = Some skip ->
      match login_flags E javahelp f advanced_help with
      | None => fst (new_CommandArguments E args s) = Raise IOError
      | Some login =>
          match skip_flags skip with
          | None => fst (new_CommandArguments E args s) = Raise TypeError
          | Some skips =>
              fst (new_CommandArguments E args s) = Ok tt /\
              cmd (snd (new_CommandArguments E args s)) =
                mkCA args (dict_keys args) []
                     (login ++ skips
                      ++ flat_map (init_java args) (dict_keys args)) []
                     (flat_map (init_py args) (dict_keys args)) []
                     (init_attrs args (dict_keys args) [])
          end
      end).
Proof.
  destruct (new_CommandArguments_spec E args s) as (Hw & Hr).
  split; [exact Hw|]. split.
  - destruct (new_CommandArguments E args s) as [[[]|e] s']; simpl in *;
      [|exact Hr].
    destruct Hr as (flags & Hc).
    split; [now exists flags|].
    intros k. unfold accepts. now rewrite Hc.
  - clear Hw Hr. intros javahelp f advanced_help skip Hjh Hf Hah Hsk.
    set (s0 := snd (put_cmd (mkCA args [] [] [] [] [] [] []) s)).
    assert (Hrun :
              new_CommandArguments E args s =
              match set_login_arguments E args s0 with
              | (Ok _, s1) =>
                  match set_skip_arguments args s1 with
                  | (Ok _, s2) =>
                      for_each (dict_keys args) (init_key args) s2
                  | (Raise e, s2) => (Raise e, s2)
                  end
              | (Raise e, s1) => (Raise e, s1)
              end) by reflexivity.
    rewrite Hrun. clear Hrun.
    rewrite (set_login_arguments_fresh E args s0 javahelp f advanced_help
               Hjh Hf Hah eq_refl).
    destruct (login_flags E javahelp f advanced_help) as [login|];
      [|reflexivity].
    rewrite (set_skip_arguments_flags args _ skip Hsk).
    destruct (skip_flags skip) as [skips|]; [|reflexivity].
    match goal with
    | |- context [for_each _ _ ?s2] =>
        destruct (init_loop args (dict_keys args)
                    (fun k H => dict_get_key k args H) s2)
          as (s3 & Hs3 & _ & Hc3)
    end.
    rewrite Hs3. split; [reflexivity|].
    cbn [snd]. rewrite Hc3. destruct s. simpl.
    now rewrite <- app_assoc.
Qed.

Lemma constructor_result_witness :
  fst (new_CommandArguments (Demo.env [] [] [] [])
         (dict_set "skip" (PList [PStr "minmax"; PStr "checksum"])
            (Demo.namespace PNone))
         (Demo.start "/w")) = Ok tt /\
  java_initial
    (cmd (snd (new_CommandArguments (Demo.env [] [] [] [])
                 (dict_set "skip" (PList [PStr "minmax"; PStr "checksum"])
                    (Demo.namespace PNone))
                 (Demo.start "/w")))) =
    ["-s"; "localhost"; "-p"; "4064"; "-k"; "session-uuid";
     "--checksum-algorithm=File-Size-64"; "--no-stats-info"].
Proof.
  pose proof (proj2 (proj2 (constructor_result (Demo.env [] [] [] [])
                  (dict_set "skip" (PList [PStr "minmax"; PStr "checksum"])
                     (Demo.namespace PNone))
                  (Demo.start "/w")))
                (PBool false) (PBool false) (PBool false)
                (PList [PStr "minmax"; PStr "checksum"])
                eq_refl eq_refl eq_refl eq_refl) as H.
  cbv beta iota delta [login_flags skip_flags] in H.
  destruct H as (H1 & H2). split; [exact H1|].
  rewrite H2. vm_compute. reflexivity.
Defined.

Lemma mem_last (k : string) (l : list string) : mem k (l ++ [k]) = true.
Proof.
  unfold mem. rewrite existsb_app. simpl.
  now rewrite String.eqb_refl, Bool.orb_true_r.
Qed.

(** X4.  The connection is needed unless help or [-f] is asked for.  On an
    instance without [-h] so far, [set_login_arguments] appends [-h] for
    [--javahelp] and then stops; with [-f] or [--advanced-help] it appends
    nothing; in these cases the connection is not consulted and the step
    cannot fail.  Otherwise it appends [-s host -p port -k session] in this
    order, or raises, changing nothing, when the connection fails. *)
Theorem login_arguments_rule (E : Env) (args : dict pyval) (s : state)
  (javahelp f advanced_help : pyval) :
  dict_get "javahelp" args = Some javahelp ->
  dict_get "f" args = Some f ->
  dict_get "advanced_help" args = Some advanced_help ->
  mem "-h" (java_initial (cmd s)) = false ->
  match login_flags E javahelp f advanced_help with
  | Some flags =>
      exists s',
        set_login_arguments E args s = (Ok tt, s') /\
        same_world s s' /\
        cmd s' =
          set_list JavaInitial (java_initial (cmd s) ++ flags) (cmd s)
  | None => set_login_arguments E args s = (Raise IOError, s)
  end.
Proof.
  intros Hjh Hf Hah Hh.
  destruct s as [w r t h n l c]. destruct c as [a ac ad ji ja pi pa at_].
  simpl in Hh.
  unfold set_login_arguments, login_flags. run_m.
  rewrite Hjh. destruct (truthy javahelp); run_m.
  - rewrite mem_last. run_m. eexists. split; [reflexivity|].
    split; [repeat split|reflexivity].
  - rewrite Hh, Hf. run_m. destruct (truthy f); run_m.
    + eexists. split; [reflexivity|]. split; [repeat split|].
      now rewrite app_nil_r.
    + rewrite Hah. run_m. destruct (truthy advanced_help); run_m.
      * eexists. split; [reflexivity|]. split; [repeat split|].
        now rewrite app_nil_r.
      * destruct (conn E) as [[[host port] session]|]; run_m; [|reflexivity].
        eexists. split; [reflexivity|]. split; [repeat split|].
        now rewrite <- !app_assoc.
Qed.

Lemma login_arguments_rule_witness :
  let E := Demo.env [] [] [] [] in
  let args := dict_set "f" (PBool true) (Demo.namespace PNone) in
  exists s',
    set_login_arguments E args (Demo.start "/w") = (Ok tt, s') /\
    same_world (Demo.start "/w") s' /\
    cmd s' = set_list JavaInitial [] (cmd (Demo.start "/w")).
Proof.
  intros E args.
  apply (login_arguments_rule E args (Demo.start "/w")
           (PBool false) (PBool true) (PBool false));
    reflexivity.
Defined.

(** X5.  [set_skip_values] on a value that is not a list.  A string is
    searched for the shortcut names as substrings, so that it acts as the
    list of the names of [SKIP_CHOICES] it contains ([skip: all] in a
    descriptor gives the four flags); [None], a boolean, a number or the
    sentinel raise [TypeError] and change nothing. *)
Theorem set_skip_values_scalar (v : pyval) (s : state) :
  match v with
  | PStr t =>
      set_skip_values (PStr t) s =
      set_skip_values
        (PList (List.map PStr
                  (filter (fun n => Str.contains n t) SKIP_CHOICES))) s
  | PList _ => True
  | _ => set_skip_values v s = (Raise TypeError, s)
  end.
Proof.
  destruct v as [| |b|z|t|l]; try reflexivity; try exact I.
  unfold set_skip_values, py_contains, SKIP_CHOICES.
  rewrite !existsb_eq_str. cbn [filter].
  destruct (Str.contains "all" t), (Str.contains "checksum" t),
    (Str.contains "minmax" t), (Str.contains "thumbnails" t),
    (Str.contains "upgrade" t); reflexivity.
Qed.

(** ** Rows and columns *)

Lemma apply_cols_short (E : Env) (cols parts : list pyval) :
  forall (idx : nat) (s : state),
    idx <= List.length parts ->
    List.length parts < idx + List.length cols ->
    exists e, fst (apply_cols E idx cols parts s) = Raise e.
Proof.
  induction cols as [|col rest IH]; intros idx s Hidx Hlen; simpl in Hlen.
  - lia.
  - cbn [apply_cols]. unfold bind.
    destruct (Nat.eq_dec idx (List.length parts)) as [->|Hne].
    + assert (Hnone : nth_error parts (List.length parts) = None)
        by (apply nth_error_None; lia).
      rewrite Hnone. destruct (eq_str "path" col); eexists; reflexivity.
    + match goal with
      | |- context [match ?m s with _ => _ end] =>
          destruct (m s) as [[[]|e] s1]
      end; [|eexists; reflexivity].
      apply IH; lia.
Qed.

Lemma apply_cols_long (E : Env) (cols parts extra : list pyval) :
  forall (idx : nat) (s : state),
    idx + List.length cols <= List.length parts ->
    apply_cols E idx cols (parts ++ extra) s = apply_cols E idx cols parts s.
Proof.
  induction cols as [|col rest IH]; intros idx s Hlen; simpl in Hlen.
  - reflexivity.
  - cbn [apply_cols]. unfold bind.
    rewrite nth_error_app1 by lia.
    match goal with
    | |- context [match ?m s with _ => _ end] =>
        destruct (m s) as [[[]|e] s1]
    end; [|reflexivity].
    apply IH. lia.
Qed.

(** X6.  The columns of a row.  A row with fewer fields than the descriptor
    has columns is never applied: the turn raises (an [IndexError] unless
    an earlier column fails otherwise).  Fields beyond the columns are
    ignored: the row acts as the row without them. *)
Theorem apply_cols_bounds (E : Env) (cols parts extra : list pyval)
  (s : state) :
  (List.length parts < List.length cols ->
   exists e, fst (apply_cols E 0 cols parts s) = Raise e) /\
  (List.length cols <= List.length parts ->
   apply_cols E 0 cols (parts ++ extra) s = apply_cols E 0 cols parts s).
Proof.
  split; intros H.
  - apply apply_cols_short; lia.
  - apply apply_cols_long. simpl. lia.
Qed.

Lemma apply_cols_bounds_witness :
  let s0 := Demo.after_init (Demo.env [] [] [] []) (Demo.namespace PNone) in
  (exists e,
      fst (apply_cols (Demo.env [] [] [] []) 0 [PStr "name"; PStr "path"]
             [PStr "n"] s0) = Raise e) /\
  apply_cols (Demo.env [] [] [] []) 0 [PStr "name"; PStr "path"]
    ([PStr "n"; PStr "a.tif"] ++ [PStr "more"]) s0 =
  apply_cols (Demo.env [] [] [] []) 0 [PStr "name"; PStr "path"]
    [PStr "n"; PStr "a.tif"] s0.
Proof.
  intros s0.
  pose proof (apply_cols_bounds (Demo.env [] [] [] [])
                [PStr "name"; PStr "path"] [PStr "n"] [] s0) as H1.
  pose proof (apply_cols_bounds (Demo.env [] [] [] [])
                [PStr "name"; PStr "path"] [PStr "n"; PStr "a.tif"]
                [PStr "more"] s0) as H2.
  split.
  - apply (proj1 H1). simpl. lia.
  - apply (proj2 H2). simpl. lia.
Defined.

(** ** What [parse_bulk] forwards *)

(** An unknown key: [add] ends the run with code 200 and leaves the
    instance as it was. *)
Lemma add_unknown (key : string) (val : pyval) (s : state) :
  mem key py_keys = false ->
  accepts (cmd s) key = false ->
  add key val s =
    (Raise (Die 200 ("Unknown argument: " ++ key)%string),
     mkState (cwd s) 200%Z
             (trace s ++ [EvErr ("Unknown argument: " ++ key)%string])
             (handles s) (next_handle s) (launches s) (cmd s)).
Proof.
  intros Hpy Hacc. unfold add. unfold_m. now rewrite Hpy, Hacc.
Qed.

(** A Python key: [add] never fails, and touches neither the Java
    arguments nor the record of another key. *)
Lemma add_py_step (key : string) (val : pyval) (s : state) :
  mem key py_keys = true ->
  exists s',
    add key val s = (Ok tt, s') /\
    same_world s s' /\
    ca_args (cmd s') = ca_args (cmd s) /\
    ca_accepts (cmd s') = ca_accepts (cmd s) /\
    java_initial (cmd s') = java_initial (cmd s) /\
    java_additional (cmd s') = java_additional (cmd s) /\
    (forall k, k <> key ->
       dict_get k (ca_added (cmd s')) = dict_get k (ca_added (cmd s))).
Proof.
  intros Hpy. destruct s as [w r t h n l c].
  destruct c as [a ac ad ji ja pi pa at_].
  unfold add, reset_arg, append_arg. rewrite Hpy. run_m.
  destruct (dict_get key ad) as [idx|]; run_m;
    (eexists; split; [reflexivity|]; run_m; repeat split; try reflexivity).
  intros k Hk. now apply dict_get_set_other.
Qed.

(** Whatever it does, [add] leaves [__accepts] alone. *)
Lemma add_keeps_accepts (key : string) (val : pyval) (s : state) :
  ca_accepts (cmd (snd (add key val s))) = ca_accepts (cmd s).
Proof.
  destruct (mem key py_keys) eqn:Hpy.
  - destruct (add_py_step key val s Hpy) as (s' & Hadd & _ & _ & Hacc & _).
    now rewrite Hadd.
  - destruct (accepts (cmd s) key) eqn:Hacc.
    + destruct s as [w r t h n l c].
      destruct c as [a ac ad ji ja pi pa at_].
      unfold accepts in Hacc. simpl in Hacc.
      unfold add, reset_arg, append_arg, accepts. rewrite Hpy. run_m.
      rewrite Hacc. run_m.
      destruct (dict_get key ad); reflexivity.
    + now rewrite (add_unknown key val s Hpy Hacc).
Qed.

(** [set_skip_values] only extends [__java_initial], and raises nothing
    but [TypeError]. *)
Lemma skip_values_frame (skip : pyval) (s : state) :
  same_world s (snd (set_skip_values skip s)) /\
  (exists toks,
      cmd (snd (set_skip_values skip s)) =
        set_list JavaInitial (java_initial (cmd s) ++ toks) (cmd s)) /\
  match fst (set_skip_values skip s) with
  | Ok _ => True
  | Raise e => e = TypeError
  end.
Proof.
  destruct s as [w r t h n l c]. destruct c as [a ac ad ji ja pi pa at_].
  unfold set_skip_values. run_m.
  repeat match goal with
         | |- context [py_contains ?k ?v] =>
             destruct (py_contains k v) as [[|]|]; run_m
         end;
    (split; [repeat split|split; [solve_tokens|first [exact I|reflexivity]]]).
Qed.

Lemma add_known (key : string) (val : pyval) (s : state) :
  mem key py_keys = false ->
  accepts (cmd s) key = true ->
  exists s', add key val s = (Ok tt, s').
Proof.
  intros Hpy Hacc. unfold add, reset_arg, append_arg. unfold_m.
  rewrite Hpy, Hacc. simpl.
  destruct (dict_get key (ca_added (cmd s))); eexists; reflexivity.
Qed.

Lemma java_view_ext (d : dict pyval) (c c' : CommandArguments) :
  java_additional c' = java_additional c ->
  (forall k, mem k py_keys = false ->
     dict_get k (ca_added c') = dict_get k (ca_added c)) ->
  java_view d c -> java_view d c'.
Proof.
  intros Hl Ha (Hk & Hr & Hi). split; [exact Hk|]. split; [congruence|].
  intros k Hpy. rewrite (Ha k Hpy). now apply Hi.
Qed.

(** The [dry_run] block only sets an attribute. *)
Lemma bulk_dry_run_frame (E : Env) (bulk : dict pyval) (s : state) :
  exists s0,
    bulk_dry_run E bulk s = (Ok (dict_pop "dry_run" bulk), s0) /\
    same_world s s0 /\
    exists a, cmd s0 = set_attrs a (cmd s).
Proof.
  unfold bulk_dry_run, dict_has, pop_default. unfold_m.
  destruct (dict_get "dry_run" bulk) as [v|] eqn:Hv.
  - destruct (String.eqb (Str.lower (py_str E v)) "false"); simpl;
      eexists; (split; [reflexivity|]); (split; [repeat split|]);
      eexists; reflexivity.
  - rewrite (dict_pop_absent _ _ Hv). eexists. split; [reflexivity|].
    split; [repeat split|]. eexists. reflexivity.
Qed.

(** Reading the rows leaves the state as it is. *)
Lemma read_rows_state (E : Env) (cols path : pyval) (cont : bool)
  (s s' : state) (gen : list (M bool)) :
  read_rows E cols path cont s = (Ok gen, s') -> s' = s.
Proof.
  unfold read_rows, select_parser, parse_tsv, parse_shlex, parse_csv,
    parse_text, read_file. unfold_m.
  destruct (negb (truthy cols)).
  - destruct path; try discriminate.
    destruct (read_lines E (abspath E (cwd s) s0)); [|discriminate].
    now intros [= _ <-].
  - destruct path; try discriminate.
    destruct (Str.endswith s0 ".tsv");
      [|destruct (Str.endswith s0 ".csv")];
      (destruct (read_lines E (abspath E (cwd s) s0)); [|discriminate]);
      now intros [= _ <-].
Qed.

Lemma dict_has_pop_other {V} (k k' : string) (d : dict V) :
  k <> k' -> dict_has k (dict_pop k' d) = dict_has k d.
Proof. intros H. unfold dict_has. now rewrite dict_get_pop_other. Qed.

Lemma pop_default_pop_other (k k' : string) (d : dict pyval) :
  k <> k' -> pop_default k (dict_pop k' d) = pop_default k d.
Proof. intros H. unfold pop_default. now rewrite dict_get_pop_other. Qed.

Lemma dict_pop_has_not {V} (k : string) (d : dict V) :
  dict_has k d = false -> dict_pop k d = d.
Proof.
  unfold dict_has. intros H. apply dict_pop_absent.
  now destruct (dict_get k d).
Qed.

(** [parse_bulk] up to the keys it forwards: either it has raised, or the
    descriptor has a [path] and what is left to do is to add the remaining
    keys and to read the rows; by then [__accepts] is as it was and the
    Java options have gained what [continue] adds. *)
Lemma parse_bulk_reaches (E : Env) (bulk : dict pyval) (s : state) :
  (exists e,
      fst (parse_bulk E bulk s) = Raise e /\
      (e = Die 200 "Unknown argument: c" \/ e = TypeError \/
       e = Die 107 "No path specified")) \/
  (dict_has "path" bulk = true /\
   exists s3 cols path cont,
     ca_accepts (cmd s3) = ca_accepts (cmd s) /\
     (forall d, java_view d (cmd s) -> dict_get "c" d = None ->
                java_view (d ++ continue_entry bulk) (cmd s3)) /\
     parse_bulk E bulk s =
       (for_each (popped bulk) (fun kv => add (fst kv) (snd kv)) ;;;
        read_rows E cols path cont) s3).
Proof.
  destruct (bulk_dry_run_frame E bulk s) as (s0 & H0 & Hw0 & a0 & Hc0).
  assert (Hacc0 : ca_accepts (cmd s0) = ca_accepts (cmd s))
    by (rewrite Hc0; reflexivity).
  assert (Hv0 : forall d, java_view d (cmd s) -> java_view d (cmd s0)).
  { intros d. apply java_view_ext; rewrite Hc0; reflexivity. }
  set (b1 := dict_pop "dry_run" bulk) in *.
  (* the [continue] block *)
  assert (Hcont :
            (exists e s2,
                bulk_continue b1 s0 = (Raise e, s2) /\
                e = Die 200 "Unknown argument: c") \/
            (exists s2,
                bulk_continue b1 s0 =
                  (Ok (dict_has "continue" b1, dict_pop "continue" b1), s2) /\
                ca_accepts (cmd s2) = ca_accepts (cmd s) /\
                forall d, java_view d (cmd s) -> dict_get "c" d = None ->
                          java_view (d ++ continue_entry bulk) (cmd s2))).
  { unfold bulk_continue, continue_entry.
    assert (Hpd : pop_default "continue" b1 = pop_default "continue" bulk)
      by (apply pop_default_pop_other; discriminate).
    rewrite <- Hpd.
    destruct (dict_has "continue" b1) eqn:Hhas.
    - unfold bind, when.
      destruct (truthy (pop_default "continue" b1)).
      + destruct (accepts (cmd s0) "c") eqn:Hc.
        * right.
          destruct (add_known "c" NO_ARG s0 eq_refl Hc) as (s2 & Hadd).
          exists s2. rewrite Hadd. split; [reflexivity|]. split.
          -- rewrite <- Hacc0, <- (add_keeps_accepts "c" NO_ARG s0).
             now rewrite Hadd.
          -- intros d Hd Hfresh.
             destruct (add_java_step "c" NO_ARG s0 d (Hv0 d Hd) eq_refl Hc)
               as (s2' & Hadd' & Hview & _).
             { intros old Hold. congruence. }
             rewrite Hadd in Hadd'. injection Hadd' as <-.
             now rewrite <- (dict_set_new _ _ _ Hfresh).
        * left. rewrite (add_unknown "c" NO_ARG s0 eq_refl Hc).
          eexists. eexists. split; reflexivity.
      + right. exists s0. split; [reflexivity|]. split; [exact Hacc0|].
        intros d Hd _. rewrite app_nil_r. now apply Hv0.
    - right. exists s0. rewrite (dict_pop_has_not _ _ Hhas).
      split; [reflexivity|]. split; [exact Hacc0|].
      intros d Hd _.
      assert (Hf : truthy (pop_default "continue" b1) = false).
      { unfold pop_default, dict_has in *.
        now destruct (dict_get "continue" b1). }
      rewrite Hf, app_nil_r. now apply Hv0. }
  assert (Hrun :
            parse_bulk E bulk s =
            match bulk_continue b1 s0 with
            | (Ok cb, s2) => bulk_rows E (fst cb) (snd cb) s2
            | (Raise e, s2) => (Raise e, s2)
            end).
  { unfold parse_bulk, bind. now rewrite H0. }
  rewrite Hrun. clear Hrun.
  destruct Hcont as [(e & s2 & Hc & He)|(s2 & Hc & Hacc2 & Hv2)];
    rewrite Hc; [left; exists e; split; [reflexivity|now left]|].
  cbn [fst snd].
  set (cont := dict_has "continue" b1).
  set (b2 := dict_pop "continue" b1).
  (* the [skip] block *)
  assert (Hskip :
            (exists s3, bulk_skip b2 s2 = (Raise TypeError, s3)) \/
            (exists s3,
                bulk_skip b2 s2 = (Ok (dict_pop "skip" b2), s3) /\
                ca_accepts (cmd s3) = ca_accepts (cmd s2) /\
                forall d, java_view d (cmd s2) -> java_view d (cmd s3))).
  { unfold bulk_skip. destruct (dict_has "skip" b2) eqn:Hhas.
    - unfold bind.
      destruct (skip_values_frame (pop_default "skip" b2) s2)
        as (_ & (toks & Hc3) & He3).
      destruct (set_skip_values (pop_default "skip" b2) s2)
        as [[[]|e] s3]; simpl in *.
      + right. exists s3. split; [reflexivity|]. split.
        * rewrite Hc3. now destruct (cmd s2).
        * intros d. apply java_view_ext; rewrite Hc3; now destruct (cmd s2).
      + left. exists s3. now rewrite He3.
    - right. exists s2. rewrite (dict_pop_has_not _ _ Hhas).
      split; [reflexivity|]. split; [reflexivity|]. auto. }
  assert (Hrows :
            bulk_rows E cont b2 s2 =
            match bulk_skip b2 s2 with
            | (Ok b3, s3) =>
                if negb (dict_has "path" b3) then
                  (die 107 "No path specified" : M (list (M bool))) s3
                else
                  (for_each
                     (dict_pop "include"
                        (dict_pop "columns" (dict_pop "path" b3)))
                     (fun kv => add (fst kv) (snd kv)) ;;;
                   read_rows E
                     (if dict_has "columns" (dict_pop "path" b3)
                      then pop_default "columns" (dict_pop "path" b3)
                      else PNone)
                     (pop_default "path" b3) cont) s3
            | (Raise e, s3) => (Raise e, s3)
            end).
  { unfold bulk_rows. unfold bind at 1.
    destruct (bulk_skip b2 s2) as [[b3|e] s3]; [|reflexivity].
    unfold when. destruct (dict_has "path" b3); reflexivity. }
  rewrite Hrows. clear Hrows.
  destruct Hskip as [(s3 & Hs)|(s3 & Hs & Hacc3 & Hv3)]; rewrite Hs.
  { left. exists TypeError. split; [reflexivity|]. right. now left. }
  assert (Hpath : dict_has "path" (dict_pop "skip" b2) = dict_has "path" bulk).
  { unfold b2, b1. now rewrite !dict_has_pop_other by discriminate. }
  rewrite Hpath. destruct (dict_has "path" bulk) eqn:Hp; cbn [negb].
  - right. split; [reflexivity|].
    eexists s3, _, _, cont. split; [congruence|]. split; [|reflexivity].
    intros d Hd Hfresh. apply Hv3. now apply Hv2.
  - left. eexists. split; [reflexivity|]. right. now right.
Qed.

(** X7.  A descriptor without [path] never yields a row: [parse_bulk]
    raises before any key is forwarded and before any file of rows is
    read.  The run ends with code 107, unless it has ended before with the
    code 200 of a [continue] the command does not accept as [-c], or with
    the [TypeError] of a [skip] that is no collection. *)
Theorem parse_bulk_needs_path (E : Env) (bulk : dict pyval) (s : state) :
  dict_has "path" bulk = false ->
  exists e,
    fst (parse_bulk E bulk s) = Raise e /\
    (e = Die 107 "No path specified" \/
     e = Die 200 "Unknown argument: c" \/ e = TypeError).
Proof.
  intros Hpath.
  destruct (parse_bulk_reaches E bulk s) as [(e & He & Hwhich)|(Hp & _)].
  - exists e. split; [exact He|]. tauto.
  - congruence.
Qed.

Lemma parse_bulk_needs_path_witness :
  exists e,
    fst (parse_bulk (Demo.env [] [] [] []) [("name", PStr "x")]
           (Demo.before_parse (Demo.env [] [] [] []))) = Raise e /\
    (e = Die 107 "No path specified" \/
     e = Die 200 "Unknown argument: c" \/ e = TypeError).
Proof.
  apply (parse_bulk_needs_path (Demo.env [] [] [] []) [("name", PStr "x")]
           (Demo.before_parse (Demo.env [] [] [] []))).
  reflexivity.
Defined.

Lemma In_pop_other {V} (k k' : string) (v : V) (d : dict V) :
  k <> k' -> In (k, v) d -> In (k, v) (dict_pop k' d).
Proof.
  intros Hne. induction d as [|[k1 v1] t IH]; simpl; [tauto|].
  intros [Heq|Hin].
  - injection Heq as -> ->.
    destruct (String.eqb_spec k' k); [congruence|now left].
  - destruct (String.eqb k' k1); [exact Hin|right; auto].
Qed.

(** A loop of [add]s over entries that include an unknown key raises. *)
Lemma for_each_unknown (k : string) (v : pyval) (kvs : dict pyval) :
  In (k, v) kvs ->
  mem k py_keys = false ->
  forall s,
    accepts (cmd s) k = false ->
    exists e,
      fst (for_each kvs (fun kv => add (fst kv) (snd kv)) s) = Raise e.
Proof.
  intros Hin Hpy. induction kvs as [|[k1 v1] t IH]; [destruct Hin|].
  intros s Hacc. cbn [for_each fst snd]. unfold bind.
  destruct Hin as [Heq|Hin].
  - injection Heq as -> ->. rewrite (add_unknown k v s Hpy Hacc).
    eexists. reflexivity.
  - pose proof (add_keeps_accepts k1 v1 s) as Hkeep.
    destruct (add k1 v1 s) as [[[]|e] s1]; [|eexists; reflexivity].
    apply (IH Hin). unfold accepts in *. simpl in Hkeep. now rewrite Hkeep.
Qed.

(** X8.  A descriptor with a key that is neither reserved, nor a Python
    key, nor an option of the command never yields a row: [parse_bulk]
    raises, at the latest with the code 200 of [add], before the file of
    rows is read. *)
Theorem parse_bulk_unknown_key (E : Env) (bulk : dict pyval) (s : state)
  (k : string) (v : pyval) :
  In (k, v) bulk ->
  mem k RESERVED = false ->
  mem k py_keys = false ->
  accepts (cmd s) k = false ->
  exists e, fst (parse_bulk E bulk s) = Raise e.
Proof.
  intros Hin Hres Hpy Hacc.
  destruct (parse_bulk_reaches E bulk s)
    as [(e & He & _)|(_ & s3 & cols & path & cont & Hacc3 & _ & Hrun)].
  - now exists e.
  - rewrite Hrun. unfold bind.
    assert (Hin' : In (k, v) (popped bulk)).
    { unfold popped.
      repeat (apply In_pop_other;
              [intros ->; vm_compute in Hres; discriminate|]).
      exact Hin. }
    destruct (for_each_unknown k v (popped bulk) Hin' Hpy s3) as (e & He).
    { unfold accepts in *. now rewrite Hacc3. }
    destruct (for_each (popped bulk) (fun kv => add (fst kv) (snd kv)) s3)
      as [[[]|e'] s4]; [discriminate|].
    eexists. reflexivity.
Qed.

Lemma parse_bulk_unknown_key_witness :
  exists e,
    fst (parse_bulk (Demo.env [] [] [] [])
           [("path", PStr "rows.txt"); ("nmae", PStr "x")]
           (Demo.before_parse (Demo.env [] [] [] []))) = Raise e.
Proof.
  apply (parse_bulk_unknown_key (Demo.env [] [] [] [])
           [("path", PStr "rows.txt"); ("nmae", PStr "x")]
           (Demo.before_parse (Demo.env [] [] [] [])) "nmae" (PStr "x")).
  - simpl. tauto.
  - reflexivity.
  - reflexivity.
  - vm_compute. reflexivity.
Defined.

Lemma dict_get_not_in {V} (k : string) (d : dict V) :
  ~ In k (dict_keys d) -> dict_get k d = None.
Proof.
  induction d as [|[k1 v1] t IH]; simpl; [reflexivity|].
  intros Hn. destruct (String.eqb_spec k k1) as [->|_]; [tauto|].
  apply IH. tauto.
Qed.

(** With unique keys, [pop] removes every entry of its key. *)
Lemma dict_pop_filter {V} (k : string) (d : dict V) :
  NoDup (dict_keys d) ->
  dict_pop k d = filter (fun kv => negb (String.eqb k (fst kv))) d.
Proof.
  induction d as [|[k1 v1] t IH]; simpl; [reflexivity|].
  intros Hnd. inversion Hnd as [|? ? Hnotin Hnd' ]; subst.
  destruct (String.eqb_spec k k1) as [->|Hne]; simpl.
  - symmetry. apply forallb_filter_id. apply forallb_forall.
    intros [k2 v2] Hin. simpl.
    destruct (String.eqb_spec k1 k2) as [->|_]; [|reflexivity].
    elim Hnotin. unfold dict_keys. apply in_map_iff.
    now exists (k2, v2).
  - now rewrite IH.
Qed.

Lemma NoDup_keys_filter {V} (f : string * V -> bool) (d : dict V) :
  NoDup (dict_keys d) -> NoDup (dict_keys (filter f d)).
Proof.
  induction d as [|[k1 v1] t IH]; simpl; [auto|].
  intros Hnd. inversion Hnd as [|? ? Hnotin Hnd']; subst.
  destruct (f (k1, v1)); simpl; [|auto].
  constructor; [|auto].
  intros Hin. apply Hnotin. unfold dict_keys in *.
  apply in_map_iff in Hin. destruct Hin as (x & Hx & Hin).
  apply filter_In in Hin. apply in_map_iff. exists x. tauto.
Qed.

Lemma filter_filter {A} (f g : A -> bool) (l : list A) :
  filter f (filter g l) = filter (fun x => g x && f x) l.
Proof.
  induction l as [|x t IH]; simpl; [reflexivity|].
  destruct (g x); simpl; [|exact IH]. destruct (f x); now rewrite IH.
Qed.

(** With unique keys, what is left after the [pop]s of [parse_bulk] are the
    entries whose key is not reserved. *)
Lemma popped_forwarded (bulk : dict pyval) :
  NoDup (dict_keys bulk) -> popped bulk = forwarded bulk.
Proof.
  intros Hnd. unfold popped, forwarded.
  rewrite (dict_pop_filter "dry_run") by exact Hnd.
  rewrite (dict_pop_filter "continue") by now apply NoDup_keys_filter.
  rewrite filter_filter.
  rewrite (dict_pop_filter "skip") by now apply NoDup_keys_filter.
  rewrite filter_filter.
  rewrite (dict_pop_filter "path") by now apply NoDup_keys_filter.
  rewrite filter_filter.
  rewrite (dict_pop_filter "columns") by now apply NoDup_keys_filter.
  rewrite filter_filter.
  rewrite (dict_pop_filter "include") by now apply NoDup_keys_filter.
  rewrite filter_filter.
  apply filter_ext. intros [k v]. unfold mem, RESERVED. cbn [fst existsb].
  rewrite !(String.eqb_sym k).
  destruct (String.eqb "dry_run" k), (String.eqb "continue" k),
    (String.eqb "skip" k), (String.eqb "path" k),
    (String.eqb "columns" k), (String.eqb "include" k); reflexivity.
Qed.

Lemma dict_get_app_none {V} (k : string) (d d' : dict V) :
  dict_get k d = None -> dict_get k (d ++ d') = dict_get k d'.
Proof.
  induction d as [|[k1 v1] t IH]; simpl; [reflexivity|].
  destruct (String.eqb k k1); [discriminate|exact IH].
Qed.

(** A loop of [add]s over entries with distinct keys, none of which was
    added before: the Java options gain the renditions of the entries that
    are not Python keys, in order. *)
Lemma for_each_fresh (kvs : dict pyval) :
  NoDup (dict_keys kvs) ->
  forall (s s' : state) (d : dict pyval),
    (forall k, In k (dict_keys kvs) -> dict_get k d = None) ->
    java_view d (cmd s) ->
    for_each kvs (fun kv => add (fst kv) (snd kv)) s = (Ok tt, s') ->
    java_view (d ++ java_entries kvs) (cmd s').
Proof.
  induction kvs as [|[k v] t IH]; intros Hnd s s' d Hfresh Hview Hrun.
  - injection Hrun as <-. simpl. now rewrite app_nil_r.
  - simpl in Hnd. inversion Hnd as [|? ? Hnotin Hnd']; subst.
    cbn [for_each fst snd] in Hrun. unfold bind in Hrun.
    unfold java_entries. cbn [filter fst].
    destruct (mem k py_keys) eqn:Hpy; cbn [negb].
    + destruct (add_py_step k v s Hpy)
        as (s1 & Hadd & _ & _ & _ & _ & Hja & Had).
      rewrite Hadd in Hrun.
      apply (IH Hnd' s1 s' d); [|apply (java_view_ext d (cmd s))|exact Hrun];
        auto.
      * intros k' Hk'. apply Hfresh. now right.
      * intros k' Hk'. apply Had. intros ->. congruence.
    + destruct (accepts (cmd s) k) eqn:Hacc.
      * destruct (add_java_step k v s d Hview Hpy Hacc)
          as (s1 & Hadd & Hv1 & _).
        { intros old Hold. rewrite (Hfresh k) in Hold; [discriminate|].
          now left. }
        rewrite Hadd in Hrun.
        rewrite (dict_set_new k v d) in Hv1 by (apply Hfresh; now left).
        change ((k, v) :: filter (fun kv => negb (mem (fst kv) py_keys)) t)
          with ([(k, v)] ++ java_entries t).
        rewrite app_assoc.
        apply (IH Hnd' s1 s'); [|exact Hv1|exact Hrun].
        intros k' Hk'. rewrite dict_get_app_none by (apply Hfresh; now right).
        simpl. destruct (String.eqb_spec k' k) as [->|_]; [tauto|reflexivity].
      * rewrite (add_unknown k v s Hpy Hacc) in Hrun. discriminate.
Qed.

Lemma dict_get_in_nodup {V} (k : string) (v : V) (d : dict V) :
  NoDup (dict_keys d) -> In (k, v) d -> dict_get k d = Some v.
Proof.
  induction d as [|[k1 v1] t IH]; simpl; [tauto|].
  intros Hnd [Heq|Hin].
  - injection Heq as -> ->. now rewrite String.eqb_refl.
  - inversion Hnd as [|? ? Hnotin Hnd']; subst.
    destruct (String.eqb_spec k k1) as [->|_]; [|now apply IH].
    elim Hnotin. unfold dict_keys. apply in_map_iff. now exists (k1, v).
Qed.

(** A loop of [add]s over entries with distinct keys, each of which either
    was not added before or keeps the width of its rendition: the Java
    options are updated with the entries that are not Python keys. *)
Lemma for_each_distinct (kvs : dict pyval) :
  NoDup (dict_keys kvs) ->
  forall (s s' : state) (d : dict pyval),
    (forall k v old,
        In (k, v) kvs -> dict_get k d = Some old ->
        List.length (build_arg_list k old) =
          List.length (build_arg_list k v)) ->
    java_view d (cmd s) ->
    for_each kvs (fun kv => add (fst kv) (snd kv)) s = (Ok tt, s') ->
    java_view (dict_update d (java_entries kvs)) (cmd s').
Proof.
  induction kvs as [|[k v] t IH]; intros Hnd s s' d Hwidth Hview Hrun.
  - injection Hrun as <-. exact Hview.
  - simpl in Hnd. inversion Hnd as [|? ? Hnotin Hnd']; subst.
    cbn [for_each fst snd] in Hrun. unfold bind in Hrun.
    unfold java_entries. cbn [filter fst].
    destruct (mem k py_keys) eqn:Hpy; cbn [negb].
    + destruct (add_py_step k v s Hpy)
        as (s1 & Hadd & _ & _ & _ & _ & Hja & Had).
      rewrite Hadd in Hrun.
      apply (IH Hnd' s1 s' d); [|apply (java_view_ext d (cmd s))|exact Hrun];
        auto.
      * intros k' v' old Hin. apply Hwidth. now right.
      * intros k' Hk'. apply Had. intros ->. congruence.
    + destruct (accepts (cmd s) k) eqn:Hacc.
      * destruct (add_java_step k v s d Hview Hpy Hacc)
          as (s1 & Hadd & Hv1 & _).
        { intros old Hold. apply Hwidth; [now left|exact Hold]. }
        rewrite Hadd in Hrun.
        change (dict_update d
                  ((k, v) :: filter (fun kv => negb (mem (fst kv) py_keys)) t))
          with (dict_update (dict_set k v d) (java_entries t)).
        apply (IH Hnd' s1 s'); [|exact Hv1|exact Hrun].
        intros k' v' old Hin Hget.
        rewrite dict_get_set_other in Hget.
        -- apply Hwidth; [now right|exact Hget].
        -- intros ->. apply Hnotin. unfold dict_keys. apply in_map_iff.
           now exists (k, v').
      * rewrite (add_unknown k v s Hpy Hacc) in Hrun. discriminate.
Qed.

(** X9.  What a descriptor forwards to Java.  On an instance to which
    nothing has been added yet, when [parse_bulk] hands over its generator
    for a descriptor with unique keys in which a true [continue] does not
    come with a key [c] whose value is a string, [__java_additional] is
    the rendition of the dictionary that holds [c] if [continue] is true
    and is then updated, in the order of the descriptor, with the entries
    whose key is neither reserved ([dry_run], [continue], [skip], [path],
    [columns], [include]) nor a Python key: a key [c] given with a true
    [continue] is rendered once, in the first place.  When a true
    [continue] comes with no key [c] at all, this is [-c] if [continue] is
    true, followed by the renditions of these entries. *)
Theorem parse_bulk_forwards (E : Env) (bulk : dict pyval) (s s1 : state)
  (gen : list (M bool)) :
  NoDup (dict_keys bulk) ->
  java_additional (cmd s) = [] ->
  ca_added (cmd s) = [] ->
  (truthy (pop_default "continue" bulk) = true ->
   forall v, dict_get "c" bulk = Some v ->
             List.length (build_arg_list "c" v) = 1) ->
  parse_bulk E bulk s = (Ok gen, s1) ->
  java_additional (cmd s1) =
    render (dict_update (continue_entry bulk)
              (java_entries (forwarded bulk))) /\
  ((truthy (pop_default "continue" bulk) = true ->
    dict_has "c" bulk = false) ->
   java_additional (cmd s1) =
     render (continue_entry bulk ++ java_entries (forwarded bulk))).
Proof.
  intros Hnd Hja Had Hc Hrun.
  destruct (parse_bulk_reaches E bulk s)
    as [(e & He & _)|(_ & s3 & cols & path & cont & _ & Hview & Hrun')].
  { rewrite Hrun in He. discriminate. }
  rewrite Hrun in Hrun'. unfold bind in Hrun'.
  destruct (for_each (popped bulk) (fun kv => add (fst kv) (snd kv)) s3)
    as [[[]|e] s4] eqn:Hloop; [|discriminate].
  symmetry in Hrun'. apply read_rows_state in Hrun'. subst s4.
  rewrite (popped_forwarded bulk Hnd) in Hloop.
  assert (Hv0 : java_view [] (cmd s)).
  { split; [constructor|]. split; [exact Hja|]. intros k _. now rewrite Had. }
  specialize (Hview [] Hv0 eq_refl). cbn [app] in Hview.
  split.
  - assert (Hv1 : java_view (dict_update (continue_entry bulk)
                               (java_entries (forwarded bulk))) (cmd s1)).
    { apply (for_each_distinct (forwarded bulk)) with (s := s3);
        [now apply NoDup_keys_filter| |exact Hview|exact Hloop].
      intros k v old Hin. unfold continue_entry.
      destruct (truthy (pop_default "continue" bulk)) eqn:Ht;
        [|discriminate].
      simpl. destruct (String.eqb_spec k "c") as [->|_]; [|discriminate].
      intros [= <-]. symmetry. apply (Hc eq_refl).
      apply dict_get_in_nodup; [exact Hnd|].
      unfold forwarded in Hin. now apply filter_In in Hin. }
    apply Hv1.
  - intros Hc'.
    assert (Hv1 : java_view (continue_entry bulk
                             ++ java_entries (forwarded bulk)) (cmd s1)).
    { apply (for_each_fresh (forwarded bulk)) with (s := s3);
        [now apply NoDup_keys_filter| |exact Hview|exact Hloop].
      intros k Hk. unfold continue_entry.
      destruct (truthy (pop_default "continue" bulk)) eqn:Ht; [|reflexivity].
      simpl. destruct (String.eqb_spec k "c") as [->|_]; [|reflexivity].
      specialize (Hc' eq_refl). unfold dict_has in Hc'.
      unfold forwarded, dict_keys in Hk. apply in_map_iff in Hk.
      destruct Hk as ([k' v'] & Hk' & Hin). simpl in Hk'. subst k'.
      apply filter_In in Hin. destruct Hin as (Hin & _).
      assert (Hsome : dict_get "c" bulk <> None).
      { apply dict_get_key. unfold dict_keys. apply in_map_iff.
        now exists ("c", v'). }
      now destruct (dict_get "c" bulk). }
    apply Hv1.
Qed.

Lemma parse_bulk_forwards_witness :
  java_additional
    (cmd (Demo.after_parse (Demo.env_rows [])
            [("path", PStr "rows.txt"); ("name", PStr "x");
             ("continue", PBool true); ("c", PBool true);
             ("target", PStr "t")])) =
    render (dict_update
              (continue_entry
                 [("path", PStr "rows.txt"); ("name", PStr "x");
                  ("continue", PBool true); ("c", PBool true);
                  ("target", PStr "t")])
              (java_entries
                 (forwarded
                    [("path", PStr "rows.txt"); ("name", PStr "x");
                     ("continue", PBool true); ("c", PBool true);
                     ("target", PStr "t")]))) /\
  render (dict_update
            (continue_entry
               [("path", PStr "rows.txt"); ("name", PStr "x");
                ("continue", PBool true); ("c", PBool true);
                ("target", PStr "t")])
            (java_entries
               (forwarded
                  [("path", PStr "rows.txt"); ("name", PStr "x");
                   ("continue", PBool true); ("c", PBool true);
                   ("target", PStr "t")]))) =
    ["-c"; "--name=x"; "--target=t"].
Proof.
  split; [|vm_compute; reflexivity].
  apply (proj1 (parse_bulk_forwards (Demo.env_rows [])
           [("path", PStr "rows.txt"); ("name", PStr "x");
            ("continue", PBool true); ("c", PBool true);
            ("target", PStr "t")]
           (Demo.before_parse (Demo.env_rows []))
           (Demo.after_parse (Demo.env_rows [])
              [("path", PStr "rows.txt"); ("name", PStr "x");
               ("continue", PBool true); ("c", PBool true);
               ("target", PStr "t")])
           (Demo.generator (Demo.env_rows [])
              [("path", PStr "rows.txt"); ("name", PStr "x");
               ("continue", PBool true); ("c", PBool true);
               ("target", PStr "t")])
           ltac:(repeat constructor; simpl; intuition discriminate)
           ltac:(vm_compute; reflexivity)
           ltac:(vm_compute; reflexivity)
           ltac:(intros _ v Hv; injection Hv as <-; reflexivity)
           ltac:(vm_compute; reflexivity))).
Defined.

(** ** Include chains that never end *)

(** X10.  An include chain that never ends makes the loader loop for ever.
    When each turn of the [while bulkfile:] loop finds a descriptor that
    names a further one (a descriptor that includes itself, two that
    include each other), the loop does not end within any number of turns:
    the model runs out of fuel whatever the fuel. *)
Theorem include_cycle_never_ends (E : Env) (fuel : nat) :
  forall (bulkfile : pyval) (contents : list (string * string * dict pyval))
         (s : state),
    (forall n, include_steps E n (cwd s, bulkfile) <> None) ->
    fst (load_contents E fuel bulkfile contents s) = Raise Diverges.
Proof.
  induction fuel as [|fuel IH]; intros bulkfile contents s Hsteps.
  - pose proof (Hsteps 1) as H1. cbn [include_steps] in H1.
    unfold include_step in H1. cbn [fst snd] in H1. cbn [load_contents].
    destruct (negb (truthy bulkfile)); [now elim H1|reflexivity].
  - pose proof (Hsteps 1) as H1. cbn [include_steps] in H1.
    assert (Hnext : forall n c', include_step E (cwd s, bulkfile) = Some c' ->
                                 include_steps E n c' <> None).
    { intros n c' Hc'. specialize (Hsteps (S n)).
      cbn [include_steps] in Hsteps. now rewrite Hc' in Hsteps. }
    unfold include_step in H1, Hnext. cbn [fst snd] in H1, Hnext.
    cbn [load_contents].
    destruct (negb (truthy bulkfile)); [now elim H1|].
    destruct bulkfile as [| | | |f|]; try now elim H1.
    unfold_m.
    destruct (read_yaml E (abspath E (cwd s) f)) as [| |data];
      try now elim H1.
    apply IH. intros n. apply Hnext. reflexivity.
Qed.

Lemma include_cycle_never_ends_witness :
  fst (load_contents Demo.env_self 1000 (PStr "A.yml") [] (Demo.start "/w"))
  = Raise Diverges.
Proof.
  apply (include_cycle_never_ends Demo.env_self 1000 (PStr "A.yml") []
           (Demo.start "/w")).
  intros n. induction n as [|n IH]; [discriminate|exact IH].
Defined.

(** X11.  [bulk_import] and the working directory.  Without PyYAML the run
    ends with code 105 before it reads or launches anything.  Otherwise
    the last thing it does, whatever has happened in between (a missing
    descriptor, an unknown key, a failed import), is to change back to the
    directory it was started in.  In both cases the working directory is
    in the end what it was. *)
Theorem bulk_import_restores_cwd (E : Env) (fuel : nat)
  (xargs : list string) (s : state) :
  cwd (snd (bulk_import E fuel xargs s)) = cwd s /\
  if has_yaml E then
    exists tr,
      trace (snd (bulk_import E fuel xargs s)) = tr ++ [EvChdir (cwd s)]
  else
    bulk_import E fuel xargs s =
      (Raise (Die 105 "ERROR: PyYAML is not installed"),
       mkState (cwd s) 105%Z
               (trace s ++ [EvErr "ERROR: PyYAML is not installed"])
               (handles s) (next_handle s) (launches s) (cmd s)).
Proof.
  assert (Hsnd : snd (bulk_import E fuel xargs s)
                 = snd (bulk_run E fuel xargs s)).
  { unfold bulk_import, bind.
    now destruct (bulk_run E fuel xargs s) as [[l|e] s1]. }
  split; [rewrite Hsnd; apply bulk_run_restores_cwd|].
  destruct (has_yaml E) eqn:Hy.
  - rewrite Hsnd.
    assert (Hrun :
              bulk_run E fuel xargs s =
              finally
                (bulk <- load_bulk E fuel ;;
                 gen <- parse_bulk E bulk ;;
                 bulk_loop E xargs gen (mkCounters 0 0 0%Z))
                (chdir (cwd s)) s).
    { unfold bulk_run. rewrite Hy. reflexivity. }
    rewrite Hrun. unfold finally, chdir.
    match goal with
    | |- context [match ?m s with _ => _ end] => destruct (m s) as [r s1]
    end.
    eexists. reflexivity.
  - unfold bulk_import, bulk_run. rewrite Hy. reflexivity.
Qed.

(** ** Where the logs go *)

(** An [add] that returns has changed neither the namespace the instance
    was built from nor anything outside the instance. *)
Lemma add_keeps_args (key : string) (val : pyval) (s s' : state) :
  add key val s = (Ok tt, s') ->
  ca_args (cmd s') = ca_args (cmd s) /\ same_world s s'.
Proof.
  destruct (mem key py_keys) eqn:Hpy.
  - destruct (add_py_step key val s Hpy) as (s1 & Hadd & Hw & Ha & _).
    rewrite Hadd. intros [= <-]. now split.
  - destruct (accepts (cmd s) key) eqn:Hacc.
    + destruct s as [w r t h n l c].
      destruct c as [a ac ad ji ja pi pa at_].
      unfold accepts in Hacc. simpl in Hacc.
      unfold add, reset_arg, append_arg, accepts. rewrite Hpy. run_m.
      rewrite Hacc. run_m.
      destruct (dict_get key ad); intros [= <-]; repeat split.
    + rewrite (add_unknown key val s Hpy Hacc). discriminate.
Qed.

(** [open_files] looks at the namespace and at the world only. *)
Lemma open_files_ext (E : Env) (mode : string) (s s' : state) :
  ca_args (cmd s') = ca_args (cmd s) ->
  same_world s s' ->
  fst (open_files E mode s') = fst (open_files E mode s) /\
  same_world (snd (open_files E mode s)) (snd (open_files E mode s')).
Proof.
  destruct s as [w r t h n l c]. destruct s' as [w' r' t' h' n' l' c'].
  destruct c as [a ac ad ji ja pi pa at_].
  destruct c' as [a' ac' ad' ji' ja' pi' pa' at_'].
  unfold same_world. simpl.
  intros -> (-> & -> & -> & -> & -> & ->).
  unfold open_files, open_log, open_file. run_m.
  repeat match goal with
         | |- context [dict_get ?k a] => destruct (dict_get k a); run_m
         | |- context [truthy ?v] => destruct (truthy v); run_m
         | |- context [match ?v with PStr _ => _ | _ => _ end] =>
             destruct v; run_m
         | |- context [can_write E ?f] => destruct (can_write E f); run_m
         end;
    repeat split.
Qed.

(** X12.  Keys added later do not redirect the logs.  [open_files] reads
    [file], [errs] and [logprefix] from the namespace the instance was
    built from, and [add] never changes it: after any sequence of [add]s
    that returns (a descriptor may well give [file] or [logprefix]),
    [open_files] opens the same files, with the same outcome, as before. *)
Theorem add_keeps_log_files (E : Env) (mode : string)
  (kvs : list (string * pyval)) :
  forall (s s' : state),
    for_each kvs (fun kv => add (fst kv) (snd kv)) s = (Ok tt, s') ->
    fst (open_files E mode s') = fst (open_files E mode s) /\
    trace (snd (open_files E mode s')) = trace (snd (open_files E mode s)).
Proof.
  assert (Hloop : forall (s s' : state),
             for_each kvs (fun kv => add (fst kv) (snd kv)) s = (Ok tt, s') ->
             ca_args (cmd s') = ca_args (cmd s) /\ same_world s s').
  { induction kvs as [|[k v] t IH]; intros s s' Hrun.
    - injection Hrun as <-. split; [reflexivity|apply same_world_refl].
    - cbn [for_each fst snd] in Hrun. unfold bind in Hrun.
      destruct (add k v s) as [[[]|e] s1] eqn:Hadd; [|discriminate].
      destruct (add_keeps_args k v s s1 Hadd) as (Ha1 & Hw1).
      destruct (IH s1 s' Hrun) as (Ha2 & Hw2).
      split; [congruence|now apply same_world_trans with s1]. }
  intros s s' Hrun. destruct (Hloop s s' Hrun) as (Ha & Hw).
  destruct (open_files_ext E mode s s' Ha Hw) as (Hfst & Hsame).
  split; [exact Hfst|]. apply Hsame.
Qed.

Lemma add_keeps_log_files_witness :
  let E := Demo.env [] [] [] [] in
  let s := Demo.after_init E Demo.namespace_logs in
  let kvs := [("file", PStr "other.log"); ("logprefix", PStr "logs")] in
  let s' := snd (for_each kvs (fun kv => add (fst kv) (snd kv)) s) in
  fst (open_files E "w" s') = fst (open_files E "w" s) /\
  trace (snd (open_files E "w" s')) = trace (snd (open_files E "w" s)).
Proof.
  intros E s kvs s'.
  apply (add_keeps_log_files E "w" kvs s s').
  vm_compute. reflexivity.
Defined.

(** ** The modes of the log files *)

Lemma modes_app (a b : list event) : modes (a ++ b) = modes a ++ modes b.
Proof.
  induction a as [|e a IH]; simpl; [reflexivity|].
  destruct e; simpl; now rewrite IH.
Qed.

Lemma commands_app (a b : list event) :
  commands (a ++ b) = commands a ++ commands b.
Proof.
  induction a as [|e a IH]; simpl; [reflexivity|].
  destruct e; simpl; now rewrite IH.
Qed.

Lemma timed_modes_app (a b : list event) :
  forall n,
    timed_modes n (a ++ b) =
    timed_modes n a ++ timed_modes (n + List.length (commands a)) b.
Proof.
  induction a as [|e a IH]; intros n; simpl.
  - now rewrite Nat.add_0_r.
  - destruct e; simpl; rewrite IH; try reflexivity.
    now rewrite Nat.add_succ_r.
Qed.

Lemma timed_modes_quiet (tr : list event) :
  commands tr = [] ->
  forall n, timed_modes n tr = List.map (pair n) (modes tr).
Proof.
  induction tr as [|e tr IH]; intros Hc n; simpl; [reflexivity|].
  destruct e; simpl in *; try discriminate; now rewrite IH.
Qed.

Lemma timed_modes_snd (tr : list event) :
  forall n, List.map snd (timed_modes n tr) = modes tr.
Proof.
  induction tr as [|e tr IH]; intros n; simpl; [reflexivity|].
  destruct e; simpl; now rewrite IH.
Qed.

Lemma timed_modes_shift (tr : list event) :
  forall n k,
    timed_modes (k + n) tr =
    List.map (fun nm => (k + fst nm, snd nm)) (timed_modes n tr).
Proof.
  induction tr as [|e tr IH]; intros n k; simpl; [reflexivity|].
  destruct e; simpl; rewrite <- ?IH; try reflexivity.
  now rewrite Nat.add_succ_r.
Qed.

Lemma timed_modes_logs (logs : list string) (n : nat) :
  timed_modes n (List.map EvErr logs) = [].
Proof. induction logs; simpl; auto. Qed.

Lemma commands_logs (logs : list string) :
  commands (List.map EvErr logs) = [].
Proof. induction logs; simpl; auto. Qed.

Lemma opens_only_same (mode : string) {A} (m : M A) :
  (forall s, trace (snd (m s)) = trace s) -> opens_only mode m.
Proof.
  intros H s. exists []. rewrite app_nil_r.
  split; [apply H|]. split; [reflexivity|constructor].
Qed.

Lemma opens_only_bind (mode : string) {A B} (m : M A) (k : A -> M B) :
  opens_only mode m -> (forall a, opens_only mode (k a)) ->
  opens_only mode (bind m k).
Proof.
  intros Hm Hk s. unfold bind.
  destruct (Hm s) as (new & Htr & Hc & Hall).
  destruct (m s) as [[a|e] s1]; simpl in *.
  - destruct (Hk a s1) as (new' & Htr' & Hc' & Hall').
    exists (new ++ new'). split; [|split].
    + now rewrite Htr', Htr, app_assoc.
    + now rewrite commands_app, Hc, Hc'.
    + rewrite modes_app. apply Forall_app. now split.
  - now exists new.
Qed.

Lemma opens_only_open_log (E : Env) (file prefix : pyval) (mode : string) :
  opens_only mode (open_log E file prefix mode).
Proof.
  intros s. unfold open_log, open_file. unfold_m.
  assert (Hnone : exists new, trace s = trace s ++ new /\
                              commands new = [] /\
                              Forall (eq mode) (modes new)).
  { exists []. rewrite app_nil_r. repeat split. constructor. }
  destruct (negb (truthy file)); [exact Hnone|].
  destruct (truthy prefix);
    [destruct prefix; simpl; try exact Hnone|];
    (destruct file; simpl; try exact Hnone);
    (match goal with
     | |- context [can_write E ?f] => destruct (can_write E f)
     end; simpl; [|exact Hnone]);
    (eexists; split; [reflexivity|]; split; [reflexivity|];
     simpl; now constructor).
Qed.

Lemma opens_only_open_files (E : Env) (mode : string) :
  opens_only mode (open_files E mode).
Proof.
  unfold open_files.
  repeat (apply opens_only_bind;
          [first [apply opens_only_open_log
                 |apply opens_only_same; intros s; unfold_m;
                  now destruct (dict_get _ _)
                 |apply opens_only_same; intros s; reflexivity]
          |intros ?]).
  apply opens_only_same. reflexivity.
Qed.

(** [do_import]: the files are opened in the mode it is given, before the
    launch, and it launches once when it returns. *)
Lemma do_import_turn (E : Env) (xargs : list string) (mode : string)
  (s : state) :
  exists new,
    trace (snd (do_import E xargs mode s)) = trace s ++ new /\
    Forall (eq (0, mode)) (timed_modes 0 new) /\
    (forall u, fst (do_import E xargs mode s) = Ok u ->
               List.length (commands new) = 1).
Proof.
  unfold do_import.
  assert (Hio : opens_only mode
                  (a <- java_args E ;;
                   oe <- open_files E mode ;;
                   ret (List.map PStr COMMAND ++ a, oe))).
  { apply opens_only_bind.
    - apply opens_only_same. intros s0. now rewrite java_args_state.
    - intros a. apply opens_only_bind; [apply opens_only_open_files|].
      intros oe. apply opens_only_same. reflexivity. }
  destruct (Hio s) as (new & Htr & Hc & Hall).
  assert (Hquiet : Forall (eq (0, mode)) (timed_modes 0 new)).
  { rewrite (timed_modes_quiet new Hc). apply Forall_map.
    revert Hall. apply Forall_impl. now intros a <-. }
  match goal with
  | |- context [match ?m with _ => _ end] =>
      destruct m as [[[c [o e]]|ex] s1]
  end; simpl in Htr.
  2:{ exists new. split; [exact Htr|]. split; [exact Hquiet|].
      discriminate. }
  unfold finally, java_popen, close_opt, close_file. unfold_m.
  destruct (popen E (launches s1) c xargs) as [z|];
    destruct o, e; cbn [fst snd trace]; rewrite Htr;
    repeat rewrite <- app_assoc;
    (eexists; split; [reflexivity|]);
    rewrite ?timed_modes_app, ?commands_app, Hc; cbn;
    rewrite ?app_nil_r; (split; [exact Hquiet|]);
    first [discriminate|reflexivity|idtac].
Qed.

(** One turn of the loop outside a dry run: its files are opened before
    its launch, for writing in the first turn and for appending in the
    others, and a turn that returns has launched once. *)
Lemma bulk_row_turn (E : Env) (xargs : list string) (cont : bool)
  (l : counters) (s : state) :
  dry_run_off s ->
  exists new,
    trace (snd (bulk_row E xargs cont l s)) = trace s ++ new /\
    Forall (eq (0, if Nat.eqb (incr l) 0 then "w" else "a"))
           (timed_modes 0 new) /\
    cmd (snd (bulk_row E xargs cont l s)) = cmd s /\
    forall l', fst (bulk_row E xargs cont l s) = Ok l' ->
               incr l' = S (incr l) /\ List.length (commands new) = 1.
Proof.
  intros Hoff. unfold bulk_row, bind.
  rewrite (row_action_off E xargs (S (incr l)) s Hoff).
  change (Nat.eqb (S (incr l)) 1) with (Nat.eqb (incr l) 0).
  set (mode := if Nat.eqb (incr l) 0 then "w" else "a").
  destruct (do_import_turn E xargs mode s) as (new & Htr & Hall & Hone).
  pose proof (do_import_spec E xargs mode s) as Himp.
  unfold satisfies, import_post in Himp.
  destruct (do_import E xargs mode s) as [[[]|e] s1]; simpl in *.
  - destruct Himp as (Hc & _).
    pose proof (row_account_spec cont l (S (incr l)) s1) as Hacc.
    unfold satisfies, account_post in Hacc.
    destruct (row_account cont l (S (incr l)) s1) as [r s2]; simpl in *.
    destruct Hacc as (Hc2 & _ & _ & Hacc).
    assert (Hlogs : exists logs,
               trace s2 = trace s1 ++ List.map EvErr logs).
    { destruct (Z.eqb (rv s1) 0); [|destruct cont];
        destruct Hacc as (_ & _ & Ht); rewrite Ht.
      - destruct (Nat.eqb (failed l) 0); [now exists []|].
        now exists [failed_msg (failed l)].
      - now exists [continuing_msg (rv s1); failed_msg (S (failed l))].
      - now exists [die_msg]. }
    destruct Hlogs as (logs & Ht).
    exists (new ++ List.map EvErr logs).
    split; [now rewrite Ht, Htr, app_assoc|].
    split; [rewrite timed_modes_app, timed_modes_logs, app_nil_r;
            exact Hall|].
    split; [congruence|].
    intros l' Hl'. subst r. split.
    + destruct (Z.eqb (rv s1) 0); [|destruct cont];
        destruct Hacc as (Hr & _); try discriminate;
        now injection Hr as ->.
    + rewrite commands_app, commands_logs, app_nil_r. now apply (Hone tt).
  - destruct Himp as (Hc & _).
    exists new. split; [exact Htr|]. split; [exact Hall|].
    split; [exact Hc|]. discriminate.
Qed.

(** The loop outside a dry run: what is opened before the first launch of
    a loop at its first turn is opened for writing, everything else for
    appending. *)
Lemma bulk_loop_turns (E : Env) (xargs : list string) (cols : pyval)
  (cont : bool) (rows : list row) :
  forall (l : counters) (s : state),
    dry_run_off s ->
    exists new,
      trace (snd (bulk_loop E xargs
                    (List.map (apply_row E cols cont) rows) l s)) =
        trace s ++ new /\
      Forall (fun nm => snd nm =
                        if Nat.eqb (incr l + fst nm) 0 then "w" else "a")
             (timed_modes 0 new).
Proof.
  induction rows as [|rw rows IH]; intros l s Hoff.
  - exists []. simpl. rewrite app_nil_r. auto.
  - cbn [List.map bulk_loop]. unfold bind.
    pose proof (config_apply_row E cols cont rw s) as Hcfg.
    unfold satisfies, config_post in Hcfg.
    destruct (apply_row E cols cont rw s) as [[b|e] s1]; simpl in *.
    { destruct Hcfg as (_ & _ & _ & _ & Hd & (Htr & _)).
      pose proof (dry_run_off_same s s1 Hd Hoff) as Hoff1.
      destruct (bulk_row_turn E xargs b l s1 Hoff1)
        as (new & Hnew & Hall & Hc & Hincr).
      assert (Hturn : Forall
                        (fun nm => snd nm =
                           if Nat.eqb (incr l + fst nm) 0 then "w" else "a")
                        (timed_modes 0 new)).
      { revert Hall. apply Forall_impl. intros a <-. cbn [fst snd].
        now rewrite Nat.add_0_r. }
      destruct (bulk_row E xargs b l s1) as [[l1|e] s2]; simpl in *.
      - assert (Hoff2 : dry_run_off s2).
        { apply (dry_run_off_same s1); [now rewrite Hc|exact Hoff1]. }
        destruct (IH l1 s2 Hoff2) as (rest & Hrest & Hallr).
        destruct (Hincr l1 eq_refl) as (Hl1 & Hone).
        exists (new ++ rest). split.
        + now rewrite Hrest, Hnew, Htr, app_assoc.
        + rewrite timed_modes_app, Hone. apply Forall_app.
          split; [exact Hturn|].
          change (0 + 1) with (1 + 0).
          rewrite timed_modes_shift. apply Forall_map.
          revert Hallr. apply Forall_impl. intros [n md]. cbn [fst snd].
          rewrite Hl1. intros ->.
          replace (incr l + (1 + n)) with (S (incr l + n)) by lia.
          reflexivity.
      - exists new. split; [now rewrite Hnew, Htr|exact Hturn]. }
    destruct Hcfg as ((logs & Htr) & _).
    exists (List.map EvErr logs). split; [exact Htr|].
    rewrite timed_modes_logs. constructor.
Qed.

(** X13.  The log files over the rows of a bulk import.  Outside a dry
    run, only the first turn of the loop opens the files of [--file] and
    [--errs] for writing; every later turn opens them for appending, so
    that the logs of all rows accumulate.  Every turn opens its files
    before it launches and the loop goes on only after a launch, so: what
    a loop at its first turn opens before its first launch, it opens with
    ["w"]; whatever is opened after a launch, or by a loop past its first
    turn, is opened with ["a"].  A run over three rows with [--file
    out.log] opens the file with ["w"], ["a"], ["a"], once before each
    launch. *)
Theorem bulk_loop_log_modes (E : Env) (xargs : list string) (cols : pyval)
  (cont : bool) (rows : list row) :
  (forall (l : counters) (s : state),
      dry_run_off s ->
      exists new,
        trace (snd (bulk_loop E xargs
                      (List.map (apply_row E cols cont) rows) l s)) =
          trace s ++ new /\
        List.map snd (timed_modes 0 new) = modes new /\
        Forall (fun nm => snd nm =
                          if Nat.eqb (incr l + fst nm) 0 then "w" else "a")
               (timed_modes 0 new)) /\
  timed_modes 0
    (trace (snd (Demo.run (Demo.env_rows (Demo.yaml_continue (PBool true)))
                   (dict_set "file" (PStr "out.log") Demo.bulk_args)
                   "/w"))) =
    [(0, "w"); (1, "a"); (2, "a")] /\
  modes
    (trace (snd (Demo.run (Demo.env_rows (Demo.yaml_continue (PBool true)))
                   (dict_set "file" (PStr "out.log") Demo.bulk_args)
                   "/w"))) =
    ["w"; "a"; "a"].
Proof.
  split; [|split; vm_compute; reflexivity].
  intros l s Hoff.
  destruct (bulk_loop_turns E xargs cols cont rows l s Hoff)
    as (new & Htr & Hall).
  exists new. split; [exact Htr|]. split; [apply timed_modes_snd|exact Hall].
Qed.

Lemma bulk_loop_log_modes_witness :
  exists new,
    trace (snd (bulk_loop (Demo.env_rows Demo.yaml_plain) ["-Xmx1024M"]
                  (List.map (apply_row (Demo.env_rows Demo.yaml_plain)
                               PNone false)
                     [Some [PStr "a.tif"]; Some [PStr "b.tif"]])
                  (mkCounters 0 0 0%Z)
                  (snd (parse_bulk (Demo.env_rows Demo.yaml_plain)
                          Demo.yaml_plain
                          (Demo.after_init (Demo.env_rows Demo.yaml_plain)
                             (dict_set "file" (PStr "out.log")
                                Demo.bulk_args)))))) =
      trace (snd (parse_bulk (Demo.env_rows Demo.yaml_plain)
                    Demo.yaml_plain
                    (Demo.after_init (Demo.env_rows Demo.yaml_plain)
                       (dict_set "file" (PStr "out.log")
                          Demo.bulk_args)))) ++ new /\
    List.map snd (timed_modes 0 new) = modes new /\
    Forall (fun nm => snd nm =
                      if Nat.eqb (incr (mkCounters 0 0 0%Z) + fst nm) 0
                      then "w" else "a")
           (timed_modes 0 new).
Proof.
  apply (proj1 (bulk_loop_log_modes (Demo.env_rows Demo.yaml_plain)
                  ["-Xmx1024M"] PNone false
                  [Some [PStr "a.tif"]; Some [PStr "b.tif"]])
           (mkCounters 0 0 0%Z)).
  exists (PBool false). split; [vm_compute; reflexivity|reflexivity].
Defined.

(** ** Dry runs without a file name per row *)

Lemma py_format_int_plain (d : string) (n : Z) (used : bool) :
  Str.contains "%" d = false ->
  py_format_int d n used = if used then Ok d else Raise TypeError.
Proof.
  induction d as [|c d IH]; intros Hno.
  - reflexivity.
  - cbn [Str.contains prefix] in Hno.
    destruct (Ascii.eqb_spec "%"%char c) as [<-|Hc].
    + destruct (Ascii.ascii_dec "%" "%") as [_|Hne]; [|now elim Hne].
      destruct d; discriminate.
    + destruct (Ascii.ascii_dec "%" c) as [Heq|_]; [now elim Hc|].
      simpl in Hno. specialize (IH Hno).
      assert (Hstep : py_format_int (String c d) n used =
                      match py_format_int d n used with
                      | Ok t => Ok (String c t)
                      | Raise e => Raise e
                      end).
      { destruct c as [[] [] [] [] [] [] [] []]; try reflexivity.
        now elim Hc. }
      rewrite Hstep, IH. now destruct used.
Qed.

(** X14.  A dry run needs a place for the row number.  When [dry_run] is a
    text other than [true] (in any case) and without a [%], the turn of
    the first row raises [TypeError] where it formats the file name: no
    file is opened, nothing is written or launched, and the state is as it
    was. *)
Theorem dry_run_needs_placeholder (E : Env) (xargs : list string)
  (cont : bool) (l : counters) (s : state) (d : string) (a : list pyval) :
  dict_get "dry_run" (attrs (cmd s)) = Some (PStr d) ->
  d <> EmptyString ->
  String.eqb (Str.lower d) "true" = false ->
  Str.contains "%" d = false ->
  fst (added_args s) = Ok a ->
  bulk_row E xargs cont l s = (Raise TypeError, s).
Proof.
  intros Hd Hne Htrue Hno Ha.
  unfold bulk_row, row_action, row_dry_run, bind at 1 2 3.
  unfold getattr at 1. unfold_m. rewrite Hd.
  assert (Ht : truthy (PStr d) = true).
  { simpl. destruct (String.eqb_spec d EmptyString); [contradiction|auto]. }
  rewrite Ht.
  pose proof (added_args_state s) as Hs.
  destruct (added_args s) as [[a'|e] s1]; simpl in Ha, Hs; [|discriminate].
  subst s1. rewrite Htrue.
  now rewrite (py_format_int_plain d _ false Hno).
Qed.

Lemma dry_run_needs_placeholder_witness :
  let E := Demo.env_rows (Demo.yaml_dry_run (PStr "script.sh")) in
  let s := Demo.after_parse E (Demo.yaml_dry_run (PStr "script.sh")) in
  bulk_row E ["-Xmx1024M"] false (mkCounters 0 0 0%Z) s = (Raise TypeError, s).
Proof.
  intros E s.
  apply (dry_run_needs_placeholder E ["-Xmx1024M"] false (mkCounters 0 0 0%Z)
           s "script.sh" []).
  - vm_compute. reflexivity.
  - discriminate.
  - reflexivity.
  - reflexivity.
  - vm_compute. reflexivity.
Defined.

(** ** Looking for the jars *)

Lemma silent_post_refl (s : state) : silent_post s s.
Proof.
  repeat split. exists []. simpl. now rewrite app_nil_r.
Qed.

Lemma silent_post_trans (s1 s2 s3 : state) :
  silent_post s1 s2 -> silent_post s2 s3 -> silent_post s1 s3.
Proof.
  intros (Hc1 & Hw1 & Hh1 & Hn1 & Hl1 & logs1 & Ht1)
         (Hc2 & Hw2 & Hh2 & Hn2 & Hl2 & logs2 & Ht2).
  repeat split; try congruence.
  exists (logs1 ++ logs2). now rewrite Ht2, Ht1, map_app, app_assoc.
Qed.

Lemma silent_ret {A} (a : A) : silent (ret a).
Proof. intros s. apply silent_post_refl. Qed.

Lemma silent_raise {A} (e : exn) : silent (@raise A e).
Proof. intros s. apply silent_post_refl. Qed.

Lemma silent_bind {A B} (m : M A) (k : A -> M B) :
  silent m -> (forall a, silent (k a)) -> silent (bind m k).
Proof.
  intros Hm Hk s. unfold bind. specialize (Hm s).
  destruct (m s) as [[a|e] s1]; simpl in *; [|exact Hm].
  apply silent_post_trans with s1; [exact Hm|apply Hk].
Qed.

Lemma silent_ctx_err (text : string) : silent (ctx_err text).
Proof. intros s. repeat split. now exists [text]. Qed.

Lemma silent_die {A} (code : Z) (msg : string) : silent (@die A code msg).
Proof. intros s. repeat split. now exists [msg]. Qed.

Lemma silent_args_attr (args : dict pyval) (key : string) :
  silent (args_attr args key).
Proof.
  unfold args_attr. destruct (dict_get key args);
    [apply silent_ret|apply silent_raise].
Qed.

Lemma silent_lift_result {A} (r : result A) : silent (lift_result r).
Proof. destruct r; [apply silent_ret|apply silent_raise]. Qed.

Lemma silent_expect_str (v : pyval) : silent (expect_str v).
Proof. destruct v; first [apply silent_ret|apply silent_raise]. Qed.

Lemma silent_when (b : bool) (m : M unit) : silent m -> silent (when b m).
Proof. intros H. destruct b; [exact H|apply silent_ret]. Qed.

Ltac silent_step :=
  first [ apply silent_ret | apply silent_raise | apply silent_ctx_err
        | apply silent_die | apply silent_args_attr
        | apply silent_lift_result | apply silent_expect_str
        | apply silent_when
        | apply silent_bind; [|intros ?] ].

Lemma silent_get_classpath_logback {fs} (J : Jars fs) (f : fs)
  (args : dict pyval) :
  silent (get_classpath_logback J f args).
Proof.
  unfold get_classpath_logback.
  apply silent_bind; [silent_step|intros clientdir].
  apply silent_bind.
  { destruct (truthy clientdir); [silent_step|].
    destruct (path_exists J f _); repeat silent_step. }
  intros [[auto client_dir] txt]. cbn [fst snd].
  apply silent_bind; [silent_step|intros logback].
  apply silent_bind; [|intros; silent_step].
  destruct auto.
  - match goal with
    | |- context [match ?cp with [] => _ | _ => _ end] => destruct cp
    end; [silent_step|].
    destruct txt; [|silent_step].
    destruct client_dir; [|silent_step].
    repeat silent_step. destruct (negb (truthy _)); silent_step.
  - match goal with
    | |- context [match ?cp with [] => _ | _ => _ end] => destruct cp
    end; [|silent_step].
    destruct client_dir; silent_step.
Qed.

Lemma silent_download_omero_java {fs} (J : Jars fs) (v : pyval) (f : fs) :
  silent (download_omero_java J v f).
Proof.
  unfold download_omero_java.
  repeat silent_step.
  match goal with |- silent (match ?u with _ => _ end) => destruct u as [[d|] t] end;
    [|silent_step].
  repeat silent_step.
  destruct (topdirs _) as [|t1 [|t2 ts]]; repeat silent_step.
Qed.

(** ** [importer] *)

(** The class path [importer] ends up with: the one found at once, or the
    one found after the download of the latest jars. *)
Lemma silent_find_jars {fs} (J : Jars fs) (f : fs) (args : dict pyval)
  (cl : list string * string) :
  silent (match fst cl with
          | [] =>
              f <- download_omero_java J (PStr "latest") f ;;
              cl <- get_classpath_logback J f args ;;
              ret (cl, f)
          | _ => ret (cl, f)
          end).
Proof.
  destruct (fst cl); [|apply silent_ret].
  apply silent_bind; [apply silent_download_omero_java|intros f1].
  apply silent_bind; [apply silent_get_classpath_logback|intros cl1].
  apply silent_ret.
Qed.

(** [importer] without [--fetch-jars], step by step. *)
Lemma importer_run {fs} (J : Jars fs) (E : Env) (fuel : nat)
  (args : dict pyval) (f : fs) (s : state) (fj : pyval) :
  dict_get "fetch_jars" args = Some fj ->
  truthy fj = false ->
  importer J E fuel args f s =
  match get_classpath_logback J f args s with
  | (Raise e, s1) => (Raise e, s1)
  | (Ok cl, s1) =>
      match (match fst cl with
             | [] =>
                 f <- download_omero_java J (PStr "latest") f ;;
                 cl <- get_classpath_logback J f args ;;
                 ret (cl, f)
             | _ => ret (cl, f)
             end) s1 with
      | (Raise e, s2) => (Raise e, s2)
      | (Ok r, s2) =>
          match new_CommandArguments E args s2 with
          | (Raise e, s3) => (Raise e, s3)
          | (Ok _, s3) =>
              match dict_get "depth" args with
              | None => (Raise AttributeError, s3)
              | Some depth =>
                  let xargs :=
                    [snd (fst r); "-Xmx1024M"; "-cp";
                     Str.join ":" (fst (fst r))]
                    ++ [("-Domero.import.depth=" ++ py_str E depth)%string] in
                  match dict_get "bulk" args with
                  | None => (Raise AttributeError, s3)
                  | Some bulk =>
                      ((if truthy bulk then
                          path <- args_attr args "path" ;;
                          if truthy path then
                            die 104 "When using bulk import, omit paths"
                          else bulk_import E fuel xargs
                        else do_import E xargs "w") ;;;
                       ret (snd r)) s3
                  end
              end
          end
      end
  end.
Proof.
  intros Hfj Hf. unfold importer, bind at 1, args_attr at 1.
  rewrite Hfj. unfold ret at 1. cbv beta iota. rewrite Hf.
  unfold bind at 1.
  destruct (get_classpath_logback J f args s) as [[cl|e] s1]; [|reflexivity].
  unfold bind at 1.
  match goal with
  | |- context [match ?m s1 with _ => _ end] =>
      destruct (m s1) as [[r|e] s2]
  end; [|reflexivity].
  unfold bind at 1.
  destruct (new_CommandArguments E args s2) as [[[]|e] s3]; [|reflexivity].
  unfold bind at 1, args_attr at 1.
  destruct (dict_get "depth" args) as [depth|]; [|reflexivity].
  unfold ret at 1. cbv beta iota zeta.
  unfold bind at 1, args_attr at 1.
  destruct (dict_get "bulk" args) as [bulk|]; reflexivity.
Qed.

(** X15.  A bulk import takes no paths.  When the namespace has both
    [bulk] and a path (and no [fetch_jars]), [importer] never returns
    normally and launches nothing, opens nothing and stays in its
    directory.  The refusal comes late: once the jars are found and the
    connection is made, the run ends with code 104. *)
Theorem importer_bulk_with_paths {fs} (J : Jars fs) (E : Env) (fuel : nat)
  (args : dict pyval) (f : fs) (s : state) (fj b p : pyval) :
  dict_get "fetch_jars" args = Some fj -> truthy fj = false ->
  dict_get "bulk" args = Some b -> truthy b = true ->
  dict_get "path" args = Some p -> truthy p = true ->
  (exists e, fst (importer J E fuel args f s) = Raise e) /\
  launches (snd (importer J E fuel args f s)) = launches s /\
  handles (snd (importer J E fuel args f s)) = handles s /\
  cwd (snd (importer J E fuel args f s)) = cwd s /\
  (forall c cp lb s1 d,
      get_classpath_logback J f args s = (Ok (c :: cp, lb), s1) ->
      fst (new_CommandArguments E args s1) = Ok tt ->
      dict_get "depth" args = Some d ->
      fst (importer J E fuel args f s) =
        Raise (Die 104 "When using bulk import, omit paths") /\
      rv (snd (importer J E fuel args f s)) = 104%Z).
Proof.
  intros Hfj Hf Hb Htb Hp Htp.
  rewrite (importer_run J E fuel args f s fj Hfj Hf).
  pose proof (silent_get_classpath_logback J f args s) as H1.
  destruct (get_classpath_logback J f args s) as [[cl|e] s1]; simpl in H1.
  2:{ destruct H1 as (_ & Hw & Hh & _ & Hl & _).
      split; [now exists e|]. cbn [fst snd].
      split; [exact Hl|]. split; [exact Hh|].
      split; [exact Hw|]. intros c cp lb s1' d Hgcl. discriminate. }
  pose proof (silent_find_jars J f args cl s1) as H2.
  match goal with
  | |- context [match ?m s1 with _ => _ end] =>
      destruct (m s1) as [[r|e] s2] eqn:Hfind
  end; simpl in H2.
  2:{ split; [now exists e|]. cbn [fst snd].
      destruct H1 as (_ & Hw & Hh & _ & Hl & _).
      destruct H2 as (_ & Hw2 & Hh2 & _ & Hl2 & _).
      split; [congruence|]. split; [congruence|]. split; [congruence|].
      intros c cp lb s1' d Hgcl. injection Hgcl as -> ->.
      cbn [fst] in Hfind. unfold ret in Hfind. discriminate. }
  destruct (new_CommandArguments_spec E args s2) as (H3 & _).
  assert (Hworld : launches s2 = launches s /\ handles s2 = handles s /\
                   cwd s2 = cwd s).
  { destruct H1 as (_ & Hw & Hh & _ & Hl & _).
    destruct H2 as (_ & Hw2 & Hh2 & _ & Hl2 & _).
    repeat split; congruence. }
  destruct Hworld as (Hl & Hh & Hw).
  destruct (new_CommandArguments E args s2) as [[[]|e] s3] eqn:Hnew;
    simpl in H3; destruct H3 as (Hw3 & _ & _ & Hh3 & _ & Hl3).
  2:{ split; [now exists e|]. cbn [fst snd].
      split; [congruence|]. split; [congruence|]. split; [congruence|].
      intros c cp lb s1' d Hgcl Hok. injection Hgcl as -> ->.
      cbn [fst] in Hfind. unfold ret in Hfind. injection Hfind as <- <-.
      rewrite Hnew in Hok. discriminate. }
  destruct (dict_get "depth" args) as [depth|].
  2:{ split; [now exists AttributeError|]. cbn [fst snd].
      split; [congruence|]. split; [congruence|]. split; [congruence|].
      intros c cp lb s1' d _ _ Hd. discriminate. }
  rewrite Hb, Htb. unfold bind, args_attr. rewrite Hp.
  unfold ret. cbv beta iota. rewrite Htp. unfold_m.
  simpl. split; [eexists; reflexivity|].
  split; [congruence|]. split; [congruence|]. split; [congruence|].
  intros c cp lb s1' d _ _ _. split; reflexivity.
Qed.

Lemma importer_bulk_with_paths_witness :
  let E := Demo.env [] [] [] [] in
  let args := dict_set "path" (PList [PStr "a.tif"]) Demo.bulk_args in
  fst (importer Demo.jars_installed E 8 args tt (Demo.start "/w")) =
    Raise (Die 104 "When using bulk import, omit paths") /\
  rv (snd (importer Demo.jars_installed E 8 args tt (Demo.start "/w")))
    = 104%Z.
Proof.
  intros E args.
  refine (proj2 (proj2 (proj2 (proj2
            (importer_bulk_with_paths Demo.jars_installed E 8 args tt
               (Demo.start "/w") PNone (PStr "bulk.yml")
               (PList [PStr "a.tif"]) _ _ _ _ _ _))))
            "/opt/omero/lib/client/blitz.jar" []
            "-Dlogback.configurationFile=/opt/omero/etc/logback-cli.xml"
            (Demo.start "/w") (PInt 4) _ _ _);
    vm_compute; reflexivity.
Defined.

(** X16.  [--fetch-jars] only downloads.  With a true [fetch_jars],
    [importer] does not build the arguments, does not log in and launches
    nothing: the instance, the working directory and the open files are
    what they were, the lines it writes go to the error stream, and the
    outcome does not depend on the connection or on any descriptor. *)
Theorem importer_fetch_jars {fs} (J : Jars fs) (E E' : Env)
  (fuel fuel' : nat) (args : dict pyval) (f : fs) (s : state)
  (fj : pyval) :
  dict_get "fetch_jars" args = Some fj -> truthy fj = true ->
  silent_post s (snd (importer J E fuel args f s)) /\
  importer J E' fuel' args f s = importer J E fuel args f s.
Proof.
  intros Hfj Ht.
  assert (Hrun : forall E0 fuel0,
             importer J E0 fuel0 args f s =
             (path <- args_attr args "path" ;;
              when (truthy path)
                   (ctx_err "WARNING: Ignoring extra arguments") ;;;
              download_omero_java J fj f) s).
  { intros E0 fuel0. unfold importer, bind at 1, args_attr at 1.
    rewrite Hfj. unfold ret at 1. cbv beta iota. now rewrite Ht. }
  split; [|now rewrite !Hrun].
  rewrite Hrun.
  apply (silent_bind (args_attr args "path")); [apply silent_args_attr|].
  intros path. apply silent_bind.
  - apply silent_when, silent_ctx_err.
  - intros _. apply silent_download_omero_java.
Qed.

Lemma importer_fetch_jars_witness :
  let E := Demo.env [] [] [] [] in
  let args := dict_set "fetch_jars" (PStr "5.6.0") (Demo.namespace PNone) in
  silent_post (Demo.start "/w")
    (snd (importer Demo.jars_installed E 8 args tt (Demo.start "/w"))) /\
  importer Demo.jars_installed Demo.env_AB 0 args tt (Demo.start "/w") =
  importer Demo.jars_installed E 8 args tt (Demo.start "/w").
Proof.
  intros E args.
  apply (importer_fetch_jars Demo.jars_installed E Demo.env_AB 8 0 args tt
           (Demo.start "/w") (PStr "5.6.0")); reflexivity.
Defined.

(** X17.  A client directory that is given or installed is never replaced
    by a download.  With [--clientdir], or else with [lib/client] under
    the installation, [_get_classpath_logback] takes the jars of that
    directory and the logback file of [--logback] or of [etc]; it touches
    nothing and returns a class path that is not empty, or ends the run
    with code 103 when the directory holds no jar. *)
Theorem classpath_without_download {fs} (J : Jars fs) (f : fs)
  (args : dict pyval) (s : state) (clientdir logback : pyval) :
  dict_get "clientdir" args = Some clientdir ->
  dict_get "logback" args = Some logback ->
  truthy clientdir = true \/
  path_exists J f (path_join J (path_join J (ctx_dir J) "lib") "client")
    = true ->
  let client_dir :=
    if truthy clientdir then as_path J clientdir
    else path_join J (path_join J (ctx_dir J) "lib") "client" in
  let classpath :=
    if negb (String.eqb client_dir EmptyString) && path_exists J f client_dir
    then jar_files J f client_dir else [] in
  let xml_file :=
    if truthy logback then as_path J logback
    else path_join J (path_join J (ctx_dir J) "etc") "logback-cli.xml" in
  get_classpath_logback J f args s =
    match classpath with
    | [] =>
        (die 103 ("No JAR files found under '" ++ client_dir ++ "'")%string
         : M (list string * string)) s
    | _ =>
        (Ok (classpath, ("-Dlogback.configurationFile=" ++ xml_file)%string),
         s)
    end.
Proof.
  intros Hcd Hlb Hfound. cbv zeta.
  unfold get_classpath_logback.
  cbv beta iota zeta delta [bind ret args_attr]. rewrite Hcd.
  cbv beta iota.
  assert (Hlib : truthy clientdir = false ->
                 path_exists J f
                   (path_join J (path_join J (ctx_dir J) "lib") "client")
                 = true).
  { intros Hno. destruct Hfound as [Hyes|Hf]; [congruence|exact Hf]. }
  destruct (truthy clientdir).
  - cbv beta iota zeta delta [fst snd path_truthy]. rewrite Hlb.
    cbv beta iota.
    destruct (String.eqb (as_path J clientdir) EmptyString),
      (path_exists J f (as_path J clientdir)),
      (jar_files J f (as_path J clientdir)); unfold_m; reflexivity.
  - rewrite (Hlib eq_refl).
    cbv beta iota zeta delta [fst snd path_truthy]. rewrite Hlb.
    cbv beta iota. rewrite !(Hlib eq_refl).
    destruct (String.eqb
                (path_join J (path_join J (ctx_dir J) "lib") "client")
                EmptyString),
      (jar_files J f (path_join J (path_join J (ctx_dir J) "lib") "client"));
      unfold_m; reflexivity.
Qed.

Lemma classpath_without_download_witness :
  get_classpath_logback Demo.jars_installed tt (Demo.namespace PNone)
    (Demo.start "/w") =
  (Ok (["/opt/omero/lib/client/blitz.jar"],
       "-Dlogback.configurationFile=/opt/omero/etc/logback-cli.xml"),
   Demo.start "/w").
Proof.
  apply (classpath_without_download Demo.jars_installed tt
           (Demo.namespace PNone) (Demo.start "/w") PNone PNone);
    [reflexivity|reflexivity|right; reflexivity].
Defined.

Lemma first_component_not_absolute (p : string) :
  isabs (first_component p) = false.
Proof.
  destruct p as [|c t]; [reflexivity|]. unfold isabs.
  cbn [first_component].
  destruct (Ascii.eqb_spec c "/") as [->|Hc]; [reflexivity|].
  cbn [prefix]. destruct (Ascii.ascii_dec "/" c) as [Heq|_]; [|reflexivity].
  now elim Hc.
Qed.

(** X18.  The archive check of [download_omero_java].  The top directory
    compared with [os.path.isabs] is the text before the first separator
    of a member name, which cannot start with the separator: no top
    directory is ever absolute, so that the refusal of absolute paths
    cannot happen; only the number of distinct top directories (of the
    members that are directories) decides. *)
Theorem topdir_never_absolute (entries : list zip_entry) (t : string) :
  In t (topdirs entries) -> isabs t = false.
Proof.
  unfold topdirs. intros Hin. apply nodup_In in Hin.
  apply in_map_iff in Hin. destruct Hin as (e & <- & _).
  apply first_component_not_absolute.
Qed.

Lemma topdir_never_absolute_witness :
  isabs (first_component "/etc/passwd/") = false.
Proof.
  apply (topdir_never_absolute
           [("/etc/passwd/", true); ("/etc/", true)]
           (first_component "/etc/passwd/")).
  vm_compute. now left.
Defined.

(** ** The points of polygons and polylines *)

Lemma append_assoc (a b c : string) :
  ((a ++ b) ++ c = a ++ (b ++ c))%string.
Proof. induction a as [|x a IH]; simpl; [reflexivity|now rewrite IH]. Qed.

Lemma append_nil_r (a : string) : (a ++ EmptyString)%string = a.
Proof. induction a as [|x a IH]; simpl; [reflexivity|now rewrite IH]. Qed.

Lemma polygon_loop_tail (E : Env) (l : list pyval) :
  forall (st : string) (cnt : nat),
    PolygonData.listToString_loop E l st (S cnt) = (st ++ tail_text E l)%string.
Proof.
  induction l as [|e l IH]; intros st cnt; simpl.
  - now rewrite append_nil_r.
  - rewrite Nat.add_1_r, IH. now rewrite !append_assoc.
Qed.

Lemma polyline_loop_tail (E : Env) (l : list pyval) :
  forall (st : string) (cnt : nat),
    PolylineData.listToString_loop E l st (S cnt) = (st ++ tail_text E l)%string.
Proof.
  induction l as [|e l IH]; intros st cnt; simpl.
  - now rewrite append_nil_r.
  - rewrite Nat.add_1_r, IH. now rewrite !append_assoc.
Qed.

Lemma join_tail (E : Env) (e : pyval) (l : list pyval) :
  Str.join "," (List.map (py_str E) (e :: l)) =
  (py_str E e ++ tail_text E l)%string.
Proof.
  revert e. induction l as [|e' l IH]; intros e.
  - simpl. now rewrite append_nil_r.
  - change (Str.join "," (List.map (py_str E) (e :: e' :: l)))
      with (py_str E e ++ "," ++
            Str.join "," (List.map (py_str E) (e' :: l)))%string.
    now rewrite IH.
Qed.

Lemma polygon_text (E : Env) (e : pyval) (l : list pyval) :
  PolygonData.listToString E (e :: l) = (py_str E e ++ tail_text E l)%string.
Proof.
  unfold PolygonData.listToString.
  cbn [PolygonData.listToString_loop Nat.eqb negb Nat.add].
  change (0 + 1) with 1. now rewrite polygon_loop_tail.
Qed.

Lemma polyline_text (E : Env) (e : pyval) (l : list pyval) :
  PolylineData.listToString E (e :: l) = (py_str E e ++ tail_text E l)%string.
Proof.
  unfold PolylineData.listToString.
  cbn [PolylineData.listToString_loop Nat.ltb Nat.leb Nat.add].
  change (0 + 1) with 1. now rewrite polyline_loop_tail.
Qed.

(** X19.  The two classes write a list of points in the same way: the
    texts of the elements, separated by commas, with no comma at either
    end; the empty list gives the empty text.  ([PolygonData] tests
    [cnt != 0] before it counts the element, [PolylineData] tests
    [cnt > 0] and counts after it.) *)
Theorem listToString_is_join (E : Env) (pointsList : list pyval) :
  PolygonData.listToString E pointsList =
    Str.join "," (List.map (py_str E) pointsList) /\
  PolylineData.listToString E pointsList =
    Str.join "," (List.map (py_str E) pointsList).
Proof.
  destruct pointsList as [|e l]; [split; reflexivity|].
  rewrite join_tail. split; [apply polygon_text|apply polyline_text].
Qed.

Lemma num_text_app (a b : string) :
  num_text (a ++ b) = num_text a && num_text b.
Proof.
  induction a as [|c a IH]; simpl; [reflexivity|].
  now rewrite IH, Bool.andb_assoc.
Qed.

Lemma num_text_uint (d : Decimal.uint) :
  num_text (DecimalString.NilEmpty.string_of_uint d) = true.
Proof. induction d; simpl; auto. Qed.

Lemma num_text_of_Z (z : Z) : num_text (Str.of_Z z) = true.
Proof.
  unfold Str.of_Z, DecimalString.NilZero.string_of_int,
    DecimalString.NilZero.string_of_uint.
  destruct (Z.to_int z) as [d|d]; destruct d; simpl;
    auto using num_text_uint.
Qed.

Lemma num_char_plain (c : ascii) :
  num_char c = true ->
  is_blank c = false /\ Ascii.eqb c "," = false /\ Ascii.eqb c "+" = false.
Proof.
  destruct c as [[] [] [] [] [] [] [] []]; intros H;
    try discriminate H; repeat split.
Qed.

Lemma lskip_num (s : string) : num_text s = true -> lskip s = s.
Proof.
  destruct s as [|c t]; [reflexivity|]. simpl. intros H.
  apply Bool.andb_true_iff in H. destruct H as (Hc & _).
  destruct (num_char_plain c Hc) as (Hb & _). now rewrite Hb.
Qed.

Lemma rskip_num (s : string) : num_text s = true -> rskip s = s.
Proof.
  induction s as [|c t IH]; [reflexivity|]. simpl. intros H.
  apply Bool.andb_true_iff in H. destruct H as (Hc & Ht).
  rewrite (IH Ht). destruct (num_char_plain c Hc) as (Hb & _).
  rewrite Hb. now destruct t.
Qed.

Lemma py_split_num (s : string) :
  forall cur, num_text s = true ->
              py_split "," cur s = [(cur ++ s)%string].
Proof.
  induction s as [|c t IH]; intros cur H; simpl.
  - now rewrite append_nil_r.
  - simpl in H. apply Bool.andb_true_iff in H. destruct H as (Hc & Ht).
    destruct (num_char_plain c Hc) as (_ & Hcomma & _). rewrite Hcomma.
    rewrite (IH _ Ht). now rewrite append_assoc.
Qed.

Lemma py_split_app (a rest : string) :
  forall cur, num_text a = true ->
              py_split "," cur (a ++ "," ++ rest) =
              (cur ++ a)%string :: py_split "," EmptyString rest.
Proof.
  induction a as [|c t IH]; intros cur H; simpl.
  - now rewrite append_nil_r.
  - simpl in H. apply Bool.andb_true_iff in H. destruct H as (Hc & Ht).
    destruct (num_char_plain c Hc) as (_ & Hcomma & _). rewrite Hcomma.
    rewrite (IH _ Ht). now rewrite append_assoc.
Qed.

(** The tokens of the text of a list of integers are the texts of the
    integers. *)
Lemma py_split_tail (E : Env) (zs : list Z) :
  forall a cur,
    num_text a = true ->
    py_split "," cur (a ++ tail_text E (List.map PInt zs)) =
    (cur ++ a)%string :: List.map Str.of_Z zs.
Proof.
  induction zs as [|z zs IH]; intros a cur Ha; cbn [List.map tail_text py_str].
  - rewrite append_nil_r. now apply py_split_num.
  - rewrite (py_split_app a _ cur Ha). f_equal.
    apply (IH (Str.of_Z z) EmptyString). apply num_text_of_Z.
Qed.

Lemma py_int_num (s : string) :
  num_text s = true ->
  py_int s = option_map Z.of_int (DecimalString.NilZero.int_of_string s).
Proof.
  intros H. unfold py_int. rewrite (lskip_num s H), (rskip_num s H).
  destruct s as [|c t]; [reflexivity|].
  simpl in H. apply Bool.andb_true_iff in H. destruct H as (Hc & _).
  destruct (num_char_plain c Hc) as (_ & _ & Hplus).
  destruct c as [[] [] [] [] [] [] [] []]; try reflexivity.
  discriminate Hplus.
Qed.

(** [int(str(z))] is [z]. *)
Lemma py_int_of_Z (z : Z) : py_int (Str.of_Z z) = Some z.
Proof.
  rewrite py_int_num by apply num_text_of_Z.
  unfold Str.of_Z. rewrite DecimalString.NilZero.isi.
  - simpl. now rewrite DecimalZ.of_to.
  - destruct z; simpl; try discriminate.
    intros [= H]. now apply DecimalPos.Unsigned.to_uint_nonnil in H.
  - destruct z; simpl; try discriminate.
    intros [= H]. now apply DecimalPos.Unsigned.to_uint_nonnil in H.
Qed.

Lemma tuple_loop_shift (a b : string) (tokens : list string)
  (range : list nat) :
  forall elements,
    tuple_loop (a :: b :: tokens) (List.map S range) elements =
    tuple_loop tokens range elements.
Proof.
  induction range as [|k range IH]; intros elements; [reflexivity|].
  cbn [List.map tuple_loop].
  change (S k * 2) with (S (S (k * 2))).
  change (S (S (k * 2)) + 1) with (S (S (k * 2 + 1))).
  cbn [nth_error].
  destruct (nth_error tokens (k * 2)) as [x|]; [|reflexivity].
  destruct (py_int x); [|reflexivity].
  destruct (nth_error tokens (k * 2 + 1)) as [y|]; [|reflexivity].
  destruct (py_int y); [|reflexivity].
  apply IH.
Qed.

Lemma tuple_loop_acc (tokens : list string) (range : list nat) :
  forall elements,
    tuple_loop tokens range elements =
    match tuple_loop tokens range [] with
    | Ok r => Ok (elements ++ r)
    | Raise e => Raise e
    end.
Proof.
  induction range as [|k range IH]; intros elements.
  - simpl. now rewrite app_nil_r.
  - cbn [tuple_loop].
    destruct (nth_error tokens (k * 2)) as [x|]; [|reflexivity].
    destruct (py_int x); [|reflexivity].
    destruct (nth_error tokens (k * 2 + 1)) as [y|]; [|reflexivity].
    destruct (py_int y); [|reflexivity].
    rewrite IH. rewrite (IH ([] ++ [(z, z0)])).
    destruct (tuple_loop tokens range []); [|reflexivity].
    now rewrite <- app_assoc.
Qed.

Lemma tuple_loop_pairs (n : nat) :
  forall zs,
    List.length zs <= n ->
    tuple_loop (List.map Str.of_Z zs) (seq 0 (Nat.div (List.length zs) 2)) []
    = Ok (pairs zs).
Proof.
  induction n as [|n IH]; intros zs Hlen.
  - destruct zs; [reflexivity|simpl in Hlen; lia].
  - destruct zs as [|x [|y zs]]; [reflexivity|reflexivity|].
    cbn [List.length List.map pairs].
    replace (Nat.div (S (S (List.length zs))) 2)
      with (S (Nat.div (List.length zs) 2)).
    2:{ rewrite <- !Nat.div2_div. reflexivity. }
    cbn [seq]. rewrite <- seq_shift.
    cbn [tuple_loop Nat.mul Nat.add nth_error].
    rewrite !py_int_of_Z. rewrite tuple_loop_shift, tuple_loop_acc.
    rewrite IH by (simpl in Hlen; lia). reflexivity.
Qed.

(** X20.  The points of a polygon or polyline survive the round trip under
    Python 2: the text written for a list of integers is read back as the
    list of its pairs, a last coordinate without a partner being dropped
    and the empty list giving no point.  Under Python 3 the division
    [numTokens/2] gives a [float] and reading any text raises
    [TypeError]. *)
Theorem points_round_trip (E : Env) (zs : list Z) :
  PolygonData.stringToTupleList false
    (PolygonData.listToString E (List.map PInt zs)) = Ok (pairs zs) /\
  PolylineData.stringToTupleList false
    (PolylineData.listToString E (List.map PInt zs)) = Ok (pairs zs) /\
  forall pointString,
    PolygonData.stringToTupleList true pointString = Raise TypeError /\
    PolylineData.stringToTupleList true pointString = Raise TypeError.
Proof.
  assert (Hread : forall text,
             (forall z l, text (z :: l)
                          = (py_str E (PInt z)
                             ++ tail_text E (List.map PInt l))%string) ->
             text [] = EmptyString ->
             tuple_list false (text zs) = Ok (pairs zs)).
  { intros text Hcons Hnil. destruct zs as [|z zs].
    - rewrite Hnil. reflexivity.
    - rewrite Hcons. unfold tuple_list. cbn [py_str].
      rewrite (py_split_tail E zs (Str.of_Z z) EmptyString
                 (num_text_of_Z z)).
      change (EmptyString ++ Str.of_Z z)%string with (Str.of_Z z).
      change (Str.of_Z z :: List.map Str.of_Z zs)
        with (List.map Str.of_Z (z :: zs)).
      rewrite length_map.
      now apply (tuple_loop_pairs (List.length (z :: zs))). }
  split; [|split].
  - apply (Hread (fun l => PolygonData.listToString E (List.map PInt l)));
      [intros z l; apply polygon_text|reflexivity].
  - apply (Hread (fun l => PolylineData.listToString E (List.map PInt l)));
      [intros z l; apply polyline_text|reflexivity].
  - intros pointString. split; reflexivity.
Qed.
